(** * Keyword-anchored PDF filling: a shallow embedding of the placement pipeline

    The development follows the Python sources
    - [src/components/coords.py]   (anchors and clamping),
    - [src/components/text.py]     (width estimate, alias splitting),
    - [src/components/page.py]     (page selection parsing),
    - [src/processors/matching.py] (normalisation, fuzzy window, bounding box),
    - [src/processors/layout.py]   (line wrapping),
    - [src/processors/engines/pymupdf.py] and [src/pdf_processor.py]
      (planning of a fill and choice of the rendering engine).

    Conventions.
    - A Python [str] is a list of Unicode code points ([list N]); [len] is
      [length].
    - A Python [float] is an exact rational ([Q]); comparisons are the
      boolean ones of [Q] and numeric results are compared with [==].
      Rounding, infinities and NaN are outside the model.
    - A Python [dict] iterated in insertion order is an association list; the
      draw plan, which is only looked up by page index, is a [gmap].
    - Collaborators that live outside the repository (the similarity ratio of
      [difflib], the font metrics of ReportLab, [int], the file system and the
      PDF libraries) are section variables or oracle records. *)

From Stdlib Require Import QArith Qminmax Lqa ZArith NArith List Lia Permutation Bool.
From Stdlib Require Import Ascii String.
From stdpp Require Import base gmap list sorting.
Import ListNotations.

Abbreviation str := (list N).

(** An ASCII literal as a Python string. *)
Definition lit (s : string) : str := map N_of_ascii (list_ascii_of_string s).

(** ** Numbers *)

Definition Qltb (a b : Q) : bool := negb (Qle_bool b a).
Definition Qgtb (a b : Q) : bool := Qltb b a.
Definition Qgeb (a b : Q) : bool := Qle_bool b a.

(** Python's two-argument [max(a, b)] keeps [a] unless [b > a]; [min(a, b)]
    keeps [a] unless [b < a]. *)
Definition py_max (a b : Q) : Q := if Qgtb b a then b else a.
Definition py_min (a b : Q) : Q := if Qltb b a then b else a.

(** [max(xs)] and [min(xs)] over a non-empty list; [None] stands for the
    [ValueError] raised on an empty sequence. *)
Definition py_max_list (xs : list Q) : option Q :=
  match xs with
  | [] => None
  | x :: r => Some (fold_left py_max r x)
  end.

Definition py_min_list (xs : list Q) : option Q :=
  match xs with
  | [] => None
  | x :: r => Some (fold_left py_min r x)
  end.

(** ** Constants of [src/variables.py] *)

Definition STYLE_OFFSET_X_DEFAULT : Q := 50.
Definition STYLE_OFFSET_Y_DEFAULT : Q := 0.
Definition CONST_PAGE_INDEX_DEFAULT : Z := 0.
Definition CONST_FUZZY_MATCH_THRESHOLD : Q := 60 # 100.
Definition CONST_CLAMP_MARGIN_DEFAULT : Q := 2.
Definition CONST_ALIAS_SEPARATOR : N := 124.   (* "|" *)

(** ** [src/components/coords.py] *)

Module Coords.

Definition Rect : Type := (Q * Q * Q * Q)%type.   (* (x0, top, x1, bottom) *)

Definition adjust_coords (x y offset_x offset_y : Q) : Q * Q :=
  (x + offset_x, y + offset_y)%Q.

Definition clamp_coords (x y page_width page_height margin : Q) : Q * Q :=
  (py_max margin (py_min (page_width - margin) x),
   py_max margin (py_min (page_height - margin) y))%Q.

Definition clamp_baseline_ratio
    (x y_baseline page_width page_height font_size margin
     ascent_ratio descent_ratio : Q) : Q * Q :=
  let x_clamped := py_max margin (py_min (page_width - margin) x) in
  let ascent := py_max 0 (font_size * ascent_ratio) in
  let descent := py_max 0 (font_size * descent_ratio) in
  let y_min := (margin + descent)%Q in
  let y_max := (page_height - margin - ascent)%Q in
  let '(y_min, y_max) :=
    if Qgtb y_min y_max then (margin, (page_height - margin)%Q)
    else (y_min, y_max) in
  let y_clamped := py_max y_min (py_min y_max y_baseline) in
  (x_clamped, y_clamped).

(** The call with the default ratios [ascent_ratio = 0.8],
    [descent_ratio = 0.2]. *)
Definition clamp_baseline
    (x y_baseline page_width page_height font_size margin : Q) : Q * Q :=
  clamp_baseline_ratio x y_baseline page_width page_height font_size margin
    (8 # 10) (2 # 10).

Definition right_of_bbox (bbox : Rect) (offset_x offset_y : Q) : Q * Q :=
  let '(x0, y0, x1, _) := bbox in ((x1 + offset_x)%Q, (y0 + offset_y)%Q).

Definition right_of_bbox_baseline (bbox : Rect) (offset_x offset_y : Q) : Q * Q :=
  let '(x0, _, x1, y1) := bbox in ((x1 + offset_x)%Q, (y1 + offset_y)%Q).

End Coords.

(** ** Python string primitives *)

Module PyStr.

(** [str.isspace] on one code point: the characters [str.strip] removes. *)
Definition is_space (c : N) : bool :=
  ((9 <=? c) && (c <=? 13) || (28 <=? c) && (c <=? 32) || (c =? 133)
   || (c =? 160) || (c =? 5760) || (8192 <=? c) && (c <=? 8202)
   || (c =? 8232) || (c =? 8233) || (c =? 8239) || (c =? 8287)
   || (c =? 12288))%N.

(** The line boundaries of [str.splitlines]: LF, VT, FF, CR, FS, GS, RS, NEL,
    LS and PS. *)
Definition is_linebreak (c : N) : bool :=
  ((10 <=? c) && (c <=? 13) || (28 <=? c) && (c <=? 30) || (c =? 133)
   || (c =? 8232) || (c =? 8233))%N.

Fixpoint lstrip (s : str) : str :=
  match s with
  | [] => []
  | c :: r => if is_space c then lstrip r else s
  end.

Definition rstrip (s : str) : str := rev (lstrip (rev s)).
Definition strip (s : str) : str := rstrip (lstrip s).

(** [s.replace(old, new)] for one-character [old] and [new]. *)
Definition replace (old new : N) (s : str) : str :=
  map (fun c => if (c =? old)%N then new else c) s.

(** [sep in s] and [s.split(sep)] for a one-character separator. *)
Definition contains (sep : N) (s : str) : bool := existsb (N.eqb sep) s.

Fixpoint split (sep : N) (s : str) : list str :=
  match s with
  | [] => [[]]
  | c :: r =>
      if (c =? sep)%N then [] :: split sep r
      else match split sep r with
           | w :: ws => (c :: w) :: ws
           | [] => [[c]]
           end
  end.

(** [s.split(sep, 1)] when [sep in s]: the text before the first separator
    and the text after it. *)
Fixpoint split_once (sep : N) (s : str) : str * str :=
  match s with
  | [] => ([], [])
  | c :: r =>
      if (c =? sep)%N then ([], r)
      else let '(a, b) := split_once sep r in (c :: a, b)
  end.

(** [s.splitlines()]: [cur] holds the current line, reversed.  CR LF counts
    as one boundary and a final boundary opens no empty line. *)
Fixpoint splitlines_from (cur : str) (s : str) : list str :=
  match s with
  | [] => match cur with [] => [] | _ => [rev cur] end
  | c :: r =>
      if is_linebreak c then
        rev cur :: splitlines_from []
          (match r with
           | c' :: r' => if ((c =? 13) && (c' =? 10))%N then r' else r
           | [] => r
           end)
      else splitlines_from (c :: cur) r
  end.

Definition splitlines (s : str) : list str := splitlines_from [] s.

Definition is_ascii (c : N) : bool := (c <=? 127)%N.

Definition str_eqb (a b : str) : bool := bool_decide (a = b).
Definition str_in (a : str) (l : list str) : bool := existsb (str_eqb a) l.
Definition is_empty (s : str) : bool := match s with [] => true | _ => false end.

(** Lower-casing and [int] restricted to ASCII input: the instances the
    examples run with.  [ascii_int] accepts surrounding white space, one
    sign and decimal digits. *)
Definition ascii_lower (s : str) : str :=
  map (fun c => if ((65 <=? c) && (c <=? 90))%N then (c + 32)%N else c) s.

Definition is_digit (c : N) : bool := ((48 <=? c) && (c <=? 57))%N.

Definition digits_value (s : str) : Z :=
  fold_left (fun acc c => (10 * acc + Z.of_N (c - 48))%Z) s 0%Z.

Definition ascii_int (s : str) : option Z :=
  match strip s with
  | [] => None
  | c :: r =>
      let '(neg, ds) :=
        if (c =? 45)%N then (true, r)
        else if (c =? 43)%N then (false, r) else (false, c :: r) in
      if is_empty ds || negb (forallb is_digit ds) then None
      else Some (if neg then (- digits_value ds)%Z else digits_value ds)
  end.

End PyStr.

(** ** [src/components/text.py] *)

Module Text.
Import PyStr.

Definition estimate_text_width (text : str) (font_size char_width_ratio : Q) : Q :=
  match text with
  | [] => 0%Q
  | _ =>
      fold_left
        (fun width char =>
           if (127 <? char)%N then (width + font_size)%Q
           else (width + font_size * char_width_ratio)%Q)
        text 0%Q
  end.

(** The loop keeps [seen] equal to the set of elements of [result], so the
    membership test is done on [result]. *)
Definition split_aliases_sep (keyword : str) (sep : N) : list str :=
  let raw := keyword in
  let parts := if negb (contains sep raw) then [raw] else split sep raw in
  let result :=
    fold_left
      (fun result p =>
         let t := strip p in
         if is_empty t then result
         else if str_in t result then result
         else result ++ [t])
      parts [] in
  match result with
  | [] => [strip keyword]
  | _ => result
  end.

Definition split_aliases (keyword : str) : list str :=
  split_aliases_sep keyword CONST_ALIAS_SEPARATOR.

End Text.

(** ** The similarity ratio of [difflib]

    [SequenceMatcher(a, b).ratio()] is [2 * M / (len a + len b)], where [M]
    is the total size of the matching blocks found by the Ratcliff/Obershelp
    recursion: take the longest common block, then recurse on the pieces to
    its left and to its right.  No junk predicate is in use; the popularity
    heuristic that [difflib] applies to sequences of 200 and more elements
    is not part of this model. *)

Module Difflib.

(** Length of the longest common prefix. *)
Fixpoint common_prefix (a b : str) : nat :=
  match a, b with
  | x :: a', y :: b' => if (x =? y)%N then S (common_prefix a' b') else 0
  | _, _ => 0
  end.

(** [find_longest_match]: [(i, j, k)] with [a[i:i+k] == b[j:j+k]] and [k]
    maximal; among the longest blocks the one that starts earliest in [a],
    then earliest in [b]. *)
Definition longest_step (a b : str) (i : nat) (best : nat * nat * nat) (j : nat)
  : nat * nat * nat :=
  let k := common_prefix (skipn i a) (skipn j b) in
  if snd best <? k then (i, j, k) else best.

Definition longest_row (a b : str) (best : nat * nat * nat) (i : nat)
  : nat * nat * nat :=
  fold_left (longest_step a b i) (seq 0 (length b)) best.

Definition find_longest_match (a b : str) : nat * nat * nat :=
  fold_left (longest_row a b) (seq 0 (length a)) (0, 0, 0).

(** Total size of the matching blocks. *)
Fixpoint matches (fuel : nat) (a b : str) : nat :=
  match fuel with
  | 0 => 0
  | S fuel' =>
      let '(i, j, k) := find_longest_match a b in
      if k =? 0 then 0
      else k + matches fuel' (firstn i a) (firstn j b)
             + matches fuel' (skipn (i + k) a) (skipn (j + k) b)
  end.

Definition ratio (a b : str) : Q :=
  let total := length a + length b in
  if total =? 0 then 1%Q
  else (2 * Z.of_nat (matches (S (length a)) a b) # Pos.of_nat total)%Q.

End Difflib.

(** ** [src/processors/matching.py] *)

Module Matching.
Import PyStr.

Definition normalize_text (s : str) : str :=
  strip (replace 13 32 (replace 10 32 (replace 12288 32 (replace 65306 58 s)))).

(** One character of [page.chars]; [c_text] is the value under the key
    [text], the empty string when the key is absent. *)
Record PChar := mkChar {
  c_text : str;
  c_x0 : Q;
  c_x1 : Q;
  c_top : Q;
  c_bottom : Q
}.

(** The texts [texts[i : i + n]] joined into one string. *)
Definition window_text (texts : list str) (i n : nat) : str :=
  concat (firstn n (skipn i texts)).

Section WithRatio.

Variable ratio : str -> str -> Q.

Definition scan_step (norm_keyword : str) (texts : list str)
    (best : Q * option (nat * nat)) (i : nat) : Q * option (nat * nat) :=
  let target_len := length norm_keyword in
  let window := window_text texts i target_len in
  let score := ratio norm_keyword window in
  if Qgtb score (fst best) then (score, Some (i, i + target_len)) else best.

Definition best_fuzzy_window (chars : list PChar) (keyword : str) (threshold : Q)
  : option (nat * nat) :=
  let norm_keyword := normalize_text keyword in
  let target_len := length norm_keyword in
  if (target_len =? 0) || (length chars =? 0) then None
  else
    let texts := map (fun c => normalize_text (c_text c)) chars in
    let best :=
      fold_left (scan_step norm_keyword texts)
        (seq 0 (length texts + 1 - target_len)) (0%Q, None) in
    match snd best with
    | Some w => if Qgeb (fst best) threshold then Some w else None
    | None => None
    end.

End WithRatio.

(** [None] stands for the [IndexError] of an index outside [chars] and for
    the [ValueError] of [min] and [max] on an empty list. *)
Definition bbox_of_chars (chars : list PChar) (start end_ : nat)
  : option Coords.Rect :=
  cs ← mapM (fun i => chars !! i) (seq start (end_ - start));
  x0 ← py_min_list (map c_x0 cs);
  top ← py_min_list (map c_top cs);
  x1 ← py_max_list (map c_x1 cs);
  bottom ← py_max_list (map c_bottom cs);
  Some (x0, top, x1, bottom).

End Matching.

(** ** [src/processors/layout.py] *)

Module Layout.
Import PyStr.

Section WithMetrics.

(** [pdfmetrics.stringWidth(text, font_name, font_size)]; [None] when the
    call raises. *)
Variable stringWidth : str -> str -> Q -> option Q.

(** The width [w] computed for a candidate line by the [try] block. *)
Definition trial_width (font_name : str) (font_size : Q) (trial : str) : Q :=
  match stringWidth trial font_name font_size with
  | Some w => w
  | None => (inject_Z (Z.of_nat (length trial)) * font_size * (6 # 10))%Q
  end.

Definition wrap_step (font_name : str) (font_size max_width : Q)
    (st : list str * str) (ch : N) : list str * str :=
  let '(wrapped, current) := st in
  let trial := current ++ [ch] in
  let w := trial_width font_name font_size trial in
  if Qle_bool w max_width || is_empty current then (wrapped, trial)
  else (wrapped ++ [current], [ch]).

Definition wrap_raw (font_name : str) (font_size max_width : Q)
    (wrapped : list str) (raw : str) : list str :=
  let '(wrapped, current) :=
    fold_left (wrap_step font_name font_size max_width) raw (wrapped, []) in
  wrapped ++ [current].

Definition wrap_text_lines (font_name : str) (font_size : Q)
    (text : option str) (max_width : option Q) : list str :=
  match text with
  | None => []
  | Some text =>
      let raw_lines :=
        match splitlines text with [] => [[]] | ls => ls end in
      match max_width with
      | None => raw_lines
      | Some mw =>
          if Qle_bool mw 0 then raw_lines
          else fold_left (wrap_raw font_name font_size mw) raw_lines []
      end
  end.

End WithMetrics.

End Layout.

(** ** [src/components/page.py] *)

Module Page.
Import PyStr.

(** [range(lo, hi)] on integers. *)
Definition z_range (lo hi : Z) : list Z :=
  map (fun k => (lo + Z.of_nat k)%Z) (seq 0 (Z.to_nat (hi - lo))).

Section WithBuiltins.

(** [str.lower] and [int]; [None] is a [ValueError]. *)
Variable py_lower : str -> str.
Variable py_int : str -> option Z.

Definition _add (one_based : bool) (total_pages : Z) (result : list Z) (idx : Z)
  : list Z :=
  let idx := if one_based then (idx - 1)%Z else idx in
  if (idx <? 0)%Z || (idx >=? total_pages)%Z then result
  else result ++ [idx].

Definition parse_part (one_based : bool) (total_pages : Z)
    (result : list Z) (part : str) : list Z :=
  let part := strip part in
  if is_empty part then result
  else if contains 45 part then
    let '(start_s, end_s) := split_once 45 part in
    match py_int start_s, py_int end_s with
    | Some start_i, Some end_i =>
        let '(start_i, end_i) :=
          if (start_i >? end_i)%Z then (end_i, start_i) else (start_i, end_i) in
        fold_left (_add one_based total_pages)
          (z_range start_i (end_i + 1)) result
    | _, _ => result
    end
  else
    match py_int part with
    | Some i => _add one_based total_pages result i
    | None => result
    end.

Definition parse_page_selection (selection : str) (total_pages : Z)
    (one_based : bool) : list Z :=
  if is_empty selection then []
  else
    let sel := py_lower (strip selection) in
    if str_eqb sel (lit "all") then z_range 0 total_pages
    else
      let result :=
        fold_left (parse_part one_based total_pages) (split 44 sel) [] in
      merge_sort Z.le (remove_dups result).

End WithBuiltins.

End Page.

(** ** Records of [src/pdf_processor.py] and the document *)

Module Data.

Record KeywordHit := mkHit {
  page_index : Z;
  bbox_pdfplumber : Coords.Rect;
  anchor_reportlab : Q * Q
}.

Record DrawText := mkDraw {
  dt_text : str;
  dt_x : Q;
  dt_y : Q;
  dt_max_width : option Q;
  dt_line_spacing : option Q
}.

(** One page as [pdfplumber] shows it, and a document as its pages. *)
Record PdfPage := mkPage {
  pg_width : Q;
  pg_height : Q;
  pg_chars : list Matching.PChar
}.

(** An entry of [per_key_overrides]; an absent key of the dict is [None]. *)
Record Override := mkOverride {
  ov_page : option Z;
  ov_offset_x : option Q;
  ov_offset_y : option Q;
  ov_max_width : option Q;
  ov_line_spacing : option Q;
  ov_aliases : option (list str)
}.

Definition no_override : Override := mkOverride None None None None None None.

(** A call either returns or raises. *)
Inductive outcome (A : Type) : Type :=
  | Returned (a : A)
  | Raised.
Arguments Returned {A} a.
Arguments Raised {A}.

(** A path as the file system answers about it. *)
Record FontPath := mkFontPath {
  fp_name : str;
  fp_exists : bool;
  fp_suffix_lower : str
}.

End Data.

(** ** [src/processors/engines/reportlab.py] *)

Module Reportlab.
Import PyStr Data.

(** The canvas calls of [build_text_layer], in order. *)
Inductive Op : Type :=
  | OpSetFillColorRGB (r g b : Q)
  | OpSetPageSize (w h : Q)
  | OpSetFont (font_name : str) (size : Q)
  | OpDrawString (x y : Q) (line : str)
  | OpShowPage
  | OpSave.

Section WithMetrics.

Variable stringWidth : str -> str -> Q -> option Q.

(** The font names [pdfmetrics] knows: [c.setFont] completes for these and
    raises for every other name. *)
Variable font_registered : str -> bool.

(** Whether the overlay file can be written: [ensure_parent_writable] and
    [c.save] complete. *)
Variable overlay_writable : bool.

Definition draw_line (w h : Q) (style_font_size : Q) (use_clamp : bool)
    (clamp_margin : Q) (font_name : str) (item_x : Q)
    (st : list Op * Q) (spacing : Q) (line : str) : list Op * Q :=
  let '(ops, current_y) := st in
  let '(draw_x, draw_y) :=
    if use_clamp then
      let '(clamped_x, clamped_y) :=
        Coords.clamp_baseline item_x current_y w h style_font_size
          clamp_margin in
      let line_w :=
        Layout.trial_width stringWidth font_name style_font_size line in
      let max_x := py_max clamp_margin (w - clamp_margin - line_w) in
      let final_x := py_min (py_max clamp_margin clamped_x) max_x in
      (final_x, clamped_y)
    else (item_x, current_y) in
  (ops ++ [OpDrawString draw_x draw_y line], (current_y - spacing)%Q).

(** The calls of one item once its [c.setFont] has completed. *)
Definition draw_item (w h : Q) (style_font_size style_line_spacing : Q)
    (use_clamp : bool) (clamp_margin : Q) (font_name : str)
    (ops : list Op) (item : DrawText) : list Op :=
  let ops := ops ++ [OpSetFont font_name style_font_size] in
  let lines :=
    Layout.wrap_text_lines stringWidth font_name style_font_size
      (Some (dt_text item)) (dt_max_width item) in
  let spacing := default style_line_spacing (dt_line_spacing item) in
  fst (fold_left
         (fun st line =>
            draw_line w h style_font_size use_clamp clamp_margin font_name
              (dt_x item) st spacing line)
         lines (ops, dt_y item)).

(** One turn of the loop over the items of a page: [c.setFont] raises for
    a font name that is not registered, and the exception leaves
    [build_text_layer]. *)
Definition set_font_and_draw (w h : Q)
    (style_font_size style_line_spacing : Q) (use_clamp : bool)
    (clamp_margin : Q) (font_name : str)
    (st : outcome (list Op)) (item : DrawText) : outcome (list Op) :=
  match st with
  | Raised => Raised
  | Returned ops =>
      if font_registered font_name
      then Returned (draw_item w h style_font_size style_line_spacing
                       use_clamp clamp_margin font_name ops item)
      else Raised
  end.

Definition draw_page (draw_plan : gmap Z (list DrawText))
    (style_font_size style_line_spacing : Q) (use_clamp : bool)
    (clamp_margin : Q) (font_name : str)
    (st : outcome (list Op)) (indexed : nat * (Q * Q)) : outcome (list Op) :=
  match st with
  | Raised => Raised
  | Returned ops =>
      let '(page_index, (w, h)) := indexed in
      match
        fold_left
          (set_font_and_draw w h style_font_size style_line_spacing
             use_clamp clamp_margin font_name)
          (default [] (draw_plan !! Z.of_nat page_index))
          (Returned (ops ++ [OpSetPageSize w h]))
      with
      | Raised => Raised
      | Returned ops => Returned (ops ++ [OpShowPage])
      end
  end.

(** [build_text_layer]: the canvas calls of the overlay that is saved, or
    [Raised] when [c.setFont] raises or the overlay file cannot be written;
    no overlay is saved then. *)
Definition build_text_layer (page_sizes : list (Q * Q))
    (draw_plan : gmap Z (list DrawText)) (font_name : str)
    (style_text_color_rgb : Z * Z * Z)
    (style_font_size style_line_spacing : Q) (use_clamp : bool)
    (clamp_margin : Q) : outcome (list Op) :=
  let '(r, g, b) := style_text_color_rgb in
  let ops :=
    [OpSetFillColorRGB (inject_Z r / 255) (inject_Z g / 255)
       (inject_Z b / 255)] in
  match
    fold_left
      (draw_page draw_plan style_font_size style_line_spacing use_clamp
         clamp_margin font_name)
      (combine (seq 0 (length page_sizes)) page_sizes) (Returned ops)
  with
  | Raised => Raised
  | Returned ops =>
      if overlay_writable then Returned (ops ++ [OpSave]) else Raised
  end.

End WithMetrics.

Section Merge.

(** The page objects of PyPDF2 and [base_page.merge_page(overlay_page)]. *)
Variable PageObject : Type.
Variable merge_page : PageObject -> PageObject -> PageObject.

(** The pages handed to the writer. *)
Definition merge_pdfs (base overlay : list PageObject) : list PageObject :=
  imap (fun i page =>
          match overlay !! i with
          | Some overlay_page => merge_page page overlay_page
          | None => page
          end) base.

End Merge.

End Reportlab.

(** ** [src/processors/engines/pymupdf.py] *)

Module Engines.
Import PyStr Data.

(** What the PDF libraries answer during one call: whether [fitz.open] and
    [insert_font] complete, whether the files of the overlay path are
    written (the canvas is saved and [merge_pdfs] completes), whether the
    direct drawing ([insert_text] then [save]) completes, and the font
    names registered with ReportLab, for which [c.setFont] completes. *)
Record Oracle := mkOracle {
  fitz_open_ok : bool;
  insert_font_ok : bool;
  overlay_ok : bool;
  draw_ok : bool;
  raster_ok : bool;
  font_registered : str -> bool
}.

(** The drawing primitives a call issues, in order. *)
Inductive Action : Type :=
  | ActInsertFont (fontname file : str)
  | ActBuildTextLayer (font_name : str)
  | ActMergePdfs
  | ActInsertText (page : nat) (x y : Q) (line fontname : str)
  | ActSave
  | ActRaster.

Definition usable_font (f : FontPath) : bool :=
  fp_exists f
  && (str_eqb (fp_suffix_lower f) (lit ".ttf")
      || str_eqb (fp_suffix_lower f) (lit ".otf")).

Section WithMetrics.

Variable stringWidth : str -> str -> Q -> option Q.

(** The lines of one item on the direct path, each with its final
    position; [current_y] moves down by [spacing] after every line. *)
Definition place_line (page : nat) (page_width page_height : Q)
    (style_font_size : Q) (use_clamp : bool) (clamp_margin : Q)
    (preferred_fontname : str) (item_x : Q)
    (st : list Action * Q) (spacing : Q) (line : str) : list Action * Q :=
  let '(acts, current_y) := st in
  let '(draw_x, draw_y_baseline) :=
    if use_clamp then
      let '(clamped_x, clamped_y) :=
        Coords.clamp_baseline item_x current_y page_width page_height
          style_font_size clamp_margin in
      let line_w :=
        Layout.trial_width stringWidth preferred_fontname style_font_size line in
      let max_x := py_max clamp_margin (page_width - clamp_margin - line_w) in
      let final_x := py_min (py_max clamp_margin clamped_x) max_x in
      (final_x, (page_height - clamped_y)%Q)
    else (item_x, (page_height - current_y)%Q) in
  (acts ++ [ActInsertText page draw_x draw_y_baseline line preferred_fontname],
   (current_y - spacing)%Q).

Definition place_item (page : nat) (page_width page_height : Q)
    (style_font_size style_line_spacing : Q) (use_clamp : bool)
    (clamp_margin : Q) (preferred_fontname : str)
    (acts : list Action) (item : DrawText) : list Action :=
  let lines :=
    Layout.wrap_text_lines stringWidth preferred_fontname style_font_size
      (Some (dt_text item)) (dt_max_width item) in
  let spacing := default style_line_spacing (dt_line_spacing item) in
  fst (fold_left
         (fun st line =>
            place_line page page_width page_height style_font_size use_clamp
              clamp_margin preferred_fontname (dt_x item) st spacing line)
         lines (acts, dt_y item)).

Definition place_page (draw_plan : gmap Z (list DrawText))
    (style_font_size style_line_spacing : Q) (use_clamp : bool)
    (clamp_margin : Q) (preferred_fontname : str)
    (acts : list Action) (indexed : nat * (Q * Q)) : list Action :=
  let '(page, (w, h)) := indexed in
  fold_left
    (place_item page w h style_font_size style_line_spacing use_clamp
       clamp_margin preferred_fontname)
    (default [] (draw_plan !! Z.of_nat page)) acts.

(** [fill_with_pymupdf]: the actions issued and [(engine_used, font_info)],
    or [Raised] for the [RuntimeError] that wraps any failure.  On the
    overlay path [build_text_layer] is called with [preferred_fontname]
    as its font name, so it raises as soon as an item is to be drawn with a
    name ReportLab does not know. *)
Definition fill_with_pymupdf (o : Oracle) (page_sizes : list (Q * Q))
    (draw_plan : gmap Z (list DrawText))
    (style_text_color_rgb : Z * Z * Z)
    (style_font_size style_line_spacing : Q) (use_clamp : bool)
    (clamp_margin : Q) (font_file : option FontPath)
    (preferred_fontname : str) : list Action * outcome (str * str) :=
  if negb (fitz_open_ok o) then ([], Raised)
  else
    let font_info :=
      match font_file with
      | Some f => fp_name f
      | None => preferred_fontname
      end in
    let '(acts, fontname_to_use) :=
      match font_file with
      | Some f =>
          if usable_font f then
            if insert_font_ok o
            then ([ActInsertFont preferred_fontname (fp_name f)],
                  Some preferred_fontname)
            else ([ActInsertFont preferred_fontname (fp_name f)], None)
          else ([], None)
      | None => ([], None)
      end in
    match fontname_to_use with
    | None =>
        match
          Reportlab.build_text_layer stringWidth (font_registered o)
            (overlay_ok o) page_sizes draw_plan preferred_fontname
            style_text_color_rgb style_font_size style_line_spacing use_clamp
            clamp_margin
        with
        | Raised => (acts ++ [ActBuildTextLayer preferred_fontname], Raised)
        | Returned _ =>
            if overlay_ok o then
              (acts ++ [ActBuildTextLayer preferred_fontname; ActMergePdfs],
               Returned (lit "reportlab", font_info))
            else (acts ++ [ActBuildTextLayer preferred_fontname], Raised)
        end
    | Some _ =>
        let acts :=
          fold_left
            (place_page draw_plan style_font_size style_line_spacing
               use_clamp clamp_margin preferred_fontname)
            (combine (seq 0 (length page_sizes)) page_sizes) acts in
        if draw_ok o then (acts ++ [ActSave], Returned (lit "pymupdf", font_info))
        else (acts, Raised)
    end.

End WithMetrics.

End Engines.

(** ** [src/pdf_processor.py] *)

Module Processor.
Import PyStr Data.
Import Matching (PChar, best_fuzzy_window, bbox_of_chars).

Definition _to_reportlab_xy (x y_top_based page_height : Q) : Q * Q :=
  (x, (page_height - y_top_based)%Q).

(** The draw plan and the statistics built by [fill_by_keywords]. *)
Record PlanState := mkPlan {
  draw_plan : gmap Z (list DrawText);
  total_considered : nat;
  matched_keys : list str;
  missing_keys : list str
}.

Definition empty_plan : PlanState := mkPlan ∅ 0 [] [].

(** Number of [DrawText] items over all pages of a plan. *)
Definition plan_items (m : gmap Z (list DrawText)) : nat :=
  map_fold (fun _ items n => length items + n) 0 m.

Section WithCollaborators.

Variable ratio : str -> str -> Q.
Variable py_lower : str -> str.
Variable py_int : str -> option Z.

Definition find_keyword_coordinates (pdf : list PdfPage) (keyword : str)
    (page_index : Z) (fuzzy_threshold : Q) : outcome (option KeywordHit) :=
  if (page_index <? 0)%Z || (page_index >=? Z.of_nat (length pdf))%Z
  then Returned None
  else
    match pdf !! Z.to_nat page_index with
    | None => Raised
    | Some page =>
        let chars := pg_chars page in
        match best_fuzzy_window ratio chars keyword fuzzy_threshold with
        | None => Returned None
        | Some (start, end_) =>
            match bbox_of_chars chars start end_ with
            | None => Raised
            | Some bbox =>
                let page_height := pg_height page in
                let anchor_right :=
                  Coords.right_of_bbox_baseline bbox
                    STYLE_OFFSET_X_DEFAULT STYLE_OFFSET_Y_DEFAULT in
                let anchor_rl :=
                  _to_reportlab_xy (fst anchor_right) (snd anchor_right)
                    page_height in
                Returned (Some (mkHit page_index bbox anchor_rl))
            end
        end
    end.

(** [k in per_key_overrides] and [per_key_overrides.get(k)]. *)
Definition lookup_override (per_key_overrides : list (str * Override)) (k : str)
  : option Override :=
  snd <$> List.find (fun e => str_eqb k (fst e)) per_key_overrides.

Definition alias_hit (k_aliases : list str) (e : str * Override) : bool :=
  match ov_aliases (snd e) with
  | Some aliases => existsb (fun ka => str_in ka aliases) k_aliases
  | None => false
  end.

Definition _resolve_override_for_key (per_key_overrides : list (str * Override))
    (k : str) : option str * Override :=
  match lookup_override per_key_overrides k with
  | Some cfg => (Some k, cfg)
  | None =>
      let k_aliases := Text.split_aliases k in
      match List.find (alias_hit k_aliases) per_key_overrides with
      | Some (canon, cfg) => (Some canon, cfg)
      | None => (None, no_override)
      end
  end.

(** The candidate keywords of one key: its own aliases, the configured
    aliases and the canonical name, without repetition. *)
Definition candidates_of (key : str) (canon_key : option str) (ov : Override)
  : list str :=
  let candidates := Text.split_aliases key in
  let candidates :=
    match ov_aliases ov with
    | Some aliases_from_cfg =>
        fold_left (fun cs a => if str_in a cs then cs else cs ++ [a])
          aliases_from_cfg candidates
    | None => candidates
    end in
  match canon_key with
  | Some ck =>
      if negb (is_empty ck) && negb (str_in ck candidates)
      then candidates ++ [ck] else candidates
  | None => candidates
  end.

(** [for cand in candidates: hit = find(...); if hit: break] *)
Fixpoint search_on_page (pdf : list PdfPage) (thr : Q) (p : Z)
    (candidates : list str) : outcome (option KeywordHit) :=
  match candidates with
  | [] => Returned None
  | cand :: rest =>
      match find_keyword_coordinates pdf cand p thr with
      | Raised => Raised
      | Returned (Some hit) => Returned (Some hit)
      | Returned None => search_on_page pdf thr p rest
      end
  end.

(** The two nested loops over [candidate_pages] and [candidates]; a hit
    comes with the page it was found on. *)
Fixpoint search_pages (pdf : list PdfPage) (thr : Q) (candidate_pages : list Z)
    (candidates : list str) : outcome (option (Z * KeywordHit)) :=
  match candidate_pages with
  | [] => Returned None
  | p :: rest =>
      match search_on_page pdf thr p candidates with
      | Raised => Raised
      | Returned (Some hit) => Returned (Some (p, hit))
      | Returned None => search_pages pdf thr rest candidates
      end
  end.

(** [draw_plan.setdefault(page_index, []).append(item)] *)
Definition plan_append (m : gmap Z (list DrawText)) (page_index : Z)
    (item : DrawText) : gmap Z (list DrawText) :=
  <[page_index := default [] (m !! page_index) ++ [item]]> m.

(** The pages searched for a key that has no page of its own. *)
Definition candidate_pages_of (selected_pages_global : option (list Z))
    (page_index : Z) : list Z :=
  match selected_pages_global with
  | Some pages => pages
  | None => [page_index]
  end.

(** One iteration of the loop over [keyword_to_value.items()]. *)
Definition fill_key (pdf : list PdfPage)
    (per_key_overrides : list (str * Override))
    (selected_pages_global : option (list Z)) (thr : Q)
    (st : PlanState) (kv : str * str) : outcome PlanState :=
  let '(key, value) := kv in
  if is_empty value then Returned st
  else
    let total := S (total_considered st) in
    let '(canon_key, ov) := _resolve_override_for_key per_key_overrides key in
    let page_index := default CONST_PAGE_INDEX_DEFAULT (ov_page ov) in
    let offset_x := default STYLE_OFFSET_X_DEFAULT (ov_offset_x ov) in
    let offset_y := default STYLE_OFFSET_Y_DEFAULT (ov_offset_y ov) in
    let max_width := ov_max_width ov in
    let line_spacing := ov_line_spacing ov in
    let candidates := candidates_of key canon_key ov in
    let found :=
      match ov_page ov with
      | Some _ =>
          match search_on_page pdf thr page_index candidates with
          | Raised => Raised
          | Returned hit => Returned (pair page_index <$> hit)
          end
      | None =>
          search_pages pdf thr
            (candidate_pages_of selected_pages_global page_index) candidates
      end in
    match found with
    | Raised => Raised
    | Returned None =>
        Returned (mkPlan (draw_plan st) total (matched_keys st)
                    (missing_keys st ++ [key]))
    | Returned (Some (page_index, hit)) =>
        let '(x_final, y_final) :=
          Coords.adjust_coords (fst (anchor_reportlab hit))
            (snd (anchor_reportlab hit))
            (offset_x - STYLE_OFFSET_X_DEFAULT)
            (offset_y - STYLE_OFFSET_Y_DEFAULT) in
        Returned
          (mkPlan
             (plan_append (draw_plan st) page_index
                (mkDraw value x_final y_final max_width line_spacing))
             total (matched_keys st ++ [key]) (missing_keys st))
    end.

Fixpoint fill_loop (pdf : list PdfPage)
    (per_key_overrides : list (str * Override))
    (selected_pages_global : option (list Z)) (thr : Q)
    (st : PlanState) (items : list (str * str)) : outcome PlanState :=
  match items with
  | [] => Returned st
  | kv :: rest =>
      match fill_key pdf per_key_overrides selected_pages_global thr st kv with
      | Raised => Raised
      | Returned st' =>
          fill_loop pdf per_key_overrides selected_pages_global thr st' rest
      end
  end.

(** The global page selection: only when [pages] is a non-empty string; an
    empty parse falls back to every page. *)
Definition selected_pages (pages : option str) (total_pages : Z)
  : option (list Z) :=
  match pages with
  | Some s =>
      if is_empty s then None
      else
        let selected :=
          Page.parse_page_selection py_lower py_int s total_pages true in
        Some (match selected with
              | [] => Page.z_range 0 total_pages
              | _ => selected
              end)
  | None => None
  end.

(** [fill_by_keywords] up to the statistics: the draw plan and the lists of
    matched and missing keys that the call hands to the rendering engine
    and to [last_fill_stats]. *)
Definition fill_by_keywords (pdf : list PdfPage)
    (keyword_to_value : list (str * str))
    (per_key_overrides : list (str * Override))
    (pages : option str) (fuzzy_threshold : option Q) : outcome PlanState :=
  let total_pages := Z.of_nat (length pdf) in
  let selected_pages_global := selected_pages pages total_pages in
  let _fuzzy_thr := default CONST_FUZZY_MATCH_THRESHOLD fuzzy_threshold in
  fill_loop pdf per_key_overrides selected_pages_global _fuzzy_thr
    empty_plan keyword_to_value.

End WithCollaborators.

(** *** Engine selection of the direct-embed path *)

Definition STYLE_FONT_NAME_CJK_PREFERRED : str := lit "SimSun".
Definition STYLE_FONT_SIZE_DEFAULT : Q := 12.
Definition STYLE_LINE_SPACING : Q := 14.
Definition STYLE_TEXT_COLOR_RGB : Z * Z * Z := (0, 0, 0)%Z.

(** The fields of the processor that a fill updates. *)
Record ProcessorState := mkProc {
  last_engine_used : option str;
  last_font_info : option str
}.

(** The font file handed to the engine: [PATH_FONT_FILE] when it exists with
    a [.ttf] or [.otf] suffix, else the first such candidate path. *)
Definition select_font_file (PATH_FONT_FILE : option FontPath)
    (CONST_CANDIDATE_CJK_FONT_PATHS : list FontPath) : option FontPath :=
  match PATH_FONT_FILE with
  | Some f =>
      if Engines.usable_font f then Some f
      else List.find Engines.usable_font CONST_CANDIDATE_CJK_FONT_PATHS
  | None => List.find Engines.usable_font CONST_CANDIDATE_CJK_FONT_PATHS
  end.

Definition preferred_fontname : str :=
  let name := strip (if is_empty STYLE_FONT_NAME_CJK_PREFERRED
                     then lit "SimHei" else STYLE_FONT_NAME_CJK_PREFERRED) in
  if is_empty name then lit "SimHei" else name.

Definition _fill_with_pymupdf (stringWidth : str -> str -> Q -> option Q)
    (o : Engines.Oracle)
    (PATH_FONT_FILE : option FontPath)
    (CONST_CANDIDATE_CJK_FONT_PATHS : list FontPath)
    (page_sizes : list (Q * Q)) (draw_plan : gmap Z (list DrawText))
    (use_clamp : bool) (clamp_margin : Q) (self : ProcessorState)
  : list Engines.Action * outcome ProcessorState :=
  let font_file :=
    select_font_file PATH_FONT_FILE CONST_CANDIDATE_CJK_FONT_PATHS in
  match Engines.fill_with_pymupdf stringWidth o page_sizes draw_plan
          STYLE_TEXT_COLOR_RGB STYLE_FONT_SIZE_DEFAULT STYLE_LINE_SPACING
          use_clamp clamp_margin font_file preferred_fontname with
  | (acts, Returned (engine_used, font_info)) =>
      (acts, Returned (mkProc (Some engine_used) (Some font_info)))
  | (acts, Raised) => (acts, Raised)
  end.

End Processor.

(** ** Statements of the specification, in its own words *)

Module Spec.
Import PyStr Data Matching.

(** §8 on [clamp_baseline], for one input: [x] lands in
    [[margin, page_width - margin]] and, when
    [margin + descent <= page_height - margin - ascent], [y] lands in
    [[margin + descent, page_height - margin - ascent]], with
    [ascent = font_size * 0.8] and [descent = font_size * 0.2]. *)
Definition clamp_bounds_stated (x y_baseline page_width page_height font_size margin : Q)
  : Prop :=
  let ascent := (font_size * (8 # 10))%Q in
  let descent := (font_size * (2 # 10))%Q in
  let '(x', y') :=
    Coords.clamp_baseline x y_baseline page_width page_height font_size margin in
  (margin <= x' <= page_width - margin)%Q
  /\ ((margin + descent <= page_height - margin - ascent)%Q ->
      (margin + descent <= y' <= page_height - margin - ascent)%Q).

(** §4.7 on the width used when the metrics are unavailable:
    [font_size * 0.6] for each ASCII character and [font_size * 1.0] for each
    other character, which is [estimate_text_width] with ratio [0.6]. *)
Definition fallback_width_stated (font_name : str) (font_size : Q) (trial : str)
  : Prop :=
  (Layout.trial_width (fun _ _ _ => None) font_name font_size trial
   == Text.estimate_text_width trial font_size (6 # 10))%Q.

(** The same sentence read on [wrap_text_lines] as a whole: with the
    metrics unavailable a text is wrapped as it would be with
    [estimate_text_width] at ratio [0.6] for a metric. *)
Definition fallback_wrap_stated (font_name : str) (font_size : Q) (text : str)
    (max_width : Q) : Prop :=
  Layout.wrap_text_lines (fun _ _ _ => None) font_name font_size (Some text)
    (Some max_width)
  = Layout.wrap_text_lines
      (fun trial _ size => Some (Text.estimate_text_width trial size (6 # 10)))
      font_name font_size (Some text) (Some max_width).



(** The characters of [keyword] appear verbatim and contiguously in [chars],
    one page character each, from index [i] on. *)
Definition verbatim_at (chars : list PChar) (keyword : str) (i : nat) : Prop :=
  map c_text (firstn (length keyword) (skipn i chars))
  = map (fun c => [c]) keyword.

(** The per-character normalised texts of a page. *)
Definition page_texts (chars : list PChar) : list str :=
  map (fun c => normalize_text (c_text c)) chars.

(** §8 on [find_keyword], for one page, keyword and threshold: a keyword
    present verbatim is hit, and the text of the returned window is the
    normalised keyword. *)
Definition verbatim_hit_stated (ratio : str -> str -> Q)
    (chars : list PChar) (keyword : str) (threshold : Q) : Prop :=
  (exists i, verbatim_at chars keyword i) ->
  (threshold <= 1)%Q ->
  exists s e,
    best_fuzzy_window ratio chars keyword threshold = Some (s, e)
    /\ window_text (page_texts chars) s (e - s) = normalize_text keyword.

(** The keywords of a list that [best_fuzzy_window] matches at a threshold. *)
Definition matched_at (ratio : str -> str -> Q) (chars : list PChar)
    (threshold : Q) (keywords : list str) : list str :=
  List.filter
    (fun kw => bool_decide (is_Some (best_fuzzy_window ratio chars kw threshold)))
    keywords.

(** The input keys that carry a non-empty value, in input order. *)
Definition considered_keys (items : list (str * str)) : list str :=
  map fst (List.filter (fun kv => negb (is_empty (snd kv))) items).

(** Scenario A of §8 for one document, page, keyword and value: the page
    holds the keyword verbatim, from character [i] on, in a known box
    [(x0, top, x1, bottom)]; filling the keyword with a non-empty value at
    threshold 0.6 plans exactly one item, on that page, at
    [x = x1 + 50.0] and [y = page_height - bottom], with matched count 1
    and missing count 0. *)
Definition scenario_A_stated (ratio : str -> str -> Q)
    (py_lower : str -> str) (py_int : str -> option Z)
    (pdf : list PdfPage) (p : nat) (keyword value : str) : Prop :=
  forall (page : PdfPage) (i : nat) (x0 top x1 bottom : Q),
    pdf !! p = Some page ->
    verbatim_at (pg_chars page) keyword i ->
    bbox_of_chars (pg_chars page) i (i + length keyword)
      = Some (x0, top, x1, bottom) ->
    value <> [] ->
    exists st item,
      Processor.fill_by_keywords ratio py_lower py_int pdf
        [(keyword, value)] [] None (Some (6 # 10)) = Returned st
      /\ Processor.draw_plan st = {[ Z.of_nat p := [item] ]}
      /\ (dt_x item == x1 + 50)%Q
      /\ (dt_y item == pg_height page - bottom)%Q
      /\ length (Processor.matched_keys st) = 1
      /\ length (Processor.missing_keys st) = 0.

(** The contract §4.2 asks of the similarity ratio: at most [1], equal to
    [1] on two copies of a non-empty string, and [1] only on equal strings. *)
Record ratio_contract (ratio : str -> str -> Q) : Prop := {
  ratio_le_1 : forall a b, (ratio a b <= 1)%Q;
  ratio_same : forall a, a <> [] -> (ratio a a == 1)%Q;
  ratio_1_eq : forall a b, (ratio a b == 1)%Q -> a = b
}.

End Spec.

(** ** Notions used by the proofs *)

Module Invariants.
Import PyStr Matching.

(** A triple [(i, j, k)] names equal blocks inside [a] and [b]. *)
Definition block_ok (a b : str) (best : nat * nat * nat) : Prop :=
  let '(i, j, k) := best in
  i + k <= length a /\ j + k <= length b
  /\ firstn k (skipn i a) = firstn k (skipn j b).

(** What [normalize_text] does to one character before stripping. *)
Definition norm_char (c : N) : N :=
  let r old new c := if (c =? old)%N then new else c in
  r 13%N 32%N (r 10%N 32%N (r 12288%N 32%N (r 65306%N 58%N c))).

Section WithRatio.

Variable ratio : str -> str -> Q.

(** The scan of [best_fuzzy_window] before the threshold is applied. *)
Definition scan (keyword : str) (chars : list PChar) : Q * option (nat * nat) :=
  fold_left (scan_step ratio (normalize_text keyword) (Spec.page_texts chars))
    (seq 0 (length (Spec.page_texts chars) + 1
            - length (normalize_text keyword)))
    (0%Q, None).

Variables (K : str) (texts : list str).

(** Score of the window that starts at [j]. *)
Definition score (j : nat) : Q := ratio K (window_text texts j (length K)).

(** State of the scan once the windows before [a] have been scored: the
    best score bounds them all, and it belongs to the first window that
    reaches it. *)
Definition scan_inv (a : nat) (best : Q * option (nat * nat)) : Prop :=
  (forall j, j < a -> (score j <= fst best)%Q)
  /\ match snd best with
     | None => (fst best == 0)%Q
     | Some (s, e) =>
         e = s + length K /\ s < a /\ fst best = score s
         /\ forall j, j < s -> (score j < score s)%Q
     end.

End WithRatio.

End Invariants.

(** ** Concrete documents *)

Module Examples.
Import Data Matching.

(** The characters of one line of text: glyphs 12 pt wide and 12 pt high,
    set from [x0] on, their top edge at [top]. *)
Fixpoint line_chars (s : str) (x0 top : Q) : list PChar :=
  match s with
  | [] => []
  | c :: r =>
      mkChar [c] x0 (Qred (x0 + 12)) top (Qred (top + 12))
      :: line_chars r (Qred (x0 + 12)) top
  end.

(** The labels 身份证号： and 企业名称：, the near miss 企业名： and the two
    characters 测试, as code points. *)
Definition kw_id_number : str := [36523; 20221; 35777; 21495; 65306]%N.
Definition kw_company : str := [20225; 19994; 21517; 31216; 65306]%N.
Definition kw_company_short : str := [20225; 19994; 21517; 65306]%N.
Definition two_cjk : str := [27979; 35797]%N.

(** An A4 page with two labels, the company name above the id number. *)
Definition contract_page : PdfPage :=
  mkPage 595 842
    (line_chars kw_company 72 100 ++ line_chars kw_id_number 72 130).

(** The two-page document of [tests/test_page_range_param.py]. *)
Definition two_page_pdf : list PdfPage :=
  [ mkPage 595 842 (line_chars (lit "K1:") 72 30);
    mkPage 595 842 (line_chars (lit "K2:") 72 30) ].

(** A page that spells [A B] with a space character in between. *)
Definition spaced_page : PdfPage := mkPage 595 842 (line_chars (lit "A B") 72 100).

(** Pages for Scenario A: a label with four spaces inside, a label with
    the alias separator inside, a label printed twice, and a document
    whose label is on its second page. *)
Definition gap_page : PdfPage :=
  mkPage 595 842 (line_chars (lit "A    B") 72 100).
Definition alias_page : PdfPage :=
  mkPage 595 842 (line_chars (lit "X|Y") 72 100).
Definition twice_page : PdfPage :=
  mkPage 595 842 (line_chars (lit "K:K:") 72 100).
Definition later_page_pdf : list PdfPage :=
  [ mkPage 595 842 (line_chars (lit "QQQ") 72 30);
    mkPage 595 842 (line_chars (lit "K2:") 72 30) ].

(** What ReportLab knows when no CJK font file could be registered: its
    standard fonts and the built-in fallback, here [Helvetica] and
    [STSong-Light]. *)
Definition registered_without_font_file (name : str) : bool :=
  PyStr.str_in name [lit "Helvetica"; lit "STSong-Light"].

(** A plan with the item of Scenario A on the first page. *)
Definition one_item_plan : gmap Z (list DrawText) :=
  {[ 0%Z := [mkDraw (lit "123456789012345678") 182 700 None None] ]}.

End Examples.

(** ** Further notions used by the proofs *)

Module Shapes.
Import PyStr.

(** A string that does not start, or does not end, with white space. *)
Definition starts_clean (s : str) : Prop :=
  match s with
  | [] => True
  | c :: _ => is_space c = false
  end.

Definition ends_clean (s : str) : Prop := starts_clean (rev s).

(** The characters [normalize_text] replaces. *)
Definition is_replaced (c : N) : bool :=
  ((c =? 65306) || (c =? 12288) || (c =? 10) || (c =? 13))%N.

End Shapes.

(** The parts a keyword is cut into by [split_aliases], before cleaning. *)
Definition alias_parts (keyword : str) (sep : N) : list str :=
  if negb (PyStr.contains sep keyword) then [keyword]
  else PyStr.split sep keyword.

(** One cleaning step of [split_aliases]. *)
Definition alias_step (result : list str) (p : str) : list str :=
  let t := PyStr.strip p in
  if PyStr.is_empty t then result
  else if PyStr.str_in t result then result
  else result ++ [t].

(** ** [src/components/text.py], the greedy splitter *)

Module TextSplit.
Import PyStr.

(** The width [char_w] of one character. *)
Definition char_width (font_size char_width_ratio : Q) (char : N) : Q :=
  if (127 <? char)%N then font_size else (font_size * char_width_ratio)%Q.

Definition split_step (max_width font_size char_width_ratio : Q)
    (st : list str * str * Q) (char : N) : list str * str * Q :=
  let '(lines, current_line, current_width) := st in
  let char_w := char_width font_size char_width_ratio char in
  if Qle_bool (current_width + char_w) max_width
  then (lines, current_line ++ [char], (current_width + char_w)%Q)
  else ((if is_empty current_line then lines else lines ++ [current_line]),
        [char], char_w).

Definition split_text_by_width (text : str)
    (max_width font_size char_width_ratio : Q) : list str :=
  if is_empty text || Qle_bool max_width 0
  then (if is_empty text then [] else [text])
  else
    let '(lines, current_line, _) :=
      fold_left (split_step max_width font_size char_width_ratio) text
        ([], [], 0%Q) in
    let lines :=
      if is_empty current_line then lines else lines ++ [current_line] in
    match lines with
    | [] => [[]]
    | _ => lines
    end.

End TextSplit.

(** A line that is a single character at most, or fits the width. *)
Definition line_fits (width : str -> Q) (max_width : Q) (line : str) : Prop :=
  length line <= 1 \/ (width line <= max_width)%Q.

(** A string without line boundaries. *)
Definition no_linebreak (s : str) : Prop :=
  Forall (fun c => PyStr.is_linebreak c = false) s.

(** A page index of a document of [total_pages] pages. *)
Definition valid_page (total_pages p : Z) : Prop := (0 <= p < total_pages)%Z.

(** State of the loop of [split_text_by_width] after the characters
    [done]. *)
Definition split_inv (max_width font_size ratio : Q) (done : str)
    (st : list str * str * Q) : Prop :=
  let '(lines, current_line, current_width) := st in
  concat lines ++ current_line = done
  /\ Forall (fun l => l <> []) lines
  /\ (current_width == Text.estimate_text_width current_line font_size ratio)%Q
  /\ Forall
       (line_fits (fun l => Text.estimate_text_width l font_size ratio) max_width)
       lines
  /\ line_fits (fun l => Text.estimate_text_width l font_size ratio) max_width
       current_line.

(** A hit on page [p] of a document: the box of a window of that page, with
    the anchor to its right at the default offsets. *)
Definition hit_at (pdf : list Data.PdfPage) (p : Z) (hit : Data.KeywordHit)
  : Prop :=
  exists page s e x0 top x1 bottom,
    valid_page (Z.of_nat (length pdf)) p
    /\ pdf !! Z.to_nat p = Some page
    /\ Matching.bbox_of_chars (Data.pg_chars page) s e
       = Some (x0, top, x1, bottom)
    /\ hit = Data.mkHit p (x0, top, x1, bottom)
               ((x1 + 50)%Q, (Data.pg_height page - (bottom + 0))%Q).

(** A plan whose pages exist, whose item lists are not empty and whose
    items carry the non-empty value of a matched input key. *)
Definition plan_ok (pdf : list Data.PdfPage) (items : list (str * str))
    (st : Processor.PlanState) : Prop :=
  forall p drawn,
    Processor.draw_plan st !! p = Some drawn ->
    valid_page (Z.of_nat (length pdf)) p
    /\ drawn <> []
    /\ forall item, In item drawn ->
         Data.dt_text item <> []
         /\ exists key, In (key, Data.dt_text item) items
                        /\ In key (Processor.matched_keys st).

(** The canvas calls of one page of [build_text_layer] when every
    [c.setFont] completes. *)
Definition page_ops (stringWidth : str -> str -> Q -> option Q)
    (draw_plan : gmap Z (list Data.DrawText))
    (style_font_size style_line_spacing : Q) (use_clamp : bool)
    (clamp_margin : Q) (font_name : str)
    (ops : list Reportlab.Op) (indexed : nat * (Q * Q)) : list Reportlab.Op :=
  let '(page_index, (w, h)) := indexed in
  fold_left
    (Reportlab.draw_item stringWidth w h style_font_size style_line_spacing
       use_clamp clamp_margin font_name)
    (default [] (draw_plan !! Z.of_nat page_index))
    (ops ++ [Reportlab.OpSetPageSize w h])
  ++ [Reportlab.OpShowPage].

(** The pages an operation stream shows, and the lines it draws. *)
Definition shown_pages (ops : list Reportlab.Op) : nat :=
  length (List.filter (fun op => match op with
                                 | Reportlab.OpShowPage => true
                                 | _ => false
                                 end) ops).

Definition drawn_lines (ops : list Reportlab.Op) : list str :=
  omap (fun op => match op with
                  | Reportlab.OpDrawString _ _ line => Some line
                  | _ => None
                  end) ops.

(** The lines inserted by the direct path, each with its page. *)
Definition inserted_lines (acts : list Engines.Action) : list (nat * str) :=
  omap (fun a => match a with
                 | Engines.ActInsertText page _ _ line _ => Some (page, line)
                 | _ => None
                 end) acts.

(** The wrapped lines of the items planned for one page. *)
Definition planned_lines (stringWidth : str -> str -> Q -> option Q)
    (font_name : str) (font_size : Q) (draw_plan : gmap Z (list Data.DrawText))
    (page_index : nat) : list str :=
  concat (map (fun item =>
                 Layout.wrap_text_lines stringWidth font_name font_size
                   (Some (Data.dt_text item)) (Data.dt_max_width item))
            (default [] (draw_plan !! Z.of_nat page_index))).

(** A position drawn by both engines: the overlay keeps [y] bottom-up, the
    direct path mirrors it on the page height. *)
Definition as_draw (d : Q * Q * str) : Reportlab.Op :=
  let '(x, y, line) := d in Reportlab.OpDrawString x y line.

Definition as_insert (page : nat) (page_height : Q) (fontname : str)
    (d : Q * Q * str) : Engines.Action :=
  let '(x, y, line) := d in
  Engines.ActInsertText page x (page_height - y)%Q line fontname.

(** ** [src/processors/engines/raster.py] *)

Module Raster.
Import PyStr Data.

(** [int(x)] on a float: truncation toward zero. *)
Definition py_int_of_float (x : Q) : Z := Z.quot (Qnum x) (Zpos (Qden x)).

(** The font Pillow draws with. *)
Inductive Font : Type :=
  | Truetype (file : str) (size : Z)
  | DefaultFont.

(** What Pillow and PyMuPDF answer during one call: whether the import of
    Pillow, [fitz.open], [ImageFont.truetype] and [doc.save] complete, and
    the metrics of a font ([None] when [getmetrics] raises).  The other
    calls on images are taken to complete. *)
Record Pillow := mkPillow {
  import_ok : bool;
  fitz_open_ok : bool;
  truetype_ok : bool;
  getmetrics : Font -> option (Z * Z);
  save_ok : bool
}.

(** The calls issued, in order. *)
Inductive Action : Type :=
  | ActNewImage (page : nat) (width height : Z)
  | ActText (page : nat) (x_img y_img : Z) (line : str) (font : Font)
  | ActInsertImage (page : nat)
  | ActSave.

Section WithMetrics.

Variable stringWidth : str -> str -> Q -> option Q.

Definition raster_line (page : nat) (page_width page_height : Q)
    (style_font_size scale : Q) (use_clamp : bool) (clamp_margin : Q)
    (ascent : Z) (font : Font) (item_x : Q)
    (st : list Action * Q) (spacing : Q) (line : str) : list Action * Q :=
  let '(acts, current_y_baseline) := st in
  let '(x_img, y_img) :=
    if use_clamp then
      let '(clamped_x, clamped_y) :=
        Coords.clamp_baseline item_x current_y_baseline page_width
          page_height style_font_size clamp_margin in
      let line_w :=
        Layout.trial_width stringWidth (lit "Helvetica") style_font_size
          line in
      let max_x := py_max clamp_margin (page_width - clamp_margin - line_w) in
      let final_x := py_min (py_max clamp_margin clamped_x) max_x in
      (py_int_of_float (final_x * scale),
       py_int_of_float ((page_height - clamped_y) * scale - inject_Z ascent))
    else
      (py_int_of_float (item_x * scale),
       py_int_of_float ((page_height - current_y_baseline) * scale
                        - inject_Z ascent)) in
  (acts ++ [ActText page x_img y_img line font],
   (current_y_baseline - spacing)%Q).

Definition raster_item (page : nat) (page_width page_height : Q)
    (style_font_size style_line_spacing scale : Q) (use_clamp : bool)
    (clamp_margin : Q) (ascent : Z) (font : Font)
    (acts : list Action) (item : DrawText) : list Action :=
  let lines :=
    Layout.wrap_text_lines stringWidth (lit "Helvetica") style_font_size
      (Some (dt_text item)) (dt_max_width item) in
  let spacing := default style_line_spacing (dt_line_spacing item) in
  fst (fold_left
         (fun st line =>
            raster_line page page_width page_height style_font_size scale
              use_clamp clamp_margin ascent font (dt_x item) st spacing line)
         lines (acts, dt_y item)).

(** One turn of the loop over the pages.  The state holds the calls issued
    so far and the variable [font_info], which is unbound ([None]) until a
    page with items has been rendered. *)
Definition raster_page (o : Pillow) (draw_plan : gmap Z (list DrawText))
    (style_font_size style_line_spacing scale : Q) (use_clamp : bool)
    (clamp_margin : Q) (font_file : option FontPath)
    (st : list Action * option (option str)) (indexed : nat * (Q * Q))
  : list Action * option (option str) :=
  let '(acts, font_info) := st in
  let '(page_index, (w, h)) := indexed in
  let width_pt := py_int_of_float (w * scale) in
  let height_pt := py_int_of_float (h * scale) in
  match default [] (draw_plan !! Z.of_nat page_index) with
  | [] => (acts, font_info)
  | items =>
      let acts := acts ++ [ActNewImage page_index width_pt height_pt] in
      let '(font, info) :=
        match font_file with
        | Some f =>
            if Engines.usable_font f then
              if truetype_ok o
              then (Truetype (fp_name f)
                      (py_int_of_float (style_font_size * scale)),
                    Some (fp_name f))
              else (DefaultFont, None)
            else (DefaultFont, None)
        | None => (DefaultFont, None)
        end in
      let '(ascent, descent) :=
        match getmetrics o font with
        | Some m => m
        | None =>
            (py_int_of_float ((8 # 10) * style_font_size * scale),
             py_int_of_float ((2 # 10) * style_font_size * scale))
        end in
      let acts :=
        fold_left
          (raster_item page_index w h style_font_size style_line_spacing
             scale use_clamp clamp_margin ascent font)
          items acts in
      (acts ++ [ActInsertImage page_index], Some info)
  end.

(** [fill_with_raster]: the calls issued and [(engine_used, font_info)];
    [Raised] stands for any exception, among them the [UnboundLocalError]
    of the final [return] when [font_info] was never assigned. *)
Definition fill_with_raster (o : Pillow) (page_sizes : list (Q * Q))
    (draw_plan : gmap Z (list DrawText))
    (style_font_size style_line_spacing : Q) (raster_scale : option Q)
    (use_clamp : bool) (clamp_margin : Q) (font_file : option FontPath)
  : list Action * outcome (str * option str) :=
  if negb (import_ok o) then ([], Raised)
  else
    let scale :=
      match raster_scale with
      | Some s => if negb (Qeq_bool s 0) && Qgtb s 0 then s else 1%Q
      | None => 1%Q
      end in
    if negb (fitz_open_ok o) then ([], Raised)
    else
      let '(acts, font_info) :=
        fold_left
          (raster_page o draw_plan style_font_size style_line_spacing scale
             use_clamp clamp_margin font_file)
          (combine (seq 0 (length page_sizes)) page_sizes) ([], None) in
      if negb (save_ok o) then (acts, Raised)
      else
        match font_info with
        | None => (acts ++ [ActSave], Raised)
        | Some info => (acts ++ [ActSave], Returned (lit "raster", info))
        end.

End WithMetrics.

End Raster.

(** A page of the document for which the plan holds at least one item. *)
Definition page_has_items (draw_plan : gmap Z (list Data.DrawText))
    (total_pages : nat) (page_index : nat) : Prop :=
  (page_index < total_pages)%nat
  /\ default [] (draw_plan !! Z.of_nat page_index) <> [].

(** ** [src/components/__init__.py], the retry decorator *)

Module Retry.
Import Data.

(** What one call of the wrapped function does: it returns a value, raises
    an exception that is an instance of [exceptions], or raises another
    exception. *)
Inductive attempt (A : Type) : Type :=
  | Success (a : A)
  | Retryable
  | Fatal.
Arguments Success {A} a.
Arguments Retryable {A}.
Arguments Fatal {A}.

(** A finished run of the wrapper: its outcome, the number of calls of the
    wrapped function and the waits slept through, in order. *)
Record run (A : Type) : Type := mkRun {
  result : outcome A;
  calls : nat;
  sleeps : list Q
}.
Arguments mkRun {A} result calls sleeps.
Arguments result {A} r.
Arguments calls {A} r.
Arguments sleeps {A} r.

Section WithFunction.

Context {A : Type}.

(** The answer of the wrapped function at its [n]-th call, counted from 0. *)
Variable func : nat -> attempt A.
Variable retries : Z.
Variable backoff : Q.

(** The [while True] loop of [wrapper]; [None] when the fuel runs out.
    [time.sleep(wait)] raises [ValueError] for a negative [wait]; raised
    inside the [except] block, it leaves the wrapper. *)
Fixpoint wrapper_loop (fuel : nat) (attempt_no : nat) (wait : Q)
    (slept : list Q) : option (run A) :=
  match fuel with
  | O => None
  | S fuel' =>
      match func attempt_no with
      | Success a => Some (mkRun (Returned a) (S attempt_no) slept)
      | Fatal => Some (mkRun Raised (S attempt_no) slept)
      | Retryable =>
          if (Z.of_nat attempt_no >=? retries)%Z
          then Some (mkRun Raised (S attempt_no) slept)
          else if Qltb wait 0
          then Some (mkRun Raised (S attempt_no) slept)
          else wrapper_loop fuel' (S attempt_no) (wait * backoff)%Q
                 (slept ++ [wait])
      end
  end.

End WithFunction.

Definition retry_on_exception {A : Type} (retries : Z) (delay_s backoff : Q)
    (func : nat -> attempt A) : option (run A) :=
  wrapper_loop func retries backoff (S (Z.to_nat retries)) 0 delay_s [].

End Retry.

(** The waits of an exponential back-off: [n] waits starting at [wait],
    each [backoff] times the one before. *)
Fixpoint waits (wait backoff : Q) (n : nat) : list Q :=
  match n with
  | O => []
  | S n' => wait :: waits (wait * backoff)%Q backoff n'
  end.

(** ** [src/data_handler.py] *)

Module DataHandler.
Import PyStr Data.

(** [d[k] = v] on a dict kept in insertion order: an existing key keeps its
    place and takes the new value, a new key goes to the end. *)
Fixpoint dict_set {V : Type} (d : list (str * V)) (k : str) (v : V)
  : list (str * V) :=
  match d with
  | [] => [(k, v)]
  | (k', v') :: rest =>
      if str_eqb k k' then (k', v) :: rest
      else (k', v') :: dict_set rest k v
  end.

(** The loop of [sanitize_input_data]; a value [None] is Python's [None]. *)
Definition sanitize_input_data (raw : list (str * option str))
  : list (str * str) :=
  fold_left
    (fun cleaned kv =>
       match snd kv with
       | None => cleaned
       | Some v =>
           let vs := strip v in
           if is_empty vs then cleaned else dict_set cleaned (fst kv) vs
       end)
    raw [].

(** The key of the documentation entry of a configuration file. *)
Definition DOC_KEY : str := [31034; 20363; 37197; 32622; 35828; 26126]%N.

(** The canonical name and the alias list that [load_keywords_config]
    computes for one raw key. *)
Definition canonical_of (raw_key : str) : str :=
  match Text.split_aliases raw_key with
  | a :: _ => a
  | [] => strip raw_key
  end.

Definition alias_set_of (raw_key : str) : list str :=
  let aliases := Text.split_aliases raw_key in
  let canonical := canonical_of raw_key in
  let '(alias_set, seen) :=
    fold_left
      (fun st a =>
         let '(alias_set, seen) := st in
         if str_in a seen then (alias_set, seen)
         else (alias_set ++ [a], a :: seen))
      aliases ([], []) in
  if str_in canonical seen then alias_set else canonical :: alias_set.

(** The part of [load_keywords_config] after the JSON object [data] has
    been read: an entry whose value is not an object ([None]) counts as an
    empty configuration. *)
Definition load_keywords_config (data : list (str * option Override))
  : list (str * Override) :=
  let raw_items :=
    fold_left
      (fun d kv =>
         if str_eqb (fst kv) DOC_KEY then d
         else dict_set d (fst kv) (default no_override (snd kv)))
      data [] in
  fold_left
    (fun result kv =>
       let '(raw_key, cfg) := kv in
       let merged :=
         mkOverride (ov_page cfg) (ov_offset_x cfg) (ov_offset_y cfg)
           (ov_max_width cfg) (ov_line_spacing cfg)
           (Some (alias_set_of raw_key)) in
       dict_set result (canonical_of raw_key) merged)
    raw_items [].

End DataHandler.

(** The value kept for a raw input value, when one is kept. *)
Definition cleaned_value (kv : str * option str) : option (str * str) :=
  match snd kv with
  | None => None
  | Some v =>
      if PyStr.is_empty (PyStr.strip v) then None
      else Some (fst kv, PyStr.strip v)
  end.

(** The entries of a configuration object other than its documentation
    entry. *)
Definition config_items (data : list (str * option Data.Override))
  : list (str * option Data.Override) :=
  List.filter (fun kv => negb (PyStr.str_eqb (fst kv) DataHandler.DOC_KEY)) data.

(** ** [src/pdf_processor.py], the engines behind [fill_by_keywords] *)

Module Fill.
Import PyStr Data.

Definition CONST_MAX_RETRY : Z := 2.
Definition CONST_RASTER_SCALE : Q := 2.
Definition CONST_ENABLE_CLAMP_DEFAULT : bool := true.

(** [last_fill_stats]. *)
Record FillStats := mkStats {
  fs_total : nat;
  fs_matched : nat;
  fs_missing_count : nat;
  fs_missing : list str;
  fs_matched_keys : list str
}.

(** The attributes of a [PDFProcessor]. *)
Record PDFProcessor := mkSelf {
  font_registered_name : option str;
  last_engine_used : option str;
  last_font_info : option str;
  last_fill_stats : option FillStats
}.

(** The environment of a call: the installed font files, what PyMuPDF and
    Pillow answer, and what the [n]-th call of the overlay builder and of
    the merger does. *)
Record Libraries := mkLibraries {
  PATH_FONT_FILE : option FontPath;
  CONST_CANDIDATE_CJK_FONT_PATHS : list FontPath;
  pymupdf : Engines.Oracle;
  pillow : Raster.Pillow;
  build_text_layer_call : nat -> Retry.attempt unit;
  merge_pdfs_call : nat -> Retry.attempt unit
}.

Section WithCollaborators.

Variable ratio : str -> str -> Q.
Variable py_lower : str -> str.
Variable py_int : str -> option Z.
Variable stringWidth : str -> str -> Q -> option Q.

Definition _fill_with_raster (libs : Libraries) (page_sizes : list (Q * Q))
    (draw_plan : gmap Z (list DrawText)) (use_clamp : bool)
    (clamp_margin : Q) (raster_scale : option Q) (self : PDFProcessor)
  : outcome PDFProcessor :=
  let font_file :=
    Processor.select_font_file (PATH_FONT_FILE libs)
      (CONST_CANDIDATE_CJK_FONT_PATHS libs) in
  match snd (Raster.fill_with_raster stringWidth (pillow libs) page_sizes
               draw_plan Processor.STYLE_FONT_SIZE_DEFAULT
               Processor.STYLE_LINE_SPACING
               (Some (default CONST_RASTER_SCALE raster_scale))
               use_clamp clamp_margin font_file) with
  | Raised => Raised
  | Returned (engine_used, font_info) =>
      let info :=
        match font_info with
        | Some s => if is_empty s then lit "default" else s
        | None => lit "default"
        end in
      Returned (mkSelf (font_registered_name self) (Some engine_used)
                  (Some info) (last_fill_stats self))
  end.

(** A decorated method: the wrapped call retried by [retry_on_exception()]
    with its default arguments. *)
Definition retried (call : nat -> Retry.attempt unit) : outcome unit :=
  match Retry.retry_on_exception CONST_MAX_RETRY (2 # 10) 2 call with
  | Some r => Retry.result r
  | None => Raised
  end.

(** [fill_by_keywords] on an opened document: the processor after the call
    and whether the call returned. *)
Definition fill_by_keywords (libs : Libraries) (self : PDFProcessor)
    (pdf : list PdfPage) (keyword_to_value : list (str * str))
    (per_key_overrides : list (str * Override)) (pages : option str)
    (fuzzy_threshold : option Q) (engine : str) (enable_clamp : option bool)
    (clamp_margin : option Q) (raster_scale : option Q)
  : PDFProcessor * outcome unit :=
  let page_sizes := map (fun p => (pg_width p, pg_height p)) pdf in
  match Processor.fill_by_keywords ratio py_lower py_int pdf keyword_to_value
          per_key_overrides pages fuzzy_threshold with
  | Raised => (self, Raised)
  | Returned st =>
      let draw_plan := Processor.draw_plan st in
      let self :=
        mkSelf (font_registered_name self) (last_engine_used self)
          (last_font_info self)
          (Some (mkStats (Processor.total_considered st)
                   (length (Processor.matched_keys st))
                   (length (Processor.missing_keys st))
                   (Processor.missing_keys st)
                   (Processor.matched_keys st))) in
      let use_clamp := default CONST_ENABLE_CLAMP_DEFAULT enable_clamp in
      let use_margin := default CONST_CLAMP_MARGIN_DEFAULT clamp_margin in
      if str_eqb engine (lit "pymupdf") then
        match snd (Processor._fill_with_pymupdf stringWidth (pymupdf libs)
                     (PATH_FONT_FILE libs)
                     (CONST_CANDIDATE_CJK_FONT_PATHS libs) page_sizes
                     draw_plan use_clamp use_margin
                     (Processor.mkProc (last_engine_used self)
                        (last_font_info self))) with
        | Raised => (self, Raised)
        | Returned p =>
            (mkSelf (font_registered_name self)
               (Processor.last_engine_used p) (Processor.last_font_info p)
               (last_fill_stats self),
             Returned tt)
        end
      else if str_eqb engine (lit "raster") then
        match _fill_with_raster libs page_sizes draw_plan use_clamp
                use_margin raster_scale self with
        | Raised => (self, Raised)
        | Returned self =>
            (mkSelf (font_registered_name self) (Some (lit "raster"))
               (last_font_info self) (last_fill_stats self),
             Returned tt)
        end
      else
        match retried (build_text_layer_call libs) with
        | Raised => (self, Raised)
        | Returned _ =>
            match retried (merge_pdfs_call libs) with
            | Raised => (self, Raised)
            | Returned _ =>
                (mkSelf (font_registered_name self) (Some (lit "reportlab"))
                   (font_registered_name self) (last_fill_stats self),
                 Returned tt)
            end
        end
  end.

End WithCollaborators.

End Fill.

(** Every library call of the raster path completes. *)
Definition pillow_works (o : Raster.Pillow) : Prop :=
  Raster.import_ok o = true /\ Raster.fitz_open_ok o = true
  /\ Raster.save_ok o = true.

(** A retried call succeeds within [n] attempts: some attempt among the
    first [n] returns, every attempt before it having raised a retryable
    exception. *)
Definition succeeds_within (n : nat) (call : nat -> Retry.attempt unit)
  : Prop :=
  exists i, (i < n)%nat /\ call i = Retry.Success tt
            /\ forall j, (j < i)%nat -> call j = Retry.Retryable.

(** * Properties *)

(** ** Facts on the comparisons *)

Lemma Qltb_lt a b : Qltb a b = true <-> (a < b)%Q.
Proof.
  unfold Qltb. rewrite negb_true_iff, <- not_true_iff_false, Qle_bool_iff.
  split; [apply Qnot_le_lt | apply Qlt_not_le].
Qed.

Lemma Qltb_ge a b : Qltb a b = false <-> (b <= a)%Q.
Proof.
  unfold Qltb. rewrite negb_false_iff. apply Qle_bool_iff.
Qed.

Lemma Qgeb_le a b : Qgeb a b = true <-> (b <= a)%Q.
Proof. apply Qle_bool_iff. Qed.

Lemma py_max_spec a b :
  (a <= py_max a b /\ b <= py_max a b /\ (py_max a b == a \/ py_max a b == b))%Q.
Proof.
  unfold py_max, Qgtb. destruct (Qltb a b) eqn:E.
  - apply Qltb_lt in E. repeat split; [lra | lra | right; reflexivity].
  - apply Qltb_ge in E. repeat split; [lra | lra | left; reflexivity].
Qed.

Lemma py_min_spec a b :
  (py_min a b <= a /\ py_min a b <= b /\ (py_min a b == a \/ py_min a b == b))%Q.
Proof.
  unfold py_min. destruct (Qltb b a) eqn:E.
  - apply Qltb_lt in E. repeat split; [lra | lra | right; reflexivity].
  - apply Qltb_ge in E. repeat split; [lra | lra | left; reflexivity].
Qed.

(** Clamping [v] into [[lo, hi]] lands inside the interval as soon as the
    interval is not empty. *)
Lemma clamp_in_range lo hi v :
  (lo <= hi -> lo <= py_max lo (py_min hi v) <= hi)%Q.
Proof.
  intros Hle.
  destruct (py_max_spec lo (py_min hi v)) as (H1 & H2 & H3).
  destruct (py_min_spec hi v) as (H4 & H5 & H6).
  split; [exact H1 |].
  destruct H3 as [-> | ->]; [exact Hle | exact H4].
Qed.

(** ** Clamping of the baseline *)

Section ClampBaseline.
Import Coords.
Local Open Scope Q_scope.

Lemma py_max_0_nonneg v : 0 <= v -> py_max 0 v == v.
Proof.
  intros Hv. unfold py_max, Qgtb. destruct (Qltb 0 v) eqn:E; [reflexivity |].
  apply Qltb_ge in E. lra.
Qed.

(** C4, as the code has it: [x] lands in [[margin, page_width - margin]]
    whenever that interval is not empty, and for a font size that is not
    negative [y] lands in [[margin + descent, page_height - margin - ascent]]
    in the non-degenerate case, with [ascent = font_size * 0.8] and
    [descent = font_size * 0.2]. *)
Theorem clamp_baseline_bounds
    (x y_baseline page_width page_height font_size margin : Q) :
  let ascent := font_size * (8 # 10) in
  let descent := font_size * (2 # 10) in
  let '(x', y') :=
    clamp_baseline x y_baseline page_width page_height font_size margin in
  (margin <= page_width - margin -> margin <= x' <= page_width - margin)
  /\ (0 <= font_size ->
      margin + descent <= page_height - margin - ascent ->
      margin + descent <= y' <= page_height - margin - ascent).
Proof.
  cbv zeta. unfold clamp_baseline, clamp_baseline_ratio.
  set (asc := py_max 0 (font_size * (8 # 10))).
  set (desc := py_max 0 (font_size * (2 # 10))).
  destruct (Qgtb (margin + desc) (page_height - margin - asc)) eqn:E;
    cbv beta iota zeta; (split; [apply clamp_in_range |]); intros Hfs Hnd.
  - assert (Ha : asc == font_size * (8 # 10)) by (apply py_max_0_nonneg; lra).
    assert (Hd : desc == font_size * (2 # 10)) by (apply py_max_0_nonneg; lra).
    apply Qltb_lt in E. lra.
  - assert (Ha : asc == font_size * (8 # 10)) by (apply py_max_0_nonneg; lra).
    assert (Hd : desc == font_size * (2 # 10)) by (apply py_max_0_nonneg; lra).
    pose proof (clamp_in_range (margin + desc) (page_height - margin - asc)
                  y_baseline) as Hc.
    lra.
Qed.

Lemma clamp_baseline_bounds_witness :
  let '(x', y') := clamp_baseline 10 99 200 100 10 2 in
  2 <= x' <= 200 - 2 /\ 2 + 10 * (2 # 10) <= y' <= 100 - 2 - 10 * (8 # 10).
Proof.
  pose proof (clamp_baseline_bounds 10 99 200 100 10 2) as H.
  cbv zeta in H.
  destruct (clamp_baseline 10 99 200 100 10 2) as [x' y'].
  destruct H as [Hx Hy]. split; [apply Hx | apply Hy]; lra.
Defined.

(** C4 as stated fails on a page narrower than twice the margin, and on a
    negative font size, whose ascent and descent the code raises to zero. *)
Lemma clamp_bounds_stated_fails :
  ~ Spec.clamp_bounds_stated 0 0 1 100 12 2
  /\ ~ Spec.clamp_bounds_stated 0 0 100 3 (-1) 2.
Proof.
  split; unfold Spec.clamp_bounds_stated; vm_compute.
  - intros [[_ H] _]. apply H. reflexivity.
  - intros [_ H]. destruct H as [_ H]; [discriminate |]. apply H. reflexivity.
Qed.

End ClampBaseline.

(** ** Width of a candidate line without font metrics *)

Section FallbackWidth.
Import PyStr Layout.
Local Open Scope Q_scope.

(** C6 as stated fails on two CJK characters at 12 pt: the code measures
    14.4 pt, the stated estimate is 24 pt, and with 20 pt of room the two
    characters stay on one line, where the stated estimate would put each
    on a line of its own. *)
Lemma fallback_width_stated_fails :
  ~ Spec.fallback_width_stated (lit "SimSun") 12 Examples.two_cjk
  /\ ~ Spec.fallback_wrap_stated (lit "SimSun") 12 Examples.two_cjk 20
  /\ wrap_text_lines (fun _ _ _ => None) (lit "SimSun") 12
       (Some Examples.two_cjk) (Some 20)
     = [Examples.two_cjk].
Proof.
  split; [| split; [| vm_compute; reflexivity]].
  - unfold Spec.fallback_width_stated. vm_compute. discriminate.
  - unfold Spec.fallback_wrap_stated. vm_compute. discriminate.
Qed.

End FallbackWidth.

(** ** Line wrapping keeps every character *)

Section Wrapping.
Import PyStr Layout.



Section WithMetrics.

Variable stringWidth : str -> str -> Q -> option Q.
Variables (font_name : str) (font_size : Q).






End WithMetrics.


End Wrapping.

(** ** The Ratcliff/Obershelp ratio meets the contract of §4.2 *)

Section DifflibContract.
Import Difflib Invariants.

Lemma common_prefix_le_l (a b : str) : common_prefix a b <= length a.
Proof.
  revert b. induction a as [| x a IH]; intros [| y b]; simpl; try lia.
  destruct (x =? y)%N; [specialize (IH b) |]; lia.
Qed.

Lemma common_prefix_le_r (a b : str) : common_prefix a b <= length b.
Proof.
  revert b. induction a as [| x a IH]; intros [| y b]; simpl; try lia.
  destruct (x =? y)%N; [specialize (IH b) |]; lia.
Qed.

Lemma common_prefix_firstn (a b : str) :
  firstn (common_prefix a b) a = firstn (common_prefix a b) b.
Proof.
  revert b. induction a as [| x a IH]; intros [| y b]; simpl; try reflexivity.
  destruct (x =? y)%N eqn:E; [| reflexivity].
  apply N.eqb_eq in E. subst y. simpl. now rewrite IH.
Qed.

Lemma common_prefix_same (a : str) : common_prefix a a = length a.
Proof.
  induction a as [| x a IH]; simpl; [reflexivity |].
  now rewrite N.eqb_refl, IH.
Qed.

Lemma longest_step_ok (a b : str) (i j : nat) (best : nat * nat * nat) :
  i <= length a -> j <= length b ->
  block_ok a b best -> block_ok a b (longest_step a b i best j).
Proof.
  intros Hi Hj Hb. unfold longest_step.
  destruct (snd best <? _); [| exact Hb].
  pose proof (common_prefix_le_l (skipn i a) (skipn j b)) as Hl.
  pose proof (common_prefix_le_r (skipn i a) (skipn j b)) as Hr.
  rewrite length_skipn in Hl, Hr.
  repeat split; [lia | lia | apply common_prefix_firstn].
Qed.

Lemma longest_row_ok (a b : str) (i : nat) (best : nat * nat * nat) :
  i <= length a -> block_ok a b best -> block_ok a b (longest_row a b best i).
Proof.
  intros Hi. unfold longest_row.
  assert (Hall : Forall (fun j => j <= length b) (seq 0 (length b))).
  { apply List.Forall_forall. intros j Hj. apply in_seq in Hj. lia. }
  revert best. induction Hall as [| j js Hj _ IH]; intros best Hb; simpl.
  - exact Hb.
  - apply IH. now apply longest_step_ok.
Qed.

Lemma find_longest_match_ok (a b : str) : block_ok a b (find_longest_match a b).
Proof.
  unfold find_longest_match.
  assert (Hall : Forall (fun i => i <= length a) (seq 0 (length a))).
  { apply List.Forall_forall. intros i Hi. apply in_seq in Hi. lia. }
  assert (H0 : block_ok a b (0, 0, 0)) by (simpl; repeat split; lia).
  revert H0. generalize (0, 0, 0). induction Hall as [| i is_ Hi _ IH];
    intros best Hb; simpl.
  - exact Hb.
  - apply IH. now apply longest_row_ok.
Qed.

(** Once the best block is as long as [a], no later block replaces it. *)
Lemma longest_step_full (a b : str) (i j : nat) (best : nat * nat * nat) :
  snd best = length a -> longest_step a b i best j = best.
Proof.
  intros Hk. unfold longest_step.
  pose proof (common_prefix_le_l (skipn i a) (skipn j b)) as Hl.
  rewrite length_skipn in Hl.
  destruct (snd best <? _) eqn:E; [| reflexivity].
  apply Nat.ltb_lt in E. lia.
Qed.

Lemma longest_steps_full (a b : str) (i : nat) (js : list nat)
    (best : nat * nat * nat) :
  snd best = length a -> fold_left (longest_step a b i) js best = best.
Proof.
  intros Hk. induction js as [| j js IH]; simpl; [reflexivity |].
  now rewrite longest_step_full.
Qed.

Lemma longest_rows_full (a b : str) (is_ : list nat) (best : nat * nat * nat) :
  snd best = length a -> fold_left (longest_row a b) is_ best = best.
Proof.
  intros Hk. induction is_ as [| i is_ IH]; simpl; [reflexivity |].
  unfold longest_row at 2. now rewrite longest_steps_full.
Qed.

Lemma find_longest_match_same (a : str) :
  a <> [] -> find_longest_match a a = (0, 0, length a).
Proof.
  intros Ha. destruct a as [| x a]; [congruence |].
  unfold find_longest_match. cbn [length seq fold_left].
  unfold longest_row at 2. cbn [length seq fold_left].
  unfold longest_step at 2. cbn [skipn snd].
  rewrite common_prefix_same. cbn [length Nat.ltb Nat.leb].
  rewrite longest_steps_full by reflexivity.
  now rewrite longest_rows_full.
Qed.

Lemma matches_nil_l (fuel : nat) (b : str) : matches fuel [] b = 0.
Proof. destruct fuel; reflexivity. Qed.

Lemma matches_bound (fuel : nat) :
  forall a b : str, matches fuel a b <= length a /\ matches fuel a b <= length b.
Proof.
  induction fuel as [| fuel IH]; intros a b; cbn [matches]; [lia |].
  pose proof (find_longest_match_ok a b) as Hok.
  destruct (find_longest_match a b) as [[i j] k].
  destruct Hok as (Hi & Hj & _).
  destruct (k =? 0); [lia |].
  destruct (IH (firstn i a) (firstn j b)) as [Hl1 Hl2].
  destruct (IH (skipn (i + k) a) (skipn (j + k) b)) as [Hr1 Hr2].
  rewrite length_firstn in Hl1, Hl2. rewrite length_skipn in Hr1, Hr2. lia.
Qed.

Lemma matches_full (fuel : nat) :
  forall a b : str,
    matches fuel a b = length a -> length a = length b -> a = b.
Proof.
  induction fuel as [| fuel IH]; intros a b HM Hlen.
  - cbn [matches] in HM. destruct a, b; simpl in *; congruence.
  - cbn [matches] in HM.
    pose proof (find_longest_match_ok a b) as Hok.
    destruct (find_longest_match a b) as [[i j] k].
    destruct Hok as (Hi & Hj & Hblock).
    destruct (k =? 0) eqn:Ek.
    { destruct a, b; simpl in *; congruence. }
    destruct (matches_bound fuel (firstn i a) (firstn j b)) as [Hl1 Hl2].
    destruct (matches_bound fuel (skipn (i + k) a) (skipn (j + k) b))
      as [Hr1 Hr2].
    rewrite length_firstn in Hl1, Hl2. rewrite length_skipn in Hr1, Hr2.
    assert (Hij : i = j) by lia. subst j.
    assert (Hleft : firstn i a = firstn i b).
    { apply IH; rewrite ?length_firstn; lia. }
    assert (Hright : skipn (i + k) a = skipn (i + k) b).
    { apply IH; rewrite ?length_skipn; lia. }
    rewrite <- (firstn_skipn i a), <- (firstn_skipn i b), Hleft. f_equal.
    rewrite <- (firstn_skipn k (skipn i a)), <- (firstn_skipn k (skipn i b)).
    rewrite Hblock. f_equal.
    rewrite !skipn_skipn, (Nat.add_comm k i). exact Hright.
Qed.

(** The fuel [S (length a)] that [ratio] gives never runs out: any two
    amounts above [length a] count the same blocks. *)
Lemma matches_fuel (fuel : nat) :
  forall (fuel' : nat) (a b : str),
    length a < fuel -> length a < fuel' ->
    matches fuel a b = matches fuel' a b.
Proof.
  induction fuel as [| fuel IH]; intros fuel' a b H1 H2; [lia |].
  destruct fuel' as [| fuel']; [lia |]. cbn [matches].
  pose proof (find_longest_match_ok a b) as Hok.
  destruct (find_longest_match a b) as [[i j] k].
  destruct Hok as (Hi & Hj & _).
  destruct (k =? 0) eqn:Ek; [reflexivity |]. apply Nat.eqb_neq in Ek.
  rewrite (IH fuel' (firstn i a) (firstn j b)),
          (IH fuel' (skipn (i + k) a) (skipn (j + k) b));
    rewrite ?length_firstn, ?length_skipn; lia.
Qed.

Lemma matches_same (a : str) : a <> [] -> matches (S (length a)) a a = length a.
Proof.
  intros Ha. cbn [matches]. rewrite find_longest_match_same by exact Ha.
  destruct (length a =? 0) eqn:E.
  - apply Nat.eqb_eq in E. destruct a; simpl in *; congruence.
  - cbn [firstn Nat.add]. rewrite matches_nil_l, skipn_all, matches_nil_l. lia.
Qed.

Lemma Zpos_of_nat (n : nat) : n <> 0 -> Z.pos (Pos.of_nat n) = Z.of_nat n.
Proof.
  intros Hn. rewrite <- (Nat2Pos.id n) at 2 by exact Hn.
  now rewrite positive_nat_Z.
Qed.

Theorem difflib_ratio_contract : Spec.ratio_contract ratio.
Proof.
  split.
  - intros a b. unfold ratio.
    destruct (length a + length b =? 0) eqn:E; [apply Qle_refl |].
    apply Nat.eqb_neq in E.
    destruct (matches_bound (S (length a)) a b) as [H1 H2].
    unfold Qle. cbn [Qnum Qden]. rewrite Zpos_of_nat by exact E. lia.
  - intros a Ha. unfold ratio.
    destruct (length a + length a =? 0) eqn:E; [reflexivity |].
    apply Nat.eqb_neq in E. rewrite matches_same by exact Ha.
    unfold Qeq. cbn [Qnum Qden]. rewrite Zpos_of_nat by exact E. lia.
  - intros a b. unfold ratio.
    destruct (length a + length b =? 0) eqn:E.
    + apply Nat.eqb_eq in E. intros _.
      destruct a, b; simpl in E; try lia. reflexivity.
    + apply Nat.eqb_neq in E. unfold Qeq. cbn [Qnum Qden].
      rewrite Zpos_of_nat by exact E. intros HM.
      destruct (matches_bound (S (length a)) a b) as [H1 H2].
      apply (matches_full (S (length a))); lia.
Qed.

End DifflibContract.

(** ** The fuzzy window *)

Section FuzzyWindow.
Import PyStr Matching.

Variable ratio : str -> str -> Q.

Local Abbreviation scan := (Invariants.scan ratio).

Lemma best_fuzzy_window_scan (chars : list PChar) (keyword : str) (thr : Q) :
  best_fuzzy_window ratio chars keyword thr =
  if (length (normalize_text keyword) =? 0) || (length chars =? 0) then None
  else match snd (scan keyword chars) with
       | Some w => if Qgeb (fst (scan keyword chars)) thr then Some w else None
       | None => None
       end.
Proof. reflexivity. Qed.

(** Every window the scan records starts at a scanned index and spans the
    length of the normalised keyword. *)
Lemma scan_fold_shape (K : str) (texts : list str) (idxs : list nat) :
  forall (done : list nat) (best : Q * option (nat * nat)),
    (forall s e, snd best = Some (s, e) -> e = s + length K /\ In s done) ->
    forall s e,
      snd (fold_left (scan_step ratio K texts) idxs best) = Some (s, e) ->
      e = s + length K /\ In s (done ++ idxs).
Proof.
  induction idxs as [| i idxs IH]; intros done best Hbest s e Hres.
  - rewrite app_nil_r. now apply Hbest.
  - cbn [fold_left] in Hres.
    replace (done ++ i :: idxs) with ((done ++ [i]) ++ idxs)
      by now rewrite <- app_assoc.
    apply (IH (done ++ [i]) (scan_step ratio K texts best i)); [| exact Hres].
    intros s' e'. unfold scan_step.
    destruct (Qgtb _ (fst best)); cbn [snd].
    + intros [= <- <-]. split; [reflexivity |]. apply in_or_app. right. now left.
    + intros H. destruct (Hbest _ _ H) as [He Hin].
      split; [exact He |]. apply in_or_app. now left.
Qed.

Lemma best_fuzzy_window_shape (chars : list PChar) (keyword : str) (thr : Q)
    (s e : nat) :
  best_fuzzy_window ratio chars keyword thr = Some (s, e) ->
  0 < length (normalize_text keyword)
  /\ e = s + length (normalize_text keyword)
  /\ e <= length chars.
Proof.
  rewrite best_fuzzy_window_scan.
  destruct (length (normalize_text keyword) =? 0) eqn:EL; [discriminate |].
  apply Nat.eqb_neq in EL. cbn [orb].
  destruct (length chars =? 0); [discriminate |].
  destruct (snd (scan keyword chars)) as [[s' e'] |] eqn:Ebest; [| discriminate].
  destruct (Qgeb _ thr); [| discriminate]. intros [= -> ->].
  unfold scan in Ebest.
  apply (scan_fold_shape _ _ _ []) in Ebest; [| intros ? ?; discriminate].
  destruct Ebest as [He Hin]. cbn [app] in Hin. apply in_seq in Hin.
  unfold Spec.page_texts in Hin. rewrite length_map in Hin. lia.
Qed.

Lemma py_min_list_is_Some (xs : list Q) : xs <> [] -> is_Some (py_min_list xs).
Proof. destruct xs; [congruence | intros _; eexists; reflexivity]. Qed.

Lemma py_max_list_is_Some (xs : list Q) : xs <> [] -> is_Some (py_max_list xs).
Proof. destruct xs; [congruence | intros _; eexists; reflexivity]. Qed.

Lemma bbox_of_chars_is_Some (chars : list PChar) (s e : nat) :
  s < e -> e <= length chars -> is_Some (bbox_of_chars chars s e).
Proof.
  intros Hse He. unfold bbox_of_chars.
  assert (Hcs : is_Some (mapM (fun i => chars !! i) (seq s (e - s)))).
  { apply mapM_is_Some, List.Forall_forall. intros i Hi. apply in_seq in Hi.
    apply lookup_lt_is_Some. lia. }
  destruct Hcs as [cs Hcs]. rewrite Hcs. cbn [mbind option_bind].
  assert (Hne : cs <> []).
  { apply length_mapM in Hcs. rewrite length_seq in Hcs.
    destruct cs; simpl in Hcs; [lia | congruence]. }
  destruct cs as [| c cs]; [congruence |]. eexists. reflexivity.
Qed.

Lemma best_fuzzy_window_bbox (chars : list PChar) (keyword : str) (thr : Q)
    (s e : nat) :
  best_fuzzy_window ratio chars keyword thr = Some (s, e) ->
  is_Some (bbox_of_chars chars s e).
Proof.
  intros H. apply best_fuzzy_window_shape in H as (HL & He & Hlen).
  apply bbox_of_chars_is_Some; lia.
Qed.

(** C9: a window returned by [best_fuzzy_window] is not empty, lies inside
    the character list and spans the length of the normalised keyword, so
    [bbox_of_chars] on it neither indexes out of range nor takes the
    minimum or maximum of an empty list. *)
Theorem best_fuzzy_window_in_range (chars : list PChar) (keyword : str)
    (threshold : Q) (s e : nat) :
  best_fuzzy_window ratio chars keyword threshold = Some (s, e) ->
  (0 <= s /\ s < e /\ e <= length chars)
  /\ e - s = length (normalize_text keyword)
  /\ is_Some (bbox_of_chars chars s e).
Proof.
  intros H. apply best_fuzzy_window_shape in H as (HL & He & Hlen).
  repeat split; try lia. apply bbox_of_chars_is_Some; lia.
Qed.

(** C3: a hit at the stricter threshold is a hit, on the same window, at
    the looser one; hence the keywords matched at [t2] are among those
    matched at [t1]. *)
Theorem best_fuzzy_window_monotone (chars : list PChar) (t1 t2 : Q) :
  (t1 < t2)%Q ->
  (forall keyword w,
      best_fuzzy_window ratio chars keyword t2 = Some w ->
      best_fuzzy_window ratio chars keyword t1 = Some w)
  /\ (forall keywords keyword,
        In keyword (Spec.matched_at ratio chars t2 keywords) ->
        In keyword (Spec.matched_at ratio chars t1 keywords)).
Proof.
  intros Ht.
  assert (Hmono : forall keyword w,
             best_fuzzy_window ratio chars keyword t2 = Some w ->
             best_fuzzy_window ratio chars keyword t1 = Some w).
  { intros keyword w. rewrite !best_fuzzy_window_scan.
    destruct (_ || _); [discriminate |].
    destruct (snd (scan keyword chars)) as [w' |]; [| discriminate].
    destruct (Qgeb _ t2) eqn:E2; [| discriminate]. intros [= ->].
    apply Qgeb_le in E2.
    replace (Qgeb (fst (scan keyword chars)) t1) with true; [reflexivity |].
    symmetry. apply Qgeb_le. lra. }
  split; [exact Hmono |].
  intros keywords keyword. unfold Spec.matched_at. rewrite !filter_In.
  intros [Hin Hhit]. split; [exact Hin |].
  apply bool_decide_eq_true in Hhit. apply bool_decide_eq_true.
  destruct Hhit as [w Hw]. exists w. now apply Hmono.
Qed.

End FuzzyWindow.

(** ** Exact occurrences of a keyword *)

Section Strip.
Import PyStr Matching Invariants.

Lemma lstrip_split (s : str) : exists lead, s = lead ++ lstrip s.
Proof.
  induction s as [| c s [lead IH]]; [exists []; reflexivity |].
  simpl. destruct (is_space c).
  - exists (c :: lead). simpl. now f_equal.
  - exists []. reflexivity.
Qed.

Lemma rstrip_split (s : str) : exists trail, s = rstrip s ++ trail.
Proof.
  unfold rstrip. destruct (lstrip_split (rev s)) as [lead H].
  exists (rev lead). rewrite <- rev_app_distr, <- H. now rewrite rev_involutive.
Qed.

Lemma strip_split (s : str) : exists lead trail, s = lead ++ strip s ++ trail.
Proof.
  unfold strip. destruct (lstrip_split s) as [lead Hl].
  destruct (rstrip_split (lstrip s)) as [trail Hr].
  exists lead, trail. now rewrite <- Hr.
Qed.

Lemma strip_single (c : N) : is_space c = false -> strip [c] = [c].
Proof. intros H. unfold strip, rstrip. simpl. rewrite H. simpl. now rewrite H. Qed.

Lemma normalize_text_map (s : str) : normalize_text s = strip (map norm_char s).
Proof. unfold normalize_text, replace. now rewrite !map_map. Qed.

Lemma normalize_single (c : N) :
  is_space (norm_char c) = false -> normalize_text [c] = [norm_char c].
Proof. intros H. rewrite normalize_text_map. simpl. now apply strip_single. Qed.

Lemma concat_singletons (f : N -> N) (s : str) :
  concat (map (fun c => [f c]) s) = map f s.
Proof. induction s; simpl; [reflexivity | now f_equal]. Qed.

(** The middle part [km] of a keyword present verbatim at [i] is spelled by
    the window that starts [length kl] characters later, provided no
    character of [km] normalises to white space. *)
Lemma verbatim_window_core (chars : list PChar) (kl km kt : str) (i : nat) :
  Spec.verbatim_at chars (kl ++ km ++ kt) i ->
  km <> [] ->
  forallb (fun c => negb (is_space (norm_char c))) km = true ->
  (i + length kl) + length km <= length chars
  /\ window_text (Spec.page_texts chars) (i + length kl) (length km)
     = map norm_char km.
Proof.
  intros Hverb Hne Hns. unfold Spec.verbatim_at in Hverb.
  assert (HK : 0 < length km) by (destruct km; [congruence | simpl; lia]).
  rewrite !map_app in Hverb.
  apply map_eq_app in Hverb as (sl & smt & Hseg & Hsl & Hsmt).
  apply map_eq_app in Hsmt as (sm & st & -> & Hsm & Hst).
  assert (Hlsm : length sm = length km).
  { apply (f_equal (@length _)) in Hsm. now rewrite !length_map in Hsm. }
  assert (Hlsl : length sl = length kl).
  { apply (f_equal (@length _)) in Hsl. now rewrite !length_map in Hsl. }
  assert (Hskip : skipn i chars
                  = sl ++ sm ++ st
                    ++ skipn (length (kl ++ km ++ kt)) (skipn i chars)).
  { rewrite <- (firstn_skipn (length (kl ++ km ++ kt)) (skipn i chars)) at 1.
    rewrite Hseg. now rewrite <- !app_assoc. }
  assert (Hlen : length (skipn i chars) >= length sl + length sm).
  { rewrite Hskip, !length_app. lia. }
  rewrite length_skipn in Hlen.
  split; [lia |].
  unfold window_text, Spec.page_texts.
  rewrite skipn_map, firstn_map, (Nat.add_comm i), <- skipn_skipn, Hskip.
  rewrite <- Hlsl, skipn_app, skipn_all, Nat.sub_diag, skipn_O. cbn [app].
  rewrite <- Hlsm, firstn_app, firstn_all, Nat.sub_diag, firstn_O, app_nil_r.
  rewrite <- (map_map c_text normalize_text), Hsm, map_map.
  rewrite forallb_forall in Hns.
  rewrite <- concat_singletons. f_equal.
  apply map_ext_in. intros c Hc. apply normalize_single.
  apply negb_true_iff, Hns, Hc.
Qed.

(** A keyword present verbatim, whose normalised form holds no white space,
    gives a window whose per-character normalised texts spell that form. *)
Lemma verbatim_window (chars : list PChar) (keyword : str) (i : nat) :
  Spec.verbatim_at chars keyword i ->
  normalize_text keyword <> [] ->
  forallb (fun c => negb (is_space c)) (normalize_text keyword) = true ->
  exists i0,
    i0 + length (normalize_text keyword) <= length chars
    /\ window_text (Spec.page_texts chars) i0 (length (normalize_text keyword))
       = normalize_text keyword.
Proof.
  intros Hverb Hne Hns.
  destruct (strip_split (map norm_char keyword)) as (lead & trail & Hsplit).
  rewrite <- normalize_text_map in Hsplit.
  apply map_eq_app in Hsplit as (kl & kmt & -> & Hkl & Hkmt).
  apply map_eq_app in Hkmt as (km & kt & -> & Hkm & Hkt).
  rewrite <- Hkm in *.
  destruct (verbatim_window_core chars kl km kt i Hverb) as [Hin Hwin].
  - intros ->. now apply Hne.
  - rewrite forallb_forall in Hns. apply forallb_forall. intros c Hc.
    apply Hns, in_map, Hc.
  - exists (i + length kl). rewrite length_map. split; [exact Hin | exact Hwin].
Qed.

End Strip.

Section ExactMatch.
Import PyStr Matching Data.

Variable ratio : str -> str -> Q.
Hypothesis contract : Spec.ratio_contract ratio.

Variables (K : str) (texts : list str).

Local Abbreviation score := (Invariants.score ratio K texts).
Local Abbreviation scan_inv := (Invariants.scan_inv ratio K texts).

Lemma scan_step_inv (a : nat) (best : Q * option (nat * nat)) :
  scan_inv a best -> scan_inv (S a) (scan_step ratio K texts best a).
Proof.
  intros [Hmax Hbest]. unfold scan_step. fold (score a).
  destruct (Qgtb (score a) (fst best)) eqn:E.
  - apply Qltb_lt in E. split; cbn [fst snd].
    + intros j Hj. destruct (Nat.eq_dec j a) as [-> | Hne]; [apply Qle_refl |].
      apply Qlt_le_weak. eapply Qle_lt_trans; [apply Hmax; lia | exact E].
    + repeat split; [lia |]. intros j Hj.
      eapply Qle_lt_trans; [apply Hmax; lia | exact E].
  - apply Qltb_ge in E. split.
    + intros j Hj. destruct (Nat.eq_dec j a) as [-> | Hne]; [exact E |].
      apply Hmax. lia.
    + destruct (snd best) as [[s e] |]; [| exact Hbest].
      destruct Hbest as (He & Hs & Hsc & Hfirst). repeat split; auto with arith.
Qed.

Lemma scan_fold_inv (n : nat) :
  forall (a : nat) (best : Q * option (nat * nat)),
    scan_inv a best ->
    scan_inv (a + n) (fold_left (scan_step ratio K texts) (seq a n) best).
Proof.
  induction n as [| n IH]; intros a best Hinv; cbn [seq fold_left].
  - now rewrite Nat.add_0_r.
  - rewrite <- Nat.add_succ_comm. apply IH. now apply scan_step_inv.
Qed.

(** If some scanned window spells [K], the scan ends on the first such
    window, with score 1. *)
Lemma scan_exact (i0 : nat) :
  K <> [] ->
  i0 + length K <= length texts ->
  window_text texts i0 (length K) = K ->
  exists s,
    snd (fold_left (scan_step ratio K texts)
           (seq 0 (length texts + 1 - length K)) (0%Q, None))
    = Some (s, s + length K)
    /\ (1 <= fst (fold_left (scan_step ratio K texts)
                    (seq 0 (length texts + 1 - length K)) (0%Q, None)))%Q
    /\ window_text texts s (length K) = K
    /\ s <= i0
    /\ forall j, j < s -> window_text texts j (length K) <> K.
Proof.
  intros HK Hi0 Hwin.
  assert (Hinit : scan_inv 0 (0%Q, None)).
  { split; [intros j Hj; lia | reflexivity]. }
  apply (scan_fold_inv (length texts + 1 - length K)) in Hinit.
  cbn [Nat.add] in Hinit.
  destruct Hinit as [Hmax Hbest].
  assert (Hone : (score i0 == 1)%Q).
  { unfold score. rewrite Hwin. now apply (Spec.ratio_same ratio contract). }
  assert (Hge : (1 <= fst (fold_left (scan_step ratio K texts)
                             (seq 0 (length texts + 1 - length K)) (0%Q, None)))%Q).
  { rewrite <- Hone. apply Hmax. lia. }
  destruct (snd (fold_left _ _ _)) as [[s e] |].
  - destruct Hbest as (-> & Hs & Hsc & Hfirst).
    assert (Hs1 : (score s == 1)%Q).
    { apply Qle_antisym; [apply (Spec.ratio_le_1 ratio contract) |].
      now rewrite <- Hsc. }
    exists s. repeat split; [exact Hge | | |].
    + symmetry. apply (Spec.ratio_1_eq ratio contract). exact Hs1.
    + destruct (le_lt_dec s i0) as [Hle | Hlt]; [exact Hle |].
      specialize (Hfirst i0 Hlt). rewrite Hone, Hs1 in Hfirst.
      now apply Qlt_irrefl in Hfirst.
    + intros j Hj Hwj. specialize (Hfirst j Hj).
      assert (Hj1 : (score j == 1)%Q).
      { unfold score. rewrite Hwj. now apply (Spec.ratio_same ratio contract). }
      rewrite Hj1, Hs1 in Hfirst. now apply Qlt_irrefl in Hfirst.
  - lra.
Qed.

End ExactMatch.

Section FindKeyword.
Import PyStr Matching Data Processor.

Variable ratio : str -> str -> Q.
Hypothesis contract : Spec.ratio_contract ratio.

Lemma page_index_in_range (n p : nat) :
  p < n -> ((Z.of_nat p <? 0)%Z || (Z.of_nat p >=? Z.of_nat n)%Z) = false.
Proof.
  intros Hlt. apply orb_false_iff. split; [apply Z.ltb_ge; lia |].
  rewrite Z.geb_leb. apply Z.leb_gt. lia.
Qed.

(** An exact window is found at every threshold up to 1, and it is the
    first exact window of the page. *)
Lemma best_fuzzy_window_exact (chars : list PChar) (keyword : str) (thr : Q)
    (i0 : nat) :
  normalize_text keyword <> [] ->
  i0 + length (normalize_text keyword) <= length chars ->
  window_text (Spec.page_texts chars) i0 (length (normalize_text keyword))
    = normalize_text keyword ->
  (thr <= 1)%Q ->
  exists s,
    best_fuzzy_window ratio chars keyword thr
      = Some (s, s + length (normalize_text keyword))
    /\ window_text (Spec.page_texts chars) s (length (normalize_text keyword))
       = normalize_text keyword
    /\ s <= i0
    /\ forall j, j < s ->
         window_text (Spec.page_texts chars) j (length (normalize_text keyword))
         <> normalize_text keyword.
Proof.
  intros HK Hi0 Hwin Hthr.
  assert (Hlt : length (Spec.page_texts chars) = length chars)
    by (unfold Spec.page_texts; apply length_map).
  destruct (scan_exact ratio contract (normalize_text keyword)
              (Spec.page_texts chars) i0 HK) as (s & Hs & Hge & Hw & Hle & Hfirst);
    [lia | exact Hwin |].
  exists s. split; [| auto].
  rewrite best_fuzzy_window_scan. unfold Invariants.scan.
  destruct (length (normalize_text keyword) =? 0) eqn:EL.
  { apply Nat.eqb_eq in EL. destruct (normalize_text keyword); simpl in *;
      [congruence | lia]. }
  destruct (length chars =? 0) eqn:EC.
  { apply Nat.eqb_eq in EC. destruct (normalize_text keyword); simpl in *;
      [congruence | lia]. }
  cbn [orb]. rewrite Hs.
  replace (Qgeb _ thr) with true; [reflexivity |].
  symmetry. apply Qgeb_le. lra.
Qed.

(** C2, as the code has it: a keyword whose normalised form is not empty
    and holds no white space, and whose characters appear verbatim and
    contiguously on a page, is hit by [find_keyword_coordinates] at every
    threshold up to 1; the per-character normalised texts of the returned
    window spell the normalised keyword, and the hit carries the bounding
    box of that window. *)
Theorem find_keyword_verbatim (pdf : list PdfPage) (p : nat) (page : PdfPage)
    (keyword : str) (i : nat) (threshold : Q) :
  pdf !! p = Some page ->
  Spec.verbatim_at (pg_chars page) keyword i ->
  normalize_text keyword <> [] ->
  forallb (fun c => negb (is_space c)) (normalize_text keyword) = true ->
  (threshold <= 1)%Q ->
  exists s e hit,
    best_fuzzy_window ratio (pg_chars page) keyword threshold = Some (s, e)
    /\ window_text (Spec.page_texts (pg_chars page)) s (e - s)
       = normalize_text keyword
    /\ find_keyword_coordinates ratio pdf keyword (Z.of_nat p) threshold
       = Returned (Some hit)
    /\ bbox_of_chars (pg_chars page) s e = Some (bbox_pdfplumber hit).
Proof.
  intros Hpage Hverb HK Hns Hthr.
  destruct (verbatim_window _ _ _ Hverb HK Hns) as (i0 & Hi0 & Hwin).
  destruct (best_fuzzy_window_exact (pg_chars page) keyword threshold i0
              HK Hi0 Hwin Hthr) as (s & Hbest & Hw & _ & _).
  destruct (best_fuzzy_window_bbox ratio _ _ _ _ _ Hbest) as [bbox Hbbox].
  exists s, (s + length (normalize_text keyword)).
  eexists. split; [exact Hbest |]. split.
  { replace (s + _ - s) with (length (normalize_text keyword)) by lia.
    exact Hw. }
  unfold find_keyword_coordinates.
  apply lookup_lt_Some in Hpage as Hlt.
  rewrite (page_index_in_range (length pdf) p Hlt).
  rewrite Nat2Z.id, Hpage, Hbest, Hbbox.
  split; [reflexivity | reflexivity].
Qed.

End FindKeyword.

(** ** The fill plan *)

Section Planning.
Import PyStr Matching Data Processor.

Variable ratio : str -> str -> Q.
Variable py_lower : str -> str.
Variable py_int : str -> option Z.

(** *** The search never raises *)

Lemma find_keyword_coordinates_returns (pdf : list PdfPage) (keyword : str)
    (p : Z) (thr : Q) :
  exists r, find_keyword_coordinates ratio pdf keyword p thr = Returned r.
Proof.
  unfold find_keyword_coordinates.
  destruct ((p <? 0)%Z || (p >=? Z.of_nat (length pdf))%Z) eqn:E;
    [eexists; reflexivity |].
  apply orb_false_iff in E as [E1 E2].
  apply Z.ltb_ge in E1. rewrite Z.geb_leb in E2. apply Z.leb_gt in E2.
  destruct (lookup_lt_is_Some_2 pdf (Z.to_nat p)) as [page ->]; [lia |].
  destruct (best_fuzzy_window ratio (pg_chars page) keyword thr)
    as [[s e] |] eqn:Ebest; [| eexists; reflexivity].
  destruct (best_fuzzy_window_bbox ratio _ _ _ _ _ Ebest) as [bbox ->].
  eexists; reflexivity.
Qed.

Lemma search_on_page_returns (pdf : list PdfPage) (thr : Q) (p : Z)
    (candidates : list str) :
  exists r, search_on_page ratio pdf thr p candidates = Returned r.
Proof.
  induction candidates as [| cand rest IH]; cbn [search_on_page];
    [eexists; reflexivity |].
  destruct (find_keyword_coordinates_returns pdf cand p thr) as [[hit |] ->];
    [eexists; reflexivity | exact IH].
Qed.

Lemma search_pages_returns (pdf : list PdfPage) (thr : Q)
    (candidate_pages : list Z) (candidates : list str) :
  exists r, search_pages ratio pdf thr candidate_pages candidates = Returned r.
Proof.
  induction candidate_pages as [| p rest IH]; cbn [search_pages];
    [eexists; reflexivity |].
  destruct (search_on_page_returns pdf thr p candidates) as [[hit |] ->];
    [eexists; reflexivity | exact IH].
Qed.

(** *** Counting the items of a plan *)

Lemma plan_items_empty : plan_items ∅ = 0.
Proof. apply map_fold_empty. Qed.

Lemma plan_items_append (m : gmap Z (list DrawText)) (p : Z) (item : DrawText) :
  plan_items (plan_append m p item) = S (plan_items m).
Proof.
  unfold plan_items, plan_append.
  assert (Hcomm : forall (m' : gmap Z (list DrawText)) (j1 j2 : Z)
                    (z1 z2 : list DrawText) (y : nat),
             j1 <> j2 -> m' !! j1 = Some z1 -> m' !! j2 = Some z2 ->
             length z1 + (length z2 + y) = length z2 + (length z1 + y))
    by (intros; lia).
  destruct (m !! p) as [items |] eqn:E; cbn [default].
  - rewrite <- insert_delete_eq.
    rewrite map_fold_insert_L; [| apply Hcomm | apply lookup_delete_eq].
    rewrite (map_fold_delete_L _ _ p items m); [| apply Hcomm | exact E].
    rewrite length_app. simpl. lia.
  - rewrite map_fold_insert_L; [| apply Hcomm | exact E]. reflexivity.
Qed.

(** *** One key *)

(** What one iteration of the loop does to the statistics: an empty value
    changes nothing; any other value adds the key either to the matched
    keys, with one item more in the plan, or to the missing keys. *)
Lemma fill_key_accounts (pdf : list PdfPage)
    (per_key_overrides : list (str * Override))
    (selected_pages_global : option (list Z)) (thr : Q)
    (st : PlanState) (key value : str) :
  exists st',
    fill_key ratio pdf per_key_overrides selected_pages_global thr st (key, value)
    = Returned st'
    /\ (if is_empty value then st' = st
        else total_considered st' = S (total_considered st)
             /\ ((matched_keys st' = matched_keys st ++ [key]
                  /\ missing_keys st' = missing_keys st
                  /\ plan_items (draw_plan st') = S (plan_items (draw_plan st)))
                 \/ (matched_keys st' = matched_keys st
                     /\ missing_keys st' = missing_keys st ++ [key]
                     /\ draw_plan st' = draw_plan st))).
Proof.
  unfold fill_key. destruct (is_empty value); [eexists; split; reflexivity |].
  destruct (_resolve_override_for_key per_key_overrides key) as [canon_key ov].
  set (cands := candidates_of key canon_key ov).
  set (pidx := default CONST_PAGE_INDEX_DEFAULT (ov_page ov)).
  assert (Hfound : exists r,
             match ov_page ov with
             | Some _ =>
                 match search_on_page ratio pdf thr pidx cands with
                 | Raised => Raised
                 | Returned hit => Returned (pair pidx <$> hit)
                 end
             | None =>
                 search_pages ratio pdf thr
                   (candidate_pages_of selected_pages_global pidx) cands
             end = Returned r).
  { destruct (ov_page ov).
    - destruct (search_on_page_returns pdf thr pidx cands) as [r ->].
      eexists; reflexivity.
    - apply search_pages_returns. }
  destruct Hfound as [r ->].
  destruct r as [[p hit] |].
  - eexists. split; [reflexivity |]. cbn [total_considered matched_keys
      missing_keys draw_plan]. split; [reflexivity |]. left.
    repeat split. apply plan_items_append.
  - eexists. split; [reflexivity |]. cbn [total_considered matched_keys
      missing_keys draw_plan]. split; [reflexivity |]. right. repeat split.
Qed.

(** *** The loop *)

Lemma fill_loop_accounts (pdf : list PdfPage)
    (per_key_overrides : list (str * Override))
    (selected_pages_global : option (list Z)) (thr : Q)
    (items : list (str * str)) :
  forall st : PlanState,
    exists st',
      fill_loop ratio pdf per_key_overrides selected_pages_global thr st items
      = Returned st'
      /\ total_considered st' = total_considered st
                                + length (Spec.considered_keys items)
      /\ plan_items (draw_plan st') + length (matched_keys st)
         = plan_items (draw_plan st) + length (matched_keys st')
      /\ matched_keys st' ++ missing_keys st'
         ≡ₚ (matched_keys st ++ missing_keys st) ++ Spec.considered_keys items.
Proof.
  induction items as [| [key value] rest IH]; intros st; cbn [fill_loop].
  - exists st. cbn. rewrite app_nil_r. repeat split; [lia | reflexivity].
  - destruct (fill_key_accounts pdf per_key_overrides selected_pages_global thr
                st key value) as (st1 & -> & Hacc).
    destruct (IH st1) as (st' & Hloop & Htot & Hitems & Hkeys).
    exists st'. split; [exact Hloop |].
    unfold Spec.considered_keys in *. cbn [List.filter snd].
    destruct (is_empty value); cbn [negb map fst length].
    + subst st1. auto.
    + destruct Hacc as [Ht [(Hm & Hx & Hp) | (Hm & Hx & Hp)]].
      * rewrite Hm, Hx, Hp in *. rewrite length_app in Hitems. cbn in Hitems.
        repeat split; [lia | lia |].
        rewrite Hkeys. rewrite <- !app_assoc. apply Permutation_app_head.
        cbn [app]. apply Permutation_middle.
      * rewrite Hm, Hx, Hp in *.
        repeat split; [lia | lia |].
        rewrite Hkeys. rewrite <- !app_assoc. reflexivity.
Qed.

Lemma considered_keys_NoDup (items : list (str * str)) :
  NoDup (map fst items) -> NoDup (Spec.considered_keys items).
Proof.
  unfold Spec.considered_keys.
  induction items as [| [k v] rest IH]; cbn; [constructor |].
  intros Hnd. apply NoDup_cons in Hnd as [Hk Hrest].
  destruct (is_empty v); cbn; [now apply IH |].
  apply NoDup_cons. split; [| now apply IH].
  intros Hin. apply Hk. apply list_elem_of_In in Hin. apply list_elem_of_In.
  apply in_map_iff in Hin as ([k' v'] & <- & Hin).
  apply filter_In in Hin as [Hin _]. apply in_map_iff. now exists (k', v').
Qed.

(** C8: a fill always returns; its plan holds as many items as there are
    matched keys, and the matched keys together with the missing keys are,
    without repetition, the input keys that have a non-empty value. *)
Theorem fill_by_keywords_accounts (pdf : list PdfPage)
    (keyword_to_value : list (str * str))
    (per_key_overrides : list (str * Override))
    (pages : option str) (fuzzy_threshold : option Q) :
  NoDup (map fst keyword_to_value) ->
  exists st,
    fill_by_keywords ratio py_lower py_int pdf keyword_to_value
      per_key_overrides pages fuzzy_threshold = Returned st
    /\ plan_items (draw_plan st) = length (matched_keys st)
    /\ matched_keys st ++ missing_keys st
       ≡ₚ Spec.considered_keys keyword_to_value
    /\ NoDup (matched_keys st ++ missing_keys st)
    /\ total_considered st
       = length (matched_keys st) + length (missing_keys st).
Proof.
  intros Hnd. unfold fill_by_keywords.
  destruct (fill_loop_accounts pdf per_key_overrides
              (selected_pages py_lower py_int pages (Z.of_nat (length pdf)))
              (default CONST_FUZZY_MATCH_THRESHOLD fuzzy_threshold)
              keyword_to_value empty_plan)
    as (st & Hloop & Htot & Hitems & Hkeys).
  exists st. split; [exact Hloop |].
  cbn [empty_plan draw_plan matched_keys missing_keys total_considered app
       length] in *.
  rewrite plan_items_empty in Hitems.
  repeat split.
  - lia.
  - exact Hkeys.
  - rewrite Hkeys. now apply considered_keys_NoDup.
  - rewrite Htot. apply Permutation_length in Hkeys.
    rewrite length_app in Hkeys. lia.
Qed.

End Planning.

(** ** Scenario A: one verbatim label on the default page *)

Section ScenarioA.
Import PyStr Matching Data Processor Invariants.

Lemma is_space_norm_char (c : N) : is_space (norm_char c) = is_space c.
Proof.
  unfold norm_char. cbv beta zeta.
  destruct (c =? 65306)%N eqn:E1; [apply N.eqb_eq in E1; now subst |].
  destruct (c =? 12288)%N eqn:E2; [apply N.eqb_eq in E2; now subst |].
  destruct (c =? 10)%N eqn:E3; [apply N.eqb_eq in E3; now subst |].
  destruct (c =? 13)%N eqn:E4; [apply N.eqb_eq in E4; now subst |].
  reflexivity.
Qed.

Lemma lstrip_id (s : str) :
  forallb (fun c => negb (is_space c)) s = true -> lstrip s = s.
Proof.
  destruct s as [| c s]; [reflexivity |]. simpl. intros H.
  apply andb_prop in H as [Hc _]. apply negb_true_iff in Hc. now rewrite Hc.
Qed.

Lemma strip_id (s : str) :
  forallb (fun c => negb (is_space c)) s = true -> strip s = s.
Proof.
  intros H. unfold strip, rstrip. rewrite (lstrip_id s H).
  rewrite lstrip_id; [apply rev_involutive |].
  rewrite forallb_forall in *. intros c Hc. apply H. now apply in_rev.
Qed.

Lemma normalize_text_plain (s : str) :
  forallb (fun c => negb (is_space c)) s = true ->
  normalize_text s = map norm_char s.
Proof.
  intros H. rewrite normalize_text_map. apply strip_id.
  rewrite forallb_forall in *. intros c Hc.
  apply in_map_iff in Hc as (c0 & <- & Hc0).
  rewrite is_space_norm_char. now apply H.
Qed.

Lemma split_aliases_plain (keyword : str) :
  keyword <> [] ->
  forallb (fun c => negb (is_space c)) keyword = true ->
  contains CONST_ALIAS_SEPARATOR keyword = false ->
  Text.split_aliases keyword = [keyword].
Proof.
  intros Hne Hns Hsep. unfold Text.split_aliases, Text.split_aliases_sep.
  rewrite Hsep. cbn [negb fold_left]. rewrite (strip_id keyword Hns).
  destruct keyword; [congruence | reflexivity].
Qed.

Variable ratio : str -> str -> Q.
Hypothesis contract : Spec.ratio_contract ratio.

(** The hit on the first exact window of a page. *)
Lemma find_keyword_first_exact (pdf : list PdfPage) (p : nat) (page : PdfPage)
    (keyword : str) (i : nat) (thr : Q) (bbox : Coords.Rect) :
  pdf !! p = Some page ->
  normalize_text keyword <> [] ->
  i + length (normalize_text keyword) <= length (pg_chars page) ->
  window_text (Spec.page_texts (pg_chars page)) i
    (length (normalize_text keyword)) = normalize_text keyword ->
  (forall j, j < i ->
     window_text (Spec.page_texts (pg_chars page)) j
       (length (normalize_text keyword)) <> normalize_text keyword) ->
  (thr <= 1)%Q ->
  bbox_of_chars (pg_chars page) i (i + length (normalize_text keyword))
    = Some bbox ->
  find_keyword_coordinates ratio pdf keyword (Z.of_nat p) thr
  = Returned
      (Some (mkHit (Z.of_nat p) bbox
               (_to_reportlab_xy
                  (fst (Coords.right_of_bbox_baseline bbox
                          STYLE_OFFSET_X_DEFAULT STYLE_OFFSET_Y_DEFAULT))
                  (snd (Coords.right_of_bbox_baseline bbox
                          STYLE_OFFSET_X_DEFAULT STYLE_OFFSET_Y_DEFAULT))
                  (pg_height page)))).
Proof.
  intros Hpage HK Hin Hwin Hfirst Hthr Hbbox.
  destruct (best_fuzzy_window_exact ratio contract (pg_chars page) keyword thr
              i HK Hin Hwin Hthr) as (s & Hbest & Hw & Hle & _).
  assert (s = i) as ->.
  { destruct (Nat.eq_dec s i) as [-> | Hne]; [reflexivity |].
    exfalso. apply (Hfirst s); [lia | exact Hw]. }
  unfold find_keyword_coordinates.
  apply lookup_lt_Some in Hpage as Hlt.
  rewrite (page_index_in_range (length pdf) p Hlt).
  rewrite Nat2Z.id, Hpage, Hbest, Hbbox. reflexivity.
Qed.

(** C1, as the code has it: a label without white space or alias
    separator, present verbatim on the first page, first at the characters
    whose box is [(x0, top, x1, bottom)], filled with a non-empty value at
    threshold 0.6 and with neither overrides nor page selection, gives a
    plan of exactly one item, on that page, at [x = x1 + 50.0] and
    [y = page_height - bottom]; the key is matched and none is missing. *)
Theorem fill_by_keywords_scenario_A
    (py_lower : str -> str) (py_int : str -> option Z)
    (pdf : list PdfPage) (page : PdfPage) (keyword value : str) (i : nat)
    (x0 top x1 bottom : Q) :
  pdf !! 0 = Some page ->
  keyword <> [] ->
  forallb (fun c => negb (is_space c)) keyword = true ->
  contains CONST_ALIAS_SEPARATOR keyword = false ->
  Spec.verbatim_at (pg_chars page) keyword i ->
  (forall j, j < i ->
     window_text (Spec.page_texts (pg_chars page)) j (length keyword)
     <> normalize_text keyword) ->
  bbox_of_chars (pg_chars page) i (i + length keyword)
    = Some (x0, top, x1, bottom) ->
  value <> [] ->
  exists st item,
    fill_by_keywords ratio py_lower py_int pdf [(keyword, value)] [] None
      (Some (6 # 10)) = Returned st
    /\ draw_plan st = {[ 0%Z := [item] ]}
    /\ dt_text item = value
    /\ (dt_x item == x1 + 50)%Q
    /\ (dt_y item == pg_height page - bottom)%Q
    /\ matched_keys st = [keyword]
    /\ missing_keys st = [].
Proof.
  intros Hpage Hne Hns Hsep Hverb Hfirst Hbbox Hval.
  pose proof (normalize_text_plain keyword Hns) as HK.
  assert (HL : length (normalize_text keyword) = length keyword)
    by (rewrite HK; apply length_map).
  assert (HKne : normalize_text keyword <> []).
  { rewrite HK. destruct keyword; [congruence | discriminate]. }
  destruct (verbatim_window_core (pg_chars page) [] keyword [] i)
    as [Hin Hwin].
  { cbn [app]. now rewrite app_nil_r. }
  { exact Hne. }
  { rewrite forallb_forall in *. intros c Hc. rewrite is_space_norm_char.
    now apply Hns. }
  cbn [length] in Hin, Hwin. rewrite Nat.add_0_r in Hin, Hwin.
  rewrite <- HK, <- HL in Hwin. rewrite <- HL in Hin, Hfirst, Hbbox.
  pose proof (find_keyword_first_exact pdf 0 page keyword i (6 # 10)
                (x0, top, x1, bottom) Hpage HKne Hin Hwin Hfirst
                ltac:(vm_compute; discriminate) Hbbox) as Hfind.
  unfold fill_by_keywords. cbn [selected_pages default fill_loop].
  unfold fill_key.
  destruct value as [| v0 vs]; [congruence |]. cbn [is_empty].
  cbn [_resolve_override_for_key lookup_override List.find fmap option_fmap
       option_map no_override ov_page ov_offset_x ov_offset_y ov_max_width
       ov_line_spacing default].
  unfold candidates_of. cbn [ov_aliases no_override].
  rewrite (split_aliases_plain keyword Hne Hns Hsep).
  cbn [candidate_pages_of search_pages search_on_page].
  change CONST_PAGE_INDEX_DEFAULT with (Z.of_nat 0).
  change (id (6 # 10)) with (6 # 10). rewrite Hfind.
  eexists. eexists. split; [reflexivity |].
  cbn [draw_plan matched_keys missing_keys empty_plan dt_text dt_x dt_y app
       anchor_reportlab fst snd Coords.adjust_coords
       Coords.right_of_bbox_baseline _to_reportlab_xy].
  split.
  { unfold plan_append. rewrite lookup_empty. cbn [default from_option app].
    apply insert_empty. }
  cbn [dt_text dt_x dt_y].
  split; [reflexivity |].
  unfold STYLE_OFFSET_X_DEFAULT, STYLE_OFFSET_Y_DEFAULT.
  split; [ring |]. split; [ring |]. split; reflexivity.
Qed.

End ScenarioA.

(** ** A page selection that selects nothing *)

Section PageSelection.
Import PyStr Matching Data Processor.

Variable ratio : str -> str -> Q.
Variable py_lower : str -> str.
Variable py_int : str -> option Z.

Lemma z_range_In (lo hi p : Z) : In p (Page.z_range lo hi) <-> (lo <= p < hi)%Z.
Proof.
  unfold Page.z_range. rewrite in_map_iff. split.
  - intros (k & <- & Hk). apply in_seq in Hk. lia.
  - intros Hp. exists (Z.to_nat (p - lo)). split; [lia |].
    apply in_seq. lia.
Qed.

Lemma search_on_page_finds (pdf : list PdfPage) (thr : Q) (p : Z)
    (candidates : list str) (cand : str) (hit : KeywordHit) :
  In cand candidates ->
  find_keyword_coordinates ratio pdf cand p thr = Returned (Some hit) ->
  exists hit', search_on_page ratio pdf thr p candidates = Returned (Some hit').
Proof.
  intros Hin Hfind. induction candidates as [| c rest IH]; [destruct Hin |].
  cbn [search_on_page].
  destruct (find_keyword_coordinates_returns ratio pdf c p thr) as [[h |] Hc];
    rewrite Hc; [eexists; reflexivity |].
  destruct Hin as [-> | Hin]; [congruence | now apply IH].
Qed.

Lemma search_pages_finds (pdf : list PdfPage) (thr : Q)
    (candidate_pages : list Z) (candidates : list str) (p : Z) (cand : str)
    (hit : KeywordHit) :
  In p candidate_pages -> In cand candidates ->
  find_keyword_coordinates ratio pdf cand p thr = Returned (Some hit) ->
  exists found,
    search_pages ratio pdf thr candidate_pages candidates
    = Returned (Some found).
Proof.
  intros Hp Hc Hfind. induction candidate_pages as [| q rest IH]; [destruct Hp |].
  cbn [search_pages].
  destruct (search_on_page_returns ratio pdf thr q candidates) as [[h |] Hq];
    rewrite Hq; [eexists; reflexivity |].
  destruct Hp as [-> | Hp]; [| now apply IH].
  destruct (search_on_page_finds pdf thr p candidates cand hit Hc Hfind)
    as [h' Hh']. congruence.
Qed.

Lemma selected_pages_empty_parse (pages : str) (total_pages : Z) :
  pages <> [] ->
  Page.parse_page_selection py_lower py_int pages total_pages true = [] ->
  selected_pages py_lower py_int (Some pages) total_pages
  = Some (Page.z_range 0 total_pages).
Proof.
  intros Hne Hparse. unfold selected_pages.
  destruct pages; [congruence |]. cbn [is_empty]. now rewrite Hparse.
Qed.

Lemma z_range_all (n : nat) :
  Page.z_range 0 (Z.of_nat n) = map Z.of_nat (seq 0 n).
Proof.
  unfold Page.z_range. rewrite Z.sub_0_r, Nat2Z.id. apply map_ext.
  intros k. lia.
Qed.

Lemma seq_split (p n : nat) :
  p < n -> seq 0 n = seq 0 p ++ p :: seq (S p) (n - S p).
Proof.
  intros Hp. replace n with (p + S (n - S p)) at 1 by lia.
  rewrite List.seq_app. reflexivity.
Qed.

Lemma search_on_page_none (pdf : list PdfPage) (thr : Q) (p : Z)
    (candidates : list str) :
  (forall c, In c candidates ->
     find_keyword_coordinates ratio pdf c p thr = Returned None) ->
  search_on_page ratio pdf thr p candidates = Returned None.
Proof.
  induction candidates as [| c rest IH]; intros Hnone; [reflexivity |].
  cbn [search_on_page]. rewrite (Hnone c) by now left.
  apply IH. intros c' Hc'. apply Hnone. now right.
Qed.

Lemma search_on_page_first (pdf : list PdfPage) (thr : Q) (p : Z)
    (pre : list str) (cand : str) (post : list str) (hit : KeywordHit) :
  (forall c, In c pre ->
     find_keyword_coordinates ratio pdf c p thr = Returned None) ->
  find_keyword_coordinates ratio pdf cand p thr = Returned (Some hit) ->
  search_on_page ratio pdf thr p (pre ++ cand :: post) = Returned (Some hit).
Proof.
  intros Hpre Hfind. induction pre as [| c pre IH]; cbn [app search_on_page].
  - now rewrite Hfind.
  - rewrite (Hpre c) by now left. apply IH. intros c' Hc'. apply Hpre.
    now right.
Qed.

Lemma search_pages_none (pdf : list PdfPage) (thr : Q)
    (candidate_pages : list Z) (candidates : list str) :
  (forall q, In q candidate_pages ->
     search_on_page ratio pdf thr q candidates = Returned None) ->
  search_pages ratio pdf thr candidate_pages candidates = Returned None.
Proof.
  induction candidate_pages as [| q rest IH]; intros Hnone; [reflexivity |].
  cbn [search_pages]. rewrite (Hnone q) by now left.
  apply IH. intros q' Hq'. apply Hnone. now right.
Qed.

Lemma search_pages_first (pdf : list PdfPage) (thr : Q)
    (before : list Z) (p : Z) (after : list Z) (candidates : list str)
    (hit : KeywordHit) :
  (forall q, In q before ->
     search_on_page ratio pdf thr q candidates = Returned None) ->
  search_on_page ratio pdf thr p candidates = Returned (Some hit) ->
  search_pages ratio pdf thr (before ++ p :: after) candidates
  = Returned (Some (p, hit)).
Proof.
  intros Hbefore Hfind.
  induction before as [| q before IH]; cbn [app search_pages].
  - now rewrite Hfind.
  - rewrite (Hbefore q) by now left. apply IH. intros q' Hq'. apply Hbefore.
    now right.
Qed.

(** C10: when [pages] is a non-empty string that selects no valid page,
    [fill_by_keywords] runs its loop over the keys with every page of the
    document selected, in order.  For a key without a page of its own the
    pages searched are then all the pages of the document: a candidate
    found on any page makes the key a matched one; the item is planned on
    the first page on which a candidate is found, for the first candidate
    found there, also when that page is not the default page; and the key
    is reported missing only when no candidate is found on any page. *)
Theorem empty_selection_searches_every_page (pdf : list PdfPage)
    (per_key_overrides : list (str * Override)) (pages : str) (thr : Q) :
  pages <> [] ->
  Page.parse_page_selection py_lower py_int pages (Z.of_nat (length pdf)) true
    = [] ->
  let selected :=
    selected_pages py_lower py_int (Some pages) (Z.of_nat (length pdf)) in
  (forall page_index,
      candidate_pages_of selected page_index = map Z.of_nat (seq 0 (length pdf)))
  /\ (forall p,
        In p (candidate_pages_of selected CONST_PAGE_INDEX_DEFAULT)
        <-> (0 <= p < Z.of_nat (length pdf))%Z)
  /\ (forall (st : PlanState) (key value : str) (p : Z) (cand : str)
             (hit : KeywordHit),
        value <> [] ->
        ov_page (snd (_resolve_override_for_key per_key_overrides key)) = None ->
        (0 <= p < Z.of_nat (length pdf))%Z ->
        In cand
          (candidates_of key
             (fst (_resolve_override_for_key per_key_overrides key))
             (snd (_resolve_override_for_key per_key_overrides key))) ->
        find_keyword_coordinates ratio pdf cand p thr = Returned (Some hit) ->
        exists st',
          fill_key ratio pdf per_key_overrides selected thr st (key, value)
          = Returned st'
          /\ matched_keys st' = matched_keys st ++ [key]
          /\ missing_keys st' = missing_keys st)
  /\ (forall keyword_to_value fuzzy_threshold,
        fill_by_keywords ratio py_lower py_int pdf keyword_to_value
          per_key_overrides (Some pages) fuzzy_threshold
        = fill_loop ratio pdf per_key_overrides
            (Some (map Z.of_nat (seq 0 (length pdf))))
            (default CONST_FUZZY_MATCH_THRESHOLD fuzzy_threshold) empty_plan
            keyword_to_value)
  /\ (forall (st : PlanState) (key value : str) (p : nat)
             (pre : list str) (cand : str) (post : list str)
             (hit : KeywordHit),
        let canon_key :=
          fst (_resolve_override_for_key per_key_overrides key) in
        let ov := snd (_resolve_override_for_key per_key_overrides key) in
        value <> [] ->
        ov_page ov = None ->
        p < length pdf ->
        candidates_of key canon_key ov = pre ++ cand :: post ->
        (forall q c, q < p -> In c (candidates_of key canon_key ov) ->
           find_keyword_coordinates ratio pdf c (Z.of_nat q) thr
           = Returned None) ->
        (forall c, In c pre ->
           find_keyword_coordinates ratio pdf c (Z.of_nat p) thr
           = Returned None) ->
        find_keyword_coordinates ratio pdf cand (Z.of_nat p) thr
        = Returned (Some hit) ->
        let xy :=
          Coords.adjust_coords (fst (anchor_reportlab hit))
            (snd (anchor_reportlab hit))
            (default STYLE_OFFSET_X_DEFAULT (ov_offset_x ov)
             - STYLE_OFFSET_X_DEFAULT)
            (default STYLE_OFFSET_Y_DEFAULT (ov_offset_y ov)
             - STYLE_OFFSET_Y_DEFAULT) in
        fill_key ratio pdf per_key_overrides selected thr st (key, value)
        = Returned
            (mkPlan
               (plan_append (draw_plan st) (Z.of_nat p)
                  (mkDraw value (fst xy) (snd xy) (ov_max_width ov)
                     (ov_line_spacing ov)))
               (S (total_considered st)) (matched_keys st ++ [key])
               (missing_keys st)))
  /\ (forall (st : PlanState) (key value : str),
        let canon_key :=
          fst (_resolve_override_for_key per_key_overrides key) in
        let ov := snd (_resolve_override_for_key per_key_overrides key) in
        value <> [] ->
        ov_page ov = None ->
        (forall q c, q < length pdf ->
           In c (candidates_of key canon_key ov) ->
           find_keyword_coordinates ratio pdf c (Z.of_nat q) thr
           = Returned None) ->
        fill_key ratio pdf per_key_overrides selected thr st (key, value)
        = Returned
            (mkPlan (draw_plan st) (S (total_considered st))
               (matched_keys st) (missing_keys st ++ [key]))).
Proof.
  intros Hne Hparse selected.
  assert (Hsel : selected = Some (Page.z_range 0 (Z.of_nat (length pdf))))
    by now apply selected_pages_empty_parse.
  rewrite Hsel. cbn [candidate_pages_of].
  split; [| split; [| split; [| split; [| split]]]].
  - intros _. apply z_range_all.
  - intros p. apply z_range_In.
  - intros st key value p cand hit Hval Hpage Hp Hcand Hfind.
    unfold fill_key. destruct value as [| v0 vs]; [congruence |].
    cbn [is_empty].
    destruct (_resolve_override_for_key per_key_overrides key)
      as [canon_key ov]. cbn [fst snd] in Hpage, Hcand. rewrite Hpage.
    cbn [candidate_pages_of].
    destruct (search_pages_finds pdf thr
                (Page.z_range 0 (Z.of_nat (length pdf)))
                (candidates_of key canon_key ov) p cand hit)
      as [[q h] Hfound]; [now apply z_range_In | exact Hcand | exact Hfind |].
    rewrite Hfound. eexists. split; [reflexivity |]. split; reflexivity.
  - intros keyword_to_value fuzzy_threshold. unfold fill_by_keywords.
    fold selected. now rewrite Hsel, z_range_all.
  - intros st key value p pre cand post hit Hval Hpage Hp Hcands Hearlier
      Hpre Hfind.
    unfold fill_key.
    destruct value as [| v0 vs]; [congruence |]. cbn [is_empty].
    destruct (_resolve_override_for_key per_key_overrides key)
      as [canon_key ov]. cbn [fst snd] in *. rewrite Hpage.
    cbn [candidate_pages_of].
    rewrite z_range_all, (seq_split p (length pdf) Hp), map_app.
    cbn [map].
    rewrite (search_pages_first pdf thr _ (Z.of_nat p) _ _ hit).
    + reflexivity.
    + intros q Hq. apply in_map_iff in Hq as (q' & <- & Hq').
      apply in_seq in Hq'. apply search_on_page_none.
      intros c Hc. apply Hearlier; [lia | exact Hc].
    + rewrite Hcands. now apply search_on_page_first.
  - intros st key value Hval Hpage Hnone. unfold fill_key.
    destruct value as [| v0 vs]; [congruence |]. cbn [is_empty].
    destruct (_resolve_override_for_key per_key_overrides key)
      as [canon_key ov]. cbn [fst snd] in *. rewrite Hpage.
    cbn [candidate_pages_of].
    rewrite search_pages_none; [reflexivity |].
    intros q Hq. apply z_range_In in Hq. apply search_on_page_none.
    intros c Hc. rewrite <- (Z2Nat.id q) by lia. apply Hnone; [lia | exact Hc].
Qed.

End PageSelection.

(** ** The properties on concrete documents *)

Section Concrete.
Import PyStr Matching Data Engines Processor Examples.

Lemma fill_by_keywords_scenario_A_witness :
  exists st item,
    fill_by_keywords Difflib.ratio ascii_lower ascii_int [contract_page]
      [(kw_id_number, lit "123456789012345678")] [] None (Some (6 # 10))
    = Returned st
    /\ draw_plan st = {[ 0%Z := [item] ]}
    /\ dt_text item = lit "123456789012345678"
    /\ (dt_x item == 132 + 50)%Q
    /\ (dt_y item == pg_height contract_page - 142)%Q
    /\ matched_keys st = [kw_id_number]
    /\ missing_keys st = [].
Proof.
  apply (fill_by_keywords_scenario_A Difflib.ratio difflib_ratio_contract
           ascii_lower ascii_int [contract_page] contract_page kw_id_number
           (lit "123456789012345678") 5 72 130 132 142).
  - reflexivity.
  - discriminate.
  - reflexivity.
  - reflexivity.
  - reflexivity.
  - intros j Hj.
    do 5 (destruct j as [| j]; [vm_compute; discriminate |]). lia.
  - vm_compute. reflexivity.
  - discriminate.
Defined.

(** C1 as stated fails on four documents that hold the keyword verbatim:
    a label with a run of blanks inside scores 0.5 against every window
    and is reported missing; a label with the alias separator inside is
    anchored at the box of its first alias; a label on the second page is
    not searched when no page is selected; a label printed twice is
    anchored at its first print, whatever box was meant. *)
Lemma scenario_A_stated_fails :
  ~ Spec.scenario_A_stated Difflib.ratio ascii_lower ascii_int [gap_page] 0
      (lit "A    B") (lit "v")
  /\ ~ Spec.scenario_A_stated Difflib.ratio ascii_lower ascii_int
         [alias_page] 0 (lit "X|Y") (lit "v")
  /\ ~ Spec.scenario_A_stated Difflib.ratio ascii_lower ascii_int
         later_page_pdf 1 (lit "K2:") (lit "v")
  /\ ~ Spec.scenario_A_stated Difflib.ratio ascii_lower ascii_int
         [twice_page] 0 (lit "K:") (lit "v").
Proof.
  split; [| split; [| split]]; intros H.
  - destruct (H gap_page 0%nat 72 100 144 112)%Q
      as (st & item & Hret & _ & _ & _ & Hmatched & _);
      [reflexivity | reflexivity | vm_compute; reflexivity | discriminate |].
    vm_compute in Hret. injection Hret as <-. discriminate Hmatched.
  - destruct (H alias_page 0%nat 72 100 108 112)%Q
      as (st & item & Hret & Hplan & Hx & _);
      [reflexivity | reflexivity | vm_compute; reflexivity | discriminate |].
    vm_compute in Hret. injection Hret as <-.
    apply (f_equal (fun m => m !! 0%Z)) in Hplan. vm_compute in Hplan.
    injection Hplan as <-. vm_compute in Hx. discriminate Hx.
  - destruct (H (mkPage 595 842 (line_chars (lit "K2:") 72 30)) 0%nat 72 30
                108 42)%Q
      as (st & item & Hret & _ & _ & _ & Hmatched & _);
      [reflexivity | reflexivity | vm_compute; reflexivity | discriminate |].
    vm_compute in Hret. injection Hret as <-. discriminate Hmatched.
  - destruct (H twice_page 2%nat 96 100 120 112)%Q
      as (st & item & Hret & Hplan & Hx & _);
      [reflexivity | reflexivity | vm_compute; reflexivity | discriminate |].
    vm_compute in Hret. injection Hret as <-.
    apply (f_equal (fun m => m !! 0%Z)) in Hplan. vm_compute in Hplan.
    injection Hplan as <-. vm_compute in Hx. discriminate Hx.
Qed.

Lemma find_keyword_verbatim_witness :
  exists s e hit,
    best_fuzzy_window Difflib.ratio (pg_chars contract_page) kw_id_number 1
    = Some (s, e)
    /\ window_text (Spec.page_texts (pg_chars contract_page)) s (e - s)
       = normalize_text kw_id_number
    /\ find_keyword_coordinates Difflib.ratio [contract_page] kw_id_number
         (Z.of_nat 0) 1 = Returned (Some hit)
    /\ bbox_of_chars (pg_chars contract_page) s e = Some (bbox_pdfplumber hit).
Proof.
  apply (find_keyword_verbatim Difflib.ratio difflib_ratio_contract
           [contract_page] 0 contract_page kw_id_number 5 1).
  - reflexivity.
  - reflexivity.
  - discriminate.
  - reflexivity.
  - discriminate.
Defined.

(** C2 as stated fails on a keyword with a space inside: the page spells
    [A B] verbatim, yet the window texts are [A], the empty string and [B],
    the best ratio is 0.8 and no hit comes back at threshold 1. *)
Lemma verbatim_hit_stated_fails :
  ~ Spec.verbatim_hit_stated Difflib.ratio (pg_chars spaced_page) (lit "A B") 1.
Proof.
  unfold Spec.verbatim_hit_stated. intros H.
  destruct H as (s & e & Hbest & _).
  - exists 0. reflexivity.
  - discriminate.
  - vm_compute in Hbest. discriminate.
Qed.

Lemma best_fuzzy_window_monotone_witness :
  (forall keyword w,
      best_fuzzy_window Difflib.ratio (pg_chars contract_page) keyword (95 # 100)
      = Some w ->
      best_fuzzy_window Difflib.ratio (pg_chars contract_page) keyword (5 # 10)
      = Some w)
  /\ (forall keywords keyword,
        In keyword (Spec.matched_at Difflib.ratio (pg_chars contract_page)
                      (95 # 100) keywords) ->
        In keyword (Spec.matched_at Difflib.ratio (pg_chars contract_page)
                      (5 # 10) keywords)).
Proof.
  apply (best_fuzzy_window_monotone Difflib.ratio (pg_chars contract_page)
           (5 # 10) (95 # 100)).
  reflexivity.
Defined.

Lemma best_fuzzy_window_in_range_witness :
  (0 <= 0 /\ 0 < 4 /\ 4 <= length (pg_chars contract_page))
  /\ 4 - 0 = length (normalize_text kw_company_short)
  /\ is_Some (bbox_of_chars (pg_chars contract_page) 0 4).
Proof.
  apply (best_fuzzy_window_in_range Difflib.ratio (pg_chars contract_page)
           kw_company_short (6 # 10) 0 4).
  vm_compute. reflexivity.
Defined.

Lemma fill_by_keywords_accounts_witness :
  exists st,
    fill_by_keywords Difflib.ratio ascii_lower ascii_int two_page_pdf
      [(lit "K1:", lit "V1"); (lit "K2:", lit "V2"); (lit "K3:", [])] []
      (Some (lit "1")) (Some (95 # 100)) = Returned st
    /\ plan_items (draw_plan st) = length (matched_keys st)
    /\ matched_keys st ++ missing_keys st
       ≡ₚ Spec.considered_keys
            [(lit "K1:", lit "V1"); (lit "K2:", lit "V2"); (lit "K3:", [])]
    /\ NoDup (matched_keys st ++ missing_keys st)
    /\ total_considered st
       = length (matched_keys st) + length (missing_keys st).
Proof.
  apply (fill_by_keywords_accounts Difflib.ratio ascii_lower ascii_int
           two_page_pdf
           [(lit "K1:", lit "V1"); (lit "K2:", lit "V2"); (lit "K3:", [])] []
           (Some (lit "1")) (Some (95 # 100))).
  apply (bool_decide_unpack _). vm_compute. reflexivity.
Defined.

Lemma empty_selection_searches_every_page_witness :
  let selected :=
    selected_pages ascii_lower ascii_int (Some (lit "999"))
      (Z.of_nat (length two_page_pdf)) in
  candidate_pages_of selected CONST_PAGE_INDEX_DEFAULT = [0%Z; 1%Z]
  /\ fill_by_keywords Difflib.ratio ascii_lower ascii_int two_page_pdf
       [(lit "K2:", lit "V2")] [] (Some (lit "999")) (Some (95 # 100))
     = fill_loop Difflib.ratio two_page_pdf [] (Some [0%Z; 1%Z]) (95 # 100)
         empty_plan [(lit "K2:", lit "V2")]
  /\ (exists item,
        fill_key Difflib.ratio two_page_pdf [] selected (95 # 100) empty_plan
          (lit "K2:", lit "V2")
        = Returned (mkPlan {[ 1%Z := [item] ]} 1 [lit "K2:"] [])
        /\ dt_text item = lit "V2"
        /\ dt_x item = (108 + 50 + (50 - 50))%Q
        /\ dt_y item = (842 - (42 + 0) + (0 - 0))%Q)
  /\ fill_key Difflib.ratio two_page_pdf [] selected (95 # 100) empty_plan
       (lit "ZZ", lit "V")
     = Returned (mkPlan ∅ 1 [] [lit "ZZ"]).
Proof.
  destruct (empty_selection_searches_every_page Difflib.ratio ascii_lower
              ascii_int two_page_pdf [] (lit "999") (95 # 100))
    as (Hpages & _ & _ & Hloop & Hfirst & Hmissing).
  - discriminate.
  - vm_compute. reflexivity.
  - split; [apply Hpages |]. split; [apply Hloop |]. split.
    + eexists. split.
      * apply (Hfirst empty_plan (lit "K2:") (lit "V2") 1%nat [] (lit "K2:")
                 []).
        -- discriminate.
        -- reflexivity.
        -- simpl. lia.
        -- vm_compute. reflexivity.
        -- intros q c Hq Hc. assert (q = 0%nat) as -> by lia.
           vm_compute in Hc. destruct Hc as [<- | []].
           vm_compute. reflexivity.
        -- intros c [].
        -- vm_compute. reflexivity.
      * repeat split; reflexivity.
    + apply (Hmissing empty_plan (lit "ZZ") (lit "V")).
      * discriminate.
      * reflexivity.
      * intros q c Hq Hc. vm_compute in Hc. destruct Hc as [<- | []].
        simpl in Hq.
        destruct q as [| [| q]]; [vm_compute; reflexivity .. | lia].
Defined.

(** The runs of [tests/test_page_range_param.py] and of Scenario B. *)

Example page_selection_999_matches_both :
  match fill_by_keywords Difflib.ratio ascii_lower ascii_int two_page_pdf
          [(lit "K1:", lit "V1"); (lit "K2:", lit "V2")] []
          (Some (lit "999")) (Some (95 # 100)) with
  | Returned st =>
      matched_keys st = [lit "K1:"; lit "K2:"] /\ missing_keys st = []
  | Raised => False
  end.
Proof. vm_compute. split; reflexivity. Qed.

Example page_selection_1_matches_first :
  match fill_by_keywords Difflib.ratio ascii_lower ascii_int two_page_pdf
          [(lit "K1:", lit "V1"); (lit "K2:", lit "V2")] []
          (Some (lit "1")) (Some (95 # 100)) with
  | Returned st =>
      matched_keys st = [lit "K1:"] /\ missing_keys st = [lit "K2:"]
  | Raised => False
  end.
Proof. vm_compute. split; reflexivity. Qed.

Example scenario_B_strict_misses :
  match fill_by_keywords Difflib.ratio ascii_lower ascii_int [contract_page]
          [(kw_company_short, lit "ACME")] [] None (Some (95 # 100)) with
  | Returned st => matched_keys st = [] /\ missing_keys st = [kw_company_short]
  | Raised => False
  end.
Proof. vm_compute. split; reflexivity. Qed.

Example scenario_B_loose_matches :
  match fill_by_keywords Difflib.ratio ascii_lower ascii_int [contract_page]
          [(kw_company_short, lit "ACME")] [] None (Some (5 # 10)) with
  | Returned st => matched_keys st = [kw_company_short] /\ missing_keys st = []
  | Raised => False
  end.
Proof. vm_compute. split; reflexivity. Qed.

End Concrete.

(** * Further properties of the code *)

(** ** Normal forms of [strip] and [normalize_text] *)

Section NormalForms.
Import PyStr Matching Invariants Shapes.

Lemma lstrip_starts_clean (s : str) : starts_clean (lstrip s).
Proof.
  induction s as [| c s IH]; simpl; [exact I |].
  destruct (is_space c) eqn:E; [exact IH | exact E].
Qed.

Lemma lstrip_clean_id (s : str) : starts_clean s -> lstrip s = s.
Proof. destruct s as [| c s]; simpl; [reflexivity | now intros ->]. Qed.

Lemma rstrip_ends_clean (s : str) : ends_clean (rstrip s).
Proof.
  unfold ends_clean, rstrip. rewrite rev_involutive. apply lstrip_starts_clean.
Qed.

Lemma rstrip_keeps_start (s : str) : starts_clean s -> starts_clean (rstrip s).
Proof.
  intros Hs. destruct (rstrip_split s) as [trail Hsplit].
  destruct (rstrip s) as [| c r]; [exact I |].
  rewrite Hsplit in Hs. exact Hs.
Qed.

Lemma strip_clean (s : str) : starts_clean (strip s) /\ ends_clean (strip s).
Proof.
  unfold strip. split.
  - apply rstrip_keeps_start, lstrip_starts_clean.
  - apply rstrip_ends_clean.
Qed.

Lemma strip_clean_id (s : str) : starts_clean s -> ends_clean s -> strip s = s.
Proof.
  intros Hs He. unfold strip, rstrip. rewrite (lstrip_clean_id s Hs).
  rewrite (lstrip_clean_id (rev s) He). apply rev_involutive.
Qed.

Lemma strip_idempotent (s : str) : strip (strip s) = strip s.
Proof. destruct (strip_clean s). now apply strip_clean_id. Qed.

Lemma In_strip (s : str) (c : N) : In c (strip s) -> In c s.
Proof.
  intros Hc. destruct (strip_split s) as (lead & trail & Hsplit).
  rewrite Hsplit. apply in_or_app. right. apply in_or_app. now left.
Qed.

Lemma norm_char_idempotent (c : N) : norm_char (norm_char c) = norm_char c.
Proof.
  unfold norm_char. cbv beta zeta.
  destruct (c =? 65306)%N eqn:E1; [reflexivity |].
  destruct (c =? 12288)%N eqn:E2; [reflexivity |].
  destruct (c =? 10)%N eqn:E3; [reflexivity |].
  destruct (c =? 13)%N eqn:E4; [reflexivity |].
  now rewrite E1, E2, E3, E4.
Qed.

Lemma norm_char_not_replaced (c : N) : is_replaced (norm_char c) = false.
Proof.
  unfold norm_char, is_replaced. cbv beta zeta.
  destruct (c =? 65306)%N eqn:E1; [reflexivity |].
  destruct (c =? 12288)%N eqn:E2; [reflexivity |].
  destruct (c =? 10)%N eqn:E3; [reflexivity |].
  destruct (c =? 13)%N eqn:E4; [reflexivity |].
  now rewrite E1, E2, E3, E4.
Qed.

Lemma In_normalize_text (s : str) (c : N) :
  In c (normalize_text s) -> exists c0, In c0 s /\ c = norm_char c0.
Proof.
  rewrite normalize_text_map. intros Hc. apply In_strip in Hc.
  apply in_map_iff in Hc as (c0 & <- & Hc0). now exists c0.
Qed.

(** [normalize_text] is idempotent. *)
Theorem normalize_text_idempotent (s : str) :
  normalize_text (normalize_text s) = normalize_text s.
Proof.
  rewrite (normalize_text_map (normalize_text s)).
  replace (map norm_char (normalize_text s)) with (normalize_text s).
  - rewrite normalize_text_map. apply strip_idempotent.
  - rewrite <- (map_id (normalize_text s)) at 1. apply map_ext_in.
    intros c Hc. apply In_normalize_text in Hc as (c0 & _ & ->).
    symmetry. apply norm_char_idempotent.
Qed.

(** A normalised string neither starts nor ends with white space, and holds
    no full-width colon, ideographic space, line feed or carriage return. *)
Theorem normalize_text_normal_form (s : str) :
  starts_clean (normalize_text s)
  /\ ends_clean (normalize_text s)
  /\ forall c, In c (normalize_text s) -> is_replaced c = false.
Proof.
  split; [| split].
  - rewrite normalize_text_map. apply strip_clean.
  - rewrite normalize_text_map. apply strip_clean.
  - intros c Hc. apply In_normalize_text in Hc as (c0 & _ & ->).
    apply norm_char_not_replaced.
Qed.

End NormalForms.

(** ** The window chosen by [best_fuzzy_window] *)

Section WindowChoice.
Import PyStr Matching.

Variable ratio : str -> str -> Q.

Local Abbreviation scan := (Invariants.scan ratio).

Lemma scan_fold_pos (K : str) (texts : list str) (idxs : list nat) :
  forall best : Q * option (nat * nat),
    (0 <= fst best)%Q ->
    (snd best <> None -> (0 < fst best)%Q) ->
    let best' := fold_left (scan_step ratio K texts) idxs best in
    (0 <= fst best')%Q /\ (snd best' <> None -> (0 < fst best')%Q).
Proof.
  induction idxs as [| i idxs IH]; intros best H0 Hpos; cbn [fold_left].
  - split; assumption.
  - apply IH; unfold scan_step;
      destruct (Qgtb _ (fst best)) eqn:E; cbn [fst snd]; auto.
    + apply Qltb_lt in E. lra.
    + intros _. apply Qltb_lt in E. lra.
Qed.

(** The state of the scan at its end. *)
Lemma scan_end (keyword : str) (chars : list PChar) :
  let K := normalize_text keyword in
  let sc := Invariants.score ratio K (Spec.page_texts chars) in
  (forall j, j < length chars + 1 - length K -> (sc j <= fst (scan keyword chars))%Q)
  /\ match snd (scan keyword chars) with
     | None => (fst (scan keyword chars) == 0)%Q
     | Some (s, e) =>
         e = s + length K /\ s < length chars + 1 - length K
         /\ fst (scan keyword chars) = sc s
         /\ (0 < sc s)%Q
         /\ forall j, j < s -> (sc j < sc s)%Q
     end.
Proof.
  cbv zeta. unfold Invariants.scan.
  assert (Hlen : length (Spec.page_texts chars) = length chars)
    by (unfold Spec.page_texts; apply length_map).
  rewrite Hlen.
  set (K := normalize_text keyword). set (texts := Spec.page_texts chars).
  set (N := length chars + 1 - length K).
  assert (Hinit : Invariants.scan_inv ratio K texts 0 (0%Q, None)).
  { split; [intros j Hj; lia | reflexivity]. }
  apply (scan_fold_inv ratio K texts N) in Hinit. cbn [Nat.add] in Hinit.
  destruct Hinit as [Hmax Hbest].
  destruct (scan_fold_pos K texts (seq 0 N) (0%Q, None)) as [_ Hpos];
    [apply Qle_refl | intros H; now contradiction H |].
  split; [exact Hmax |].
  destruct (snd (fold_left _ _ _)) as [[s e] |]; [| exact Hbest].
  destruct Hbest as (He & Hs & Hsc & Hfirst).
  repeat split; auto. rewrite <- Hsc. apply Hpos. discriminate.
Qed.

(** The window returned scores at least the threshold and more than zero,
    no window of the page scores higher, and every earlier window scores
    strictly lower. *)
Theorem best_fuzzy_window_optimal (chars : list PChar) (keyword : str)
    (threshold : Q) (s e : nat) :
  best_fuzzy_window ratio chars keyword threshold = Some (s, e) ->
  let K := normalize_text keyword in
  let sc := Invariants.score ratio K (Spec.page_texts chars) in
  (threshold <= sc s)%Q /\ (0 < sc s)%Q
  /\ (forall j, j + length K <= length chars -> (sc j <= sc s)%Q)
  /\ (forall j, j < s -> (sc j < sc s)%Q).
Proof.
  rewrite best_fuzzy_window_scan. cbv zeta.
  destruct (length (normalize_text keyword) =? 0) eqn:EL; [discriminate |].
  apply Nat.eqb_neq in EL. cbn [orb].
  destruct (length chars =? 0); [discriminate |].
  destruct (scan_end keyword chars) as [Hmax Hbest]. cbv zeta in Hmax, Hbest.
  destruct (snd (scan keyword chars)) as [[s' e'] |]; [| discriminate].
  destruct (Qgeb _ threshold) eqn:Ethr; [| discriminate]. intros [= -> ->].
  destruct Hbest as (_ & _ & Hsc & Hpos & Hfirst).
  apply Qgeb_le in Ethr. rewrite Hsc in Ethr, Hmax.
  repeat split; auto. intros j Hj. apply Hmax. lia.
Qed.

(** No window is returned exactly when the keyword normalises to the empty
    string, or the page has no characters, or every window of the page
    scores zero or less, or below the threshold. *)
Theorem best_fuzzy_window_none_iff (chars : list PChar) (keyword : str)
    (threshold : Q) :
  let K := normalize_text keyword in
  let sc := Invariants.score ratio K (Spec.page_texts chars) in
  best_fuzzy_window ratio chars keyword threshold = None
  <-> (K = [] \/ chars = []
       \/ forall j, j + length K <= length chars ->
            (sc j <= 0)%Q \/ (sc j < threshold)%Q).
Proof.
  cbv zeta. rewrite best_fuzzy_window_scan.
  destruct (length (normalize_text keyword) =? 0) eqn:EL.
  { apply Nat.eqb_eq, length_zero_iff_nil in EL. split; auto. }
  destruct (length chars =? 0) eqn:EC.
  { apply Nat.eqb_eq, length_zero_iff_nil in EC. split; auto. }
  apply Nat.eqb_neq in EL, EC. cbn [orb].
  destruct (scan_end keyword chars) as [Hmax Hbest]. cbv zeta in Hmax, Hbest.
  split.
  - intros Hnone. right. right. intros j Hj.
    specialize (Hmax j ltac:(lia)).
    destruct (snd (scan keyword chars)) as [[s e] |].
    + destruct (Qgeb _ threshold) eqn:Ethr; [discriminate |].
      right. unfold Qgeb in Ethr.
      assert (Hlt : Qltb (fst (scan keyword chars)) threshold = true)
        by (unfold Qltb; now rewrite Ethr).
      apply Qltb_lt in Hlt. lra.
    + left. lra.
  - intros [HK | [HC | Hall]].
    + rewrite HK in EL. now contradiction EL.
    + rewrite HC in EC. now contradiction EC.
    + destruct (snd (scan keyword chars)) as [[s e] |]; [| reflexivity].
      destruct Hbest as (_ & Hs & Hsc & Hpos & _).
      destruct (Hall s ltac:(lia)) as [H0 | Hthr]; [lra |].
      replace (Qgeb _ threshold) with false; [reflexivity |].
      symmetry. rewrite Hsc. unfold Qgeb.
      apply not_true_iff_false. rewrite Qle_bool_iff. lra.
Qed.

End WindowChoice.

(** ** The bounding box of a window *)

Section BoundingBox.
Import PyStr Matching.
Local Open Scope Q_scope.

Lemma py_min_cases a b : py_min a b = a \/ py_min a b = b.
Proof. unfold py_min. destruct (Qltb b a); auto. Qed.

Lemma py_max_cases a b : py_max a b = a \/ py_max a b = b.
Proof. unfold py_max. destruct (Qgtb b a); auto. Qed.

Lemma fold_py_min_spec (r : list Q) :
  forall x, let m := fold_left py_min r x in
    m <= x /\ Forall (fun y => m <= y) r /\ In m (x :: r).
Proof.
  induction r as [| y r IH]; intros x; cbn [fold_left].
  - repeat split; [apply Qle_refl | constructor | now left].
  - destruct (IH (py_min x y)) as (H1 & H2 & H3).
    destruct (py_min_spec x y) as (Hx & Hy & _).
    repeat split.
    + eapply Qle_trans; eauto.
    + constructor; [eapply Qle_trans; eauto | exact H2].
    + destruct H3 as [H3 | H3]; [| right; now right].
      rewrite <- H3. destruct (py_min_cases x y) as [-> | ->];
        [now left | right; now left].
Qed.

Lemma fold_py_max_spec (r : list Q) :
  forall x, let m := fold_left py_max r x in
    x <= m /\ Forall (fun y => y <= m) r /\ In m (x :: r).
Proof.
  induction r as [| y r IH]; intros x; cbn [fold_left].
  - repeat split; [apply Qle_refl | constructor | now left].
  - destruct (IH (py_max x y)) as (H1 & H2 & H3).
    destruct (py_max_spec x y) as (Hx & Hy & _).
    repeat split.
    + eapply Qle_trans; eauto.
    + constructor; [eapply Qle_trans; eauto | exact H2].
    + destruct H3 as [H3 | H3]; [| right; now right].
      rewrite <- H3. destruct (py_max_cases x y) as [-> | ->];
        [now left | right; now left].
Qed.

Lemma py_min_list_spec (xs : list Q) (m : Q) :
  py_min_list xs = Some m -> (forall y, In y xs -> m <= y) /\ In m xs.
Proof.
  destruct xs as [| x r]; [discriminate |]. intros [= <-].
  destruct (fold_py_min_spec r x) as (H1 & H2 & H3).
  split; [| exact H3]. intros y [<- | Hy]; [exact H1 |].
  rewrite List.Forall_forall in H2. now apply H2.
Qed.

Lemma py_max_list_spec (xs : list Q) (m : Q) :
  py_max_list xs = Some m -> (forall y, In y xs -> y <= m) /\ In m xs.
Proof.
  destruct xs as [| x r]; [discriminate |]. intros [= <-].
  destruct (fold_py_max_spec r x) as (H1 & H2 & H3).
  split; [| exact H3]. intros y [<- | Hy]; [exact H1 |].
  rewrite List.Forall_forall in H2. now apply H2.
Qed.

(** The characters a successful [bbox_of_chars] has read. *)
Lemma bbox_window_chars (chars : list PChar) (s e : nat) (cs : list PChar) :
  mapM (fun i => chars !! i) (seq s (e - s)%nat) = Some cs ->
  length cs = (e - s)%nat
  /\ (forall i c, (s <= i < e)%nat -> chars !! i = Some c -> In c cs)
  /\ (forall c, In c cs -> exists i, (s <= i < e)%nat /\ chars !! i = Some c).
Proof.
  intros Hcs. pose proof (length_mapM _ _ _ Hcs) as Hlen.
  rewrite length_seq in Hlen. apply mapM_Some in Hcs.
  split; [now symmetry |]. split.
  - intros i c Hi Hc.
    destruct (Forall2_lookup_l _ _ _ (i - s)%nat i Hcs) as (c' & Hk & Hc').
    { rewrite lookup_seq. split; lia. }
    cbv beta in Hc'. rewrite Hc in Hc'. injection Hc' as <-.
    apply list_elem_of_In, list_elem_of_lookup. eauto.
  - intros c Hc. apply list_elem_of_In, list_elem_of_lookup in Hc as [k Hk].
    destruct (Forall2_lookup_r _ _ _ k c Hcs Hk) as (i & Hi & Hci).
    apply lookup_seq in Hi as [-> Hlt]. exists (s + k)%nat. split; [lia | exact Hci].
Qed.

(** [bbox_of_chars] fails exactly on an empty or out-of-range window. *)
Theorem bbox_of_chars_defined_iff (chars : list PChar) (s e : nat) :
  is_Some (bbox_of_chars chars s e) <-> (s < e /\ e <= length chars)%nat.
Proof.
  split; [| intros [H1 H2]; now apply bbox_of_chars_is_Some].
  intros [rect Hrect]. unfold bbox_of_chars in Hrect.
  destruct (mapM _ _) as [cs |] eqn:Hcs; [| discriminate].
  cbn [mbind option_bind] in Hrect.
  destruct (bbox_window_chars chars s e cs Hcs) as (Hlen & _ & _).
  destruct cs as [| c cs]; [discriminate |].
  simpl in Hlen. split; [lia |].
  apply mapM_Some in Hcs.
  destruct (Forall2_lookup_l _ _ _ (e - s - 1)%nat (e - 1)%nat Hcs)
    as (c' & _ & Hc').
  { rewrite lookup_seq. split; lia. }
  apply lookup_lt_Some in Hc'. lia.
Qed.

(** The box returned encloses every character of the window, and each of
    its four edges is the edge of one of these characters. *)
Theorem bbox_of_chars_encloses (chars : list PChar) (s e : nat)
    (x0 top x1 bottom : Q) :
  bbox_of_chars chars s e = Some (x0, top, x1, bottom) ->
  (forall i c, (s <= i < e)%nat -> chars !! i = Some c ->
     x0 <= c_x0 c /\ top <= c_top c /\ c_x1 c <= x1 /\ c_bottom c <= bottom)
  /\ (exists i c, (s <= i < e)%nat /\ chars !! i = Some c /\ c_x0 c = x0)
  /\ (exists i c, (s <= i < e)%nat /\ chars !! i = Some c /\ c_top c = top)
  /\ (exists i c, (s <= i < e)%nat /\ chars !! i = Some c /\ c_x1 c = x1)
  /\ (exists i c, (s <= i < e)%nat /\ chars !! i = Some c /\ c_bottom c = bottom).
Proof.
  unfold bbox_of_chars.
  destruct (mapM _ _) as [cs |] eqn:Hcs; [| discriminate].
  cbn [mbind option_bind].
  destruct (py_min_list (map c_x0 cs)) as [m0 |] eqn:E0; [| discriminate].
  destruct (py_min_list (map c_top cs)) as [m1 |] eqn:E1; [| discriminate].
  destruct (py_max_list (map c_x1 cs)) as [m2 |] eqn:E2; [| discriminate].
  destruct (py_max_list (map c_bottom cs)) as [m3 |] eqn:E3; [| discriminate].
  intros [= <- <- <- <-].
  destruct (bbox_window_chars chars s e cs Hcs) as (_ & Hin & Hback).
  apply py_min_list_spec in E0 as [L0 A0], E1 as [L1 A1].
  apply py_max_list_spec in E2 as [L2 A2], E3 as [L3 A3].
  split.
  - intros i c Hi Hc. specialize (Hin i c Hi Hc).
    repeat split; [apply L0 | apply L1 | apply L2 | apply L3]; now apply in_map.
  - repeat split.
    + apply in_map_iff in A0 as (c & Hc & Hcin).
      destruct (Hback c Hcin) as (i & Hi & Hci). now exists i, c.
    + apply in_map_iff in A1 as (c & Hc & Hcin).
      destruct (Hback c Hcin) as (i & Hi & Hci). now exists i, c.
    + apply in_map_iff in A2 as (c & Hc & Hcin).
      destruct (Hback c Hcin) as (i & Hi & Hci). now exists i, c.
    + apply in_map_iff in A3 as (c & Hc & Hcin).
      destruct (Hback c Hcin) as (i & Hi & Hci). now exists i, c.
Qed.

End BoundingBox.

(** ** Clamping once more *)

Section ClampAgain.
Import Coords.
Local Open Scope Q_scope.

Lemma clamp_fixed lo hi c :
  lo <= c -> (c == lo \/ c <= hi) -> py_max lo (py_min hi c) == c.
Proof.
  intros Hlo Hhi. unfold py_min.
  destruct (Qltb c hi) eqn:E1;
    [apply Qltb_lt in E1 | apply Qltb_ge in E1]; unfold py_max, Qgtb.
  - destruct (Qltb lo c) eqn:E2;
      [apply Qltb_lt in E2 | apply Qltb_ge in E2]; lra.
  - destruct (Qltb lo hi) eqn:E2;
      [apply Qltb_lt in E2 | apply Qltb_ge in E2]; lra.
Qed.

Lemma clamp_idempotent lo hi v :
  py_max lo (py_min hi (py_max lo (py_min hi v))) == py_max lo (py_min hi v).
Proof.
  destruct (py_max_spec lo (py_min hi v)) as (H1 & H2 & H3).
  destruct (py_min_spec hi v) as (H4 & H5 & H6).
  apply clamp_fixed; [exact H1 |].
  destruct H3 as [H3 | H3]; [now left | right; lra].
Qed.

Lemma clamp_inside lo hi v : lo <= v <= hi -> py_max lo (py_min hi v) == v.
Proof. intros [H1 H2]. apply clamp_fixed; [exact H1 | now right]. Qed.

(** [clamp_coords] lands inside the margins of a page that is at least two
    margins wide and high, and returns a point already inside unchanged. *)
Theorem clamp_coords_spec (x y page_width page_height margin : Q) :
  let p := clamp_coords x y page_width page_height margin in
  (margin <= page_width - margin -> margin <= fst p <= page_width - margin)
  /\ (margin <= page_height - margin ->
      margin <= snd p <= page_height - margin)
  /\ (margin <= x <= page_width - margin -> fst p == x)
  /\ (margin <= y <= page_height - margin -> snd p == y).
Proof.
  cbv zeta. unfold clamp_coords. cbn [fst snd].
  split; [apply clamp_in_range |]. split; [apply clamp_in_range |].
  split; apply clamp_inside.
Qed.

Lemma clamp_coords_spec_witness :
  let p := clamp_coords 500 (-5) 200 100 2 in
  2 <= fst p <= 200 - 2 /\ 2 <= snd p <= 100 - 2.
Proof.
  pose proof (clamp_coords_spec 500 (-5) 200 100 2) as H. cbv zeta in H.
  destruct H as (Hx & Hy & _). split; [apply Hx | apply Hy]; lra.
Defined.

(** Clamping a baseline twice is clamping it once: the output of
    [clamp_baseline] is a fixed point, on every page and for every font
    size and margin. *)
Theorem clamp_baseline_idempotent
    (x y_baseline page_width page_height font_size margin : Q) :
  let p := clamp_baseline x y_baseline page_width page_height font_size margin in
  let q := clamp_baseline (fst p) (snd p) page_width page_height font_size
             margin in
  fst q == fst p /\ snd q == snd p.
Proof.
  cbv zeta. unfold clamp_baseline, clamp_baseline_ratio.
  set (asc := py_max 0 (font_size * (8 # 10))).
  set (desc := py_max 0 (font_size * (2 # 10))).
  destruct (Qgtb (margin + desc) (page_height - margin - asc));
    cbn [fst snd]; split; apply clamp_idempotent.
Qed.

End ClampAgain.

(** ** The width estimate *)

Section WidthEstimate.
Import PyStr Text.
Local Open Scope Q_scope.

Lemma estimate_text_width_fold (text : str) (font_size r : Q) :
  estimate_text_width text font_size r
  = fold_left
      (fun width char =>
         if (127 <? char)%N then width + font_size else width + font_size * r)
      text 0.
Proof. now destruct text. Qed.

Lemma estimate_fold_acc (font_size r : Q) (s : str) :
  forall acc,
    fold_left
      (fun width char =>
         if (127 <? char)%N then width + font_size else width + font_size * r)
      s acc
    == acc
       + fold_left
           (fun width char =>
              if (127 <? char)%N then width + font_size
              else width + font_size * r)
           s 0.
Proof.
  induction s as [| c s IH]; intros acc; cbn [fold_left]; [ring |].
  rewrite IH. rewrite (IH (if (127 <? c)%N then _ else _)).
  destruct (127 <? c)%N; ring.
Qed.

(** The estimated width of a concatenation is the sum of the estimated
    widths; the estimate is zero on the empty string and never negative
    for a font size and ratio that are not negative. *)
Theorem estimate_text_width_additive (a b : str) (font_size r : Q) :
  estimate_text_width (a ++ b) font_size r
  == estimate_text_width a font_size r + estimate_text_width b font_size r
  /\ estimate_text_width [] font_size r == 0
  /\ (0 <= font_size -> 0 <= r -> 0 <= estimate_text_width a font_size r).
Proof.
  split; [| split].
  - rewrite !estimate_text_width_fold, fold_left_app. apply estimate_fold_acc.
  - reflexivity.
  - intros Hf Hr. rewrite estimate_text_width_fold.
    assert (H : forall acc, 0 <= acc ->
              0 <= fold_left
                     (fun width char =>
                        if (127 <? char)%N then width + font_size
                        else width + font_size * r) a acc).
    { induction a as [| c a IH]; intros acc Hacc; cbn [fold_left];
        [exact Hacc |].
      apply IH. destruct (127 <? c)%N; [lra |].
      assert (0 <= font_size * r) by (apply Qmult_le_0_compat; assumption).
      lra. }
    apply H. apply Qle_refl.
Qed.

Lemma estimate_text_width_additive_witness :
  0 <= estimate_text_width Examples.two_cjk 12 (6 # 10).
Proof.
  apply (estimate_text_width_additive Examples.two_cjk [] 12 (6 # 10));
    vm_compute; discriminate.
Defined.

End WidthEstimate.

(** ** Alias splitting *)

Section Aliases.
Import PyStr Text Shapes.

Lemma is_empty_true (s : str) : is_empty s = true <-> s = [].
Proof. destruct s; simpl; split; congruence. Qed.

Lemma str_in_In (a : str) (l : list str) : str_in a l = true <-> In a l.
Proof.
  unfold str_in, str_eqb. rewrite existsb_exists. split.
  - intros (b & Hb & Heq). apply bool_decide_eq_true in Heq. now subst.
  - intros Ha. exists a. split; [exact Ha | now apply bool_decide_eq_true].
Qed.

Lemma split_aliases_sep_steps (keyword : str) (sep : N) :
  split_aliases_sep keyword sep
  = match fold_left alias_step (alias_parts keyword sep) [] with
    | [] => [strip keyword]
    | a :: result => a :: result
    end.
Proof.
  unfold split_aliases_sep.
  set (r := fold_left _ _ []).
  assert (Hr : r = fold_left alias_step (alias_parts keyword sep) [])
    by reflexivity.
  clearbody r. subst r. now destruct (fold_left alias_step _ []).
Qed.

(** What the cleaning loop keeps true of its result. *)
Lemma alias_fold_spec (parts : list str) :
  forall result : list str,
    NoDup result ->
    (forall a, In a result -> a <> [] /\ strip a = a) ->
    let result' := fold_left alias_step parts result in
    NoDup result'
    /\ (forall a, In a result' -> a <> [] /\ strip a = a)
    /\ (forall a, In a result' <->
                  In a result \/ (a <> [] /\ exists p, In p parts /\ a = strip p))
    /\ exists rest, result' = result ++ rest.
Proof.
  induction parts as [| p parts IH]; intros result Hnd Hclean; cbn [fold_left].
  - split; [exact Hnd |]. split; [exact Hclean |]. split.
    + intros a. split; [now left |].
      intros [Ha | (_ & p & [] & _)]. exact Ha.
    + exists []. now rewrite app_nil_r.
  - set (r1 := alias_step result p).
    assert (H1 : NoDup r1
                 /\ (forall a, In a r1 -> a <> [] /\ strip a = a)
                 /\ (forall a, In a r1 <->
                        In a result \/ (a <> [] /\ a = strip p))
                 /\ exists rest, r1 = result ++ rest).
    { unfold r1, alias_step.
      destruct (is_empty (strip p)) eqn:Ee.
      - apply is_empty_true in Ee.
        split; [exact Hnd |]. split; [exact Hclean |]. split.
        + intros a. split; [now left |].
          intros [Ha | [Hne Ha]]; [exact Ha | congruence].
        + exists []. now rewrite app_nil_r.
      - assert (Hne : strip p <> []).
        { intros Hs. apply is_empty_true in Hs. congruence. }
        destruct (str_in (strip p) result) eqn:Ein.
        + apply str_in_In in Ein.
          split; [exact Hnd |]. split; [exact Hclean |]. split.
          * intros a. split; [now left |].
            intros [Ha | [_ ->]]; [exact Ha | exact Ein].
          * exists []. now rewrite app_nil_r.
        + assert (Hnin : ~ In (strip p) result).
          { intros Hs. apply str_in_In in Hs. congruence. }
          split; [| split; [| split]].
          * apply NoDup_app. split; [exact Hnd |]. split.
            -- intros a Ha Hb. apply list_elem_of_In in Ha.
               apply list_elem_of_In in Hb. destruct Hb as [<- | []].
               now apply Hnin.
            -- apply NoDup_singleton.
          * intros a Ha. apply in_app_or in Ha as [Ha | [<- | []]];
              [now apply Hclean |].
            split; [exact Hne | apply strip_idempotent].
          * intros a. split.
            -- intros Ha. apply in_app_or in Ha as [Ha | [<- | []]]; auto.
            -- intros [Ha | [_ ->]]; apply in_or_app;
                 [now left | right; now left].
          * now exists [strip p]. }
    destruct H1 as (Hnd1 & Hclean1 & Hin1 & rest1 & Hrest1).
    destruct (IH r1 Hnd1 Hclean1) as (Hnd2 & Hclean2 & Hin2 & rest2 & Hrest2).
    split; [exact Hnd2 |]. split; [exact Hclean2 |]. split.
    + intros a. split.
      * intros Ha. apply Hin2 in Ha as [Ha | (Hne & q & Hq & ->)].
        -- apply Hin1 in Ha as [Ha | [Hne ->]]; [now left |].
           right. split; [exact Hne |]. exists p. split; [now left | reflexivity].
        -- right. split; [exact Hne |]. exists q.
           split; [now right | reflexivity].
      * intros [Ha | (Hne & q & [<- | Hq] & ->)]; apply Hin2.
        -- left. apply Hin1. now left.
        -- left. apply Hin1. right. now split.
        -- right. split; [exact Hne |]. now exists q.
    + exists (rest1 ++ rest2). rewrite Hrest2, Hrest1. now rewrite app_assoc.
Qed.

(** The aliases of a keyword are never an empty list, hold no alias twice,
    and each alias is already stripped; every non-blank part of the keyword
    is among them, stripped. *)
Theorem split_aliases_spec (keyword : str) :
  split_aliases keyword <> []
  /\ NoDup (split_aliases keyword)
  /\ (forall a, In a (split_aliases keyword) -> strip a = a)
  /\ (forall p, In p (alias_parts keyword CONST_ALIAS_SEPARATOR) ->
        strip p <> [] -> In (strip p) (split_aliases keyword)).
Proof.
  unfold split_aliases. rewrite split_aliases_sep_steps.
  destruct (alias_fold_spec (alias_parts keyword CONST_ALIAS_SEPARATOR) [])
    as (Hnd & Hclean & Hin & _); [constructor | intros a [] |].
  cbv zeta in Hnd, Hclean, Hin.
  destruct (fold_left alias_step _ []) as [| a0 result] eqn:E.
  - split; [discriminate |]. split; [apply NoDup_singleton |]. split.
    + intros a [<- | []]. apply strip_idempotent.
    + intros p Hp Hne. exfalso.
      assert (Hfalse : In (strip p) []) by (apply Hin; right; split; eauto).
      destruct Hfalse.
  - split; [discriminate |]. split; [exact Hnd |]. split.
    + intros a Ha. now apply Hclean.
    + intros p Hp Hne. apply Hin. right. split; eauto.
Qed.

End Aliases.

(** ** Page selections *)

Section PageSelections.
Import PyStr Page.

Variable py_lower : str -> str.
Variable py_int : str -> option Z.

Lemma z_range_sorted (lo : Z) (n a : nat) :
  Sorted Z.le (map (fun k => (lo + Z.of_nat k)%Z) (seq a n)).
Proof.
  revert a. induction n as [| n IH]; intros a; cbn [seq map]; [constructor |].
  constructor; [apply IH |].
  destruct n; cbn [seq map]; constructor. lia.
Qed.

Lemma z_range_NoDup (lo hi : Z) : NoDup (z_range lo hi).
Proof.
  unfold z_range. apply NoDup_ListNoDup.
  apply Finite.Injective_map_NoDup; [| apply seq_NoDup].
  intros a b Hab. lia.
Qed.

Lemma _add_valid (one_based : bool) (total_pages : Z) (result : list Z) (idx : Z) :
  Forall (valid_page total_pages) result ->
  Forall (valid_page total_pages) (_add one_based total_pages result idx).
Proof.
  intros H. unfold _add.
  destruct ((_ <? 0)%Z || (_ >=? total_pages)%Z) eqn:E; [exact H |].
  apply orb_false_iff in E as [E1 E2]. apply Z.ltb_ge in E1.
  rewrite Z.geb_leb in E2. apply Z.leb_gt in E2.
  apply Forall_app. split; [exact H |]. constructor; [| constructor].
  split; assumption.
Qed.

Lemma _add_fold_valid (one_based : bool) (total_pages : Z) (idxs : list Z) :
  forall result,
    Forall (valid_page total_pages) result ->
    Forall (valid_page total_pages)
      (fold_left (_add one_based total_pages) idxs result).
Proof.
  induction idxs as [| i idxs IH]; intros result H; cbn [fold_left];
    [exact H |].
  apply IH. now apply _add_valid.
Qed.

Lemma parse_part_valid (one_based : bool) (total_pages : Z) (result : list Z)
    (part : str) :
  Forall (valid_page total_pages) result ->
  Forall (valid_page total_pages)
    (parse_part py_int one_based total_pages result part).
Proof.
  intros H. unfold parse_part.
  destruct (is_empty (strip part)); [exact H |].
  destruct (contains 45 (strip part)).
  - destruct (split_once 45 (strip part)) as [start_s end_s].
    destruct (py_int start_s) as [start_i |]; [| exact H].
    destruct (py_int end_s) as [end_i |]; [| exact H].
    destruct (start_i >? end_i)%Z; now apply _add_fold_valid.
  - destruct (py_int (strip part)); [now apply _add_valid | exact H].
Qed.

Lemma parse_parts_valid (one_based : bool) (total_pages : Z) (parts : list str) :
  forall result,
    Forall (valid_page total_pages) result ->
    Forall (valid_page total_pages)
      (fold_left (parse_part py_int one_based total_pages) parts result).
Proof.
  induction parts as [| p parts IH]; intros result H; cbn [fold_left];
    [exact H |].
  apply IH. now apply parse_part_valid.
Qed.

(** Whatever the selection string, the pages returned are in ascending
    order, without repetition, and all are pages of the document. *)
Theorem parse_page_selection_sorted_valid (selection : str) (total_pages : Z)
    (one_based : bool) :
  let pages := parse_page_selection py_lower py_int selection total_pages
                 one_based in
  Sorted Z.le pages /\ NoDup pages
  /\ forall p, In p pages -> (0 <= p < total_pages)%Z.
Proof.
  cbv zeta. unfold parse_page_selection.
  destruct (is_empty selection).
  { split; [apply Sorted_nil |]. split; [apply NoDup_nil_2 | intros p []]. }
  destruct (str_eqb _ _).
  { split; [apply z_range_sorted |]. split; [apply z_range_NoDup |].
    intros p Hp. now apply z_range_In in Hp. }
  set (result := fold_left _ _ []).
  assert (Hvalid : Forall (valid_page total_pages) result)
    by (apply parse_parts_valid; constructor).
  split; [apply (Sorted_merge_sort Z.le) |]. split.
  - rewrite merge_sort_Permutation. apply NoDup_remove_dups.
  - intros p Hp. apply list_elem_of_In in Hp.
    rewrite merge_sort_Permutation, elem_of_remove_dups in Hp.
    rewrite List.Forall_forall in Hvalid. apply Hvalid.
    apply list_elem_of_In in Hp. exact Hp.
Qed.

End PageSelections.

(** ** The lines of [wrap_text_lines] *)

Section WrapLines.
Import PyStr Layout.

Variable stringWidth : str -> str -> Q -> option Q.
Variables (font_name : str) (font_size : Q).

Local Abbreviation width := (trial_width stringWidth font_name font_size).

Lemma wrap_step_fits (mw : Q) (st : list str * str) (ch : N) :
  Forall (line_fits width mw) (fst st) -> line_fits width mw (snd st) ->
  let st' := wrap_step stringWidth font_name font_size mw st ch in
  Forall (line_fits width mw) (fst st') /\ line_fits width mw (snd st').
Proof.
  destruct st as [wrapped current]. cbn [fst snd]. intros Hw Hc.
  unfold wrap_step.
  destruct (Qle_bool _ mw) eqn:Ew; cbn [orb fst snd].
  - split; [exact Hw |]. right. now apply Qle_bool_iff.
  - destruct current as [| c0 current]; cbn [is_empty fst snd].
    + split; [exact Hw |]. left. simpl. lia.
    + split; [| left; simpl; lia].
      apply Forall_app. split; [exact Hw |]. now constructor.
Qed.

Lemma wrap_fold_fits (mw : Q) (raw : str) :
  forall st : list str * str,
    Forall (line_fits width mw) (fst st) -> line_fits width mw (snd st) ->
    let st' := fold_left (wrap_step stringWidth font_name font_size mw) raw st in
    Forall (line_fits width mw) (fst st') /\ line_fits width mw (snd st').
Proof.
  induction raw as [| ch raw IH]; intros st Hw Hc; cbn [fold_left];
    [now split |].
  destruct (wrap_step_fits mw st ch Hw Hc). now apply IH.
Qed.

Lemma wrap_raw_fits (mw : Q) (wrapped : list str) (raw : str) :
  Forall (line_fits width mw) wrapped ->
  Forall (line_fits width mw)
    (wrap_raw stringWidth font_name font_size mw wrapped raw).
Proof.
  intros Hw. unfold wrap_raw.
  destruct (wrap_fold_fits mw raw (wrapped, [])) as [H1 H2];
    [exact Hw | left; simpl; lia |].
  cbv zeta in H1, H2. destruct (fold_left _ raw (wrapped, [])) as [w c].
  apply Forall_app. split; [exact H1 |]. now constructor.
Qed.

Lemma wrap_lines_fit (mw : Q) (raw_lines : list str) :
  forall wrapped,
    Forall (line_fits width mw) wrapped ->
    Forall (line_fits width mw)
      (fold_left (wrap_raw stringWidth font_name font_size mw) raw_lines wrapped).
Proof.
  induction raw_lines as [| raw rest IH]; intros wrapped Hw; cbn [fold_left];
    [exact Hw |].
  apply IH. now apply wrap_raw_fits.
Qed.

(** With a positive [max_width], every returned line of two characters or
    more measures [max_width] at most, in the width the wrapping itself
    uses (the font metric, or the fallback when the metric fails). *)
Theorem wrap_text_lines_fit (text : str) (max_width : Q) :
  (0 < max_width)%Q ->
  forall line,
    In line (wrap_text_lines stringWidth font_name font_size (Some text)
               (Some max_width)) ->
    2 <= length line ->
    (width line <= max_width)%Q.
Proof.
  intros Hmw line Hin Hlen. unfold wrap_text_lines in Hin.
  replace (Qle_bool max_width 0) with false in Hin.
  2:{ symmetry. apply not_true_iff_false. rewrite Qle_bool_iff. lra. }
  pose proof (wrap_lines_fit max_width
                (match splitlines text with [] => [[]] | ls => ls end) []
                (Forall_nil_2 _)) as Hall.
  rewrite List.Forall_forall in Hall.
  destruct (Hall line Hin) as [H1 | H2]; [lia | exact H2].
Qed.

(** *** Shape of the result *)

Lemma splitlines_from_clean (n : nat) :
  forall (s cur : str), length s <= n ->
    no_linebreak cur ->
    Forall no_linebreak (splitlines_from cur s).
Proof.
  induction n as [| n IH]; intros s cur Hlen Hcur.
  - destruct s; [| simpl in Hlen; lia]. simpl.
    destruct cur; [constructor |]. constructor; [| constructor].
    unfold no_linebreak in *. apply Forall_rev. exact Hcur.
  - destruct s as [| c r].
    + simpl. destruct cur; [constructor |]. constructor; [| constructor].
      unfold no_linebreak in *. apply Forall_rev. exact Hcur.
    + simpl in Hlen. cbn [splitlines_from].
      destruct (is_linebreak c) eqn:Ec.
      * constructor.
        { unfold no_linebreak in *. apply Forall_rev. exact Hcur. }
        destruct r as [| c' r']; [apply IH; [simpl; lia | constructor] |].
        destruct ((c =? 13) && (c' =? 10))%N;
          (apply IH; [simpl in *; lia | constructor]).
      * apply IH; [lia |]. constructor; assumption.
Qed.

Lemma wrap_step_clean (mw : Q) (st : list str * str) (ch : N) :
  is_linebreak ch = false ->
  Forall no_linebreak (fst st) -> no_linebreak (snd st) ->
  let st' := wrap_step stringWidth font_name font_size mw st ch in
  Forall no_linebreak (fst st') /\ no_linebreak (snd st').
Proof.
  destruct st as [wrapped current]. cbn [fst snd]. intros Hch Hw Hc.
  unfold wrap_step. destruct (_ || _); cbn [fst snd].
  - split; [exact Hw |]. apply Forall_app. split; [exact Hc |]. now constructor.
  - split; [| now constructor].
    apply Forall_app. split; [exact Hw |]. now constructor.
Qed.

Lemma wrap_raw_clean (mw : Q) (wrapped : list str) (raw : str) :
  no_linebreak raw -> Forall no_linebreak wrapped ->
  Forall no_linebreak (wrap_raw stringWidth font_name font_size mw wrapped raw).
Proof.
  intros Hraw Hw. unfold wrap_raw.
  assert (H : forall st : list str * str,
             Forall no_linebreak (fst st) -> no_linebreak (snd st) ->
             let st' := fold_left
                          (wrap_step stringWidth font_name font_size mw) raw st in
             Forall no_linebreak (fst st') /\ no_linebreak (snd st')).
  { induction Hraw as [| ch raw Hch Hraw IH]; intros st H1 H2; cbn [fold_left];
      [now split |].
    destruct (wrap_step_clean mw st ch Hch H1 H2). now apply IH. }
  destruct (H (wrapped, [])) as [H1 H2]; [exact Hw | constructor |].
  cbv zeta in H1, H2. destruct (fold_left _ raw (wrapped, [])) as [w c].
  apply Forall_app. split; [exact H1 |]. now constructor.
Qed.

Lemma wrap_raw_not_nil (mw : Q) (wrapped : list str) (raw : str) :
  wrap_raw stringWidth font_name font_size mw wrapped raw <> [].
Proof.
  unfold wrap_raw. destruct (fold_left _ raw (wrapped, [])) as [w c].
  destruct w; discriminate.
Qed.

Lemma wrap_lines_shape (mw : Q) (raw_lines : list str) :
  forall wrapped,
    Forall no_linebreak raw_lines -> Forall no_linebreak wrapped ->
    (raw_lines <> [] \/ wrapped <> []) ->
    let r := fold_left (wrap_raw stringWidth font_name font_size mw)
               raw_lines wrapped in
    r <> [] /\ Forall no_linebreak r.
Proof.
  induction raw_lines as [| raw rest IH]; intros wrapped Hraw Hw Hne;
    cbn [fold_left].
  - split; [destruct Hne as [H | H]; [now contradiction H | exact H] | exact Hw].
  - apply Forall_cons in Hraw as [Hr Hrest].
    apply IH; [exact Hrest | now apply wrap_raw_clean |].
    right. apply wrap_raw_not_nil.
Qed.

(** For a string input the result is never an empty list, and no returned
    line holds a line-boundary character. *)
Theorem wrap_text_lines_shape (text : str) (max_width : option Q) :
  wrap_text_lines stringWidth font_name font_size (Some text) max_width <> []
  /\ Forall no_linebreak
       (wrap_text_lines stringWidth font_name font_size (Some text) max_width).
Proof.
  unfold wrap_text_lines.
  set (raw_lines := match splitlines text with [] => [[]] | ls => ls end).
  assert (Hraw : raw_lines <> [] /\ Forall no_linebreak raw_lines).
  { unfold raw_lines.
    pose proof (splitlines_from_clean (length text) text [] (le_n _)
                  (Forall_nil_2 _)) as Hc.
    fold (splitlines text) in Hc.
    destruct (splitlines text); [| split; [discriminate | exact Hc]].
    split; [discriminate |]. constructor; constructor. }
  destruct Hraw as [Hne Hclean].
  destruct max_width as [mw |]; [| now split].
  destruct (Qle_bool mw 0); [now split |].
  apply wrap_lines_shape; auto; try constructor.
Qed.

End WrapLines.

Lemma wrap_text_lines_fit_witness :
  (Layout.trial_width (fun _ _ _ => None) (lit "Helvetica") 12 (lit "AB")
   <= 20)%Q.
Proof.
  apply (wrap_text_lines_fit (fun _ _ _ => None) (lit "Helvetica") 12
           (lit "ABCDEFG") 20).
  - reflexivity.
  - vm_compute. left. reflexivity.
  - simpl. lia.
Defined.

(** ** Wrapping without font metrics *)

Section FallbackWrap.
Import PyStr Layout.

Lemma wrap_step_ext (sw1 sw2 : str -> str -> Q -> option Q) (font_name : str)
    (font_size : Q) :
  (forall trial,
      trial_width sw1 font_name font_size trial
      = trial_width sw2 font_name font_size trial) ->
  forall mw st ch,
    wrap_step sw1 font_name font_size mw st ch
    = wrap_step sw2 font_name font_size mw st ch.
Proof.
  intros Hw mw [wrapped current] ch. unfold wrap_step. now rewrite Hw.
Qed.

Lemma wrap_raw_ext (sw1 sw2 : str -> str -> Q -> option Q) (font_name : str)
    (font_size : Q) :
  (forall trial,
      trial_width sw1 font_name font_size trial
      = trial_width sw2 font_name font_size trial) ->
  forall mw wrapped raw,
    wrap_raw sw1 font_name font_size mw wrapped raw
    = wrap_raw sw2 font_name font_size mw wrapped raw.
Proof.
  intros Hw mw wrapped raw. unfold wrap_raw.
  generalize (wrapped, @nil N) as st.
  induction raw as [| ch raw IH]; intros st; cbn [fold_left];
    [reflexivity |].
  rewrite (wrap_step_ext sw1 sw2 font_name font_size Hw). apply IH.
Qed.

Lemma wrap_text_lines_ext (sw1 sw2 : str -> str -> Q -> option Q)
    (font_name : str) (font_size : Q) :
  (forall trial,
      trial_width sw1 font_name font_size trial
      = trial_width sw2 font_name font_size trial) ->
  forall text max_width,
    wrap_text_lines sw1 font_name font_size text max_width
    = wrap_text_lines sw2 font_name font_size text max_width.
Proof.
  intros Hw [text |] max_width; [| reflexivity]. unfold wrap_text_lines.
  set (raw_lines := match splitlines text with [] => [[]] | ls => ls end).
  clearbody raw_lines. destruct max_width as [mw |]; [| reflexivity].
  destruct (Qle_bool mw 0); [reflexivity |].
  generalize (@nil str) as wrapped.
  induction raw_lines as [| raw rest IH]; intros wrapped; cbn [fold_left];
    [reflexivity |].
  rewrite (wrap_raw_ext sw1 sw2 font_name font_size Hw). apply IH.
Qed.

(** C6, as the code has it: when the font-metric lookup fails,
    [wrap_text_lines] measures a candidate line as
    [char_count * font_size * 0.6], whatever its characters, ASCII or not:
    it wraps every text exactly as it would under a metric that answers
    [len(trial) * font_size * 0.6], and with a positive [max_width] every
    returned line of two characters or more has
    [char_count * font_size * 0.6 <= max_width]. *)
Theorem wrap_text_lines_fallback_width
    (stringWidth : str -> str -> Q -> option Q) (font_name : str)
    (font_size : Q) (text : option str) (max_width : option Q) :
  (forall trial, stringWidth trial font_name font_size = None) ->
  wrap_text_lines stringWidth font_name font_size text max_width
  = wrap_text_lines
      (fun trial _ size =>
         Some (inject_Z (Z.of_nat (length trial)) * size * (6 # 10))%Q)
      font_name font_size text max_width
  /\ (forall t mw line,
        text = Some t -> max_width = Some mw -> (0 < mw)%Q ->
        In line (wrap_text_lines stringWidth font_name font_size text
                   max_width) ->
        2 <= length line ->
        (inject_Z (Z.of_nat (length line)) * font_size * (6 # 10) <= mw)%Q).
Proof.
  intros Hnone.
  assert (Hw : forall trial,
             trial_width stringWidth font_name font_size trial
             = (inject_Z (Z.of_nat (length trial)) * font_size * (6 # 10))%Q).
  { intros trial. unfold trial_width. now rewrite Hnone. }
  split.
  - apply wrap_text_lines_ext. intros trial. rewrite Hw. reflexivity.
  - intros t mw line -> -> Hmw Hin Hlen. cbn [wrap_text_lines] in Hin.
    replace (Qle_bool mw 0) with false in Hin.
    2:{ symmetry. apply not_true_iff_false. rewrite Qle_bool_iff. lra. }
    pose proof (wrap_lines_fit stringWidth font_name font_size mw
                  (match splitlines t with [] => [[]] | ls => ls end) []
                  (Forall_nil_2 _)) as Hall.
    rewrite List.Forall_forall in Hall.
    destruct (Hall line Hin) as [H1 | H2]; [lia |].
    now rewrite Hw in H2.
Qed.

End FallbackWrap.

Lemma wrap_text_lines_fallback_width_witness :
  Layout.wrap_text_lines (fun _ _ _ => None) (lit "SimSun") 12%Q
    (Some Examples.two_cjk) (Some 20%Q)
  = [Examples.two_cjk]
  /\ (inject_Z (Z.of_nat (length Examples.two_cjk)) * 12 * (6 # 10) <= 20)%Q.
Proof.
  destruct (wrap_text_lines_fallback_width (fun _ _ _ => None) (lit "SimSun")
              12%Q (Some Examples.two_cjk) (Some 20%Q)) as [Heq Hfit].
  - intros trial. reflexivity.
  - split; [rewrite Heq; vm_compute; reflexivity |].
    apply (Hfit Examples.two_cjk 20%Q Examples.two_cjk eq_refl eq_refl).
    + reflexivity.
    + vm_compute. left. reflexivity.
    + simpl. lia.
Defined.

(** ** The greedy splitter [split_text_by_width] *)

Section SplitByWidth.
Import PyStr Text TextSplit.
Local Open Scope Q_scope.

Variables (max_width font_size ratio : Q).

Local Abbreviation est := (fun l => estimate_text_width l font_size ratio).

Lemma estimate_snoc (l : str) (c : N) :
  estimate_text_width (l ++ [c]) font_size ratio
  == estimate_text_width l font_size ratio + char_width font_size ratio c.
Proof.
  rewrite !estimate_text_width_fold, fold_left_app. cbn [fold_left].
  unfold char_width. destruct (127 <? c)%N; reflexivity.
Qed.

Lemma estimate_single (c : N) :
  estimate_text_width [c] font_size ratio == char_width font_size ratio c.
Proof.
  rewrite estimate_text_width_fold. cbn [fold_left]. unfold char_width.
  destruct (127 <? c)%N; ring.
Qed.

Local Abbreviation inv := (split_inv max_width font_size ratio).

Lemma split_step_inv (done : str) (st : list str * str * Q) (char : N) :
  inv done st ->
  inv (done ++ [char]) (split_step max_width font_size ratio st char).
Proof.
  destruct st as [[lines cur] cw]. intros (Hcat & Hne & Hcw & Hfit & Hcur).
  unfold split_step. cbv zeta.
  destruct (Qle_bool (cw + char_width font_size ratio char) max_width) eqn:E.
  - apply Qle_bool_iff in E. unfold split_inv.
    split; [rewrite <- Hcat; now rewrite app_assoc |].
    split; [exact Hne |]. split; [rewrite estimate_snoc; lra |].
    split; [exact Hfit |]. right. cbv beta. rewrite estimate_snoc. lra.
  - unfold split_inv. destruct cur as [| c0 cur]; cbn [is_empty].
    + rewrite app_nil_r in Hcat.
      split; [now rewrite Hcat |]. split; [exact Hne |].
      split; [now rewrite estimate_single |].
      split; [exact Hfit | left; simpl; lia].
    + split; [rewrite concat_app; cbn [concat]; rewrite app_nil_r;
              now rewrite Hcat |].
      split; [apply Forall_app; split; [exact Hne | now constructor] |].
      split; [now rewrite estimate_single |].
      split; [apply Forall_app; split; [exact Hfit | now constructor] |].
      left. simpl. lia.
Qed.

Lemma split_fold_inv (text : str) :
  forall (done : str) (st : list str * str * Q),
    inv done st ->
    inv (done ++ text)
      (fold_left (split_step max_width font_size ratio) text st).
Proof.
  induction text as [| c text IH]; intros done st Hinv; cbn [fold_left].
  - now rewrite app_nil_r.
  - replace (done ++ c :: text) with ((done ++ [c]) ++ text)
      by now rewrite <- app_assoc.
    apply IH. now apply split_step_inv.
Qed.

(** The lines and what they keep of the loop invariant. *)
Lemma split_text_by_width_facts (text : str) :
  let lines := split_text_by_width text max_width font_size ratio in
  concat lines = text
  /\ Forall (fun l => l <> []) lines
  /\ (0 < max_width -> Forall (line_fits est max_width) lines).
Proof.
  cbv zeta. unfold split_text_by_width.
  destruct text as [| c0 text'] eqn:Etext; cbn [is_empty orb].
  { repeat split; constructor. }
  rewrite <- Etext.
  destruct (Qle_bool max_width 0) eqn:Emw.
  { apply Qle_bool_iff in Emw. cbn [concat]. rewrite app_nil_r.
    split; [reflexivity |]. split.
    - constructor; [subst; discriminate | constructor].
    - intros H. lra. }
  assert (Hinit : inv [] ([], [], 0)).
  { unfold split_inv. split; [reflexivity |]. split; [constructor |].
    split; [reflexivity |]. split; [constructor |]. left. simpl. lia. }
  apply (split_fold_inv text) in Hinit. cbn [app] in Hinit.
  destruct (fold_left _ text ([], [], 0)) as [[lines cur] cw].
  destruct Hinit as (Hcat & Hne & Hcw & Hfit & Hcur).
  destruct cur as [| c cur]; cbn [is_empty].
  - rewrite app_nil_r in Hcat.
    destruct lines as [| l lines].
    + simpl in Hcat. subst. discriminate.
    + split; [exact Hcat |]. split; [exact Hne | intros _; exact Hfit].
  - assert (Hlines : lines ++ [c :: cur] <> []) by (destruct lines; discriminate).
    destruct (lines ++ [c :: cur]) as [| l ls] eqn:El; [congruence |].
    rewrite <- El.
    split; [rewrite concat_app; cbn [concat]; now rewrite app_nil_r |].
    split; [apply Forall_app; split; [exact Hne | constructor;
                                                  [discriminate | constructor]] |].
    intros _. apply Forall_app. split; [exact Hfit |]. now constructor.
Qed.

(** [split_text_by_width] drops no character and returns no empty line:
    the lines joined give back the text. *)
Theorem split_text_by_width_join (text : str) :
  concat (split_text_by_width text max_width font_size ratio) = text
  /\ Forall (fun l => l <> [])
       (split_text_by_width text max_width font_size ratio).
Proof.
  destruct (split_text_by_width_facts text) as (H1 & H2 & _). now split.
Qed.

(** With a positive [max_width], every line of two characters or more has
    an estimated width of [max_width] at most. *)
Theorem split_text_by_width_fit (text : str) :
  0 < max_width ->
  forall line,
    In line (split_text_by_width text max_width font_size ratio) ->
    (2 <= length line)%nat ->
    estimate_text_width line font_size ratio <= max_width.
Proof.
  intros Hmw line Hin Hlen.
  destruct (split_text_by_width_facts text) as (_ & _ & H3).
  specialize (H3 Hmw). rewrite List.Forall_forall in H3.
  destruct (H3 line Hin) as [H | H]; [lia | exact H].
Qed.

End SplitByWidth.

Lemma split_text_by_width_fit_witness :
  (Text.estimate_text_width (lit "AB") 12 (6 # 10) <= 20)%Q.
Proof.
  apply (split_text_by_width_fit 20 12 (6 # 10) (lit "ABCD")).
  - reflexivity.
  - vm_compute. left. reflexivity.
  - simpl. lia.
Defined.

(** ** Overrides and candidates *)

Section Overrides.
Import PyStr Data Processor Text.

Lemma split_aliases_NoDup (keyword : str) : NoDup (split_aliases keyword).
Proof.
  unfold split_aliases. rewrite split_aliases_sep_steps.
  destruct (alias_fold_spec (alias_parts keyword CONST_ALIAS_SEPARATOR) [])
    as (Hnd & _); [constructor | intros a [] |].
  cbv zeta in Hnd.
  destruct (fold_left alias_step _ []); [apply NoDup_singleton | exact Hnd].
Qed.

Lemma str_eqb_eq (a b : str) : str_eqb a b = true <-> a = b.
Proof. unfold str_eqb. apply bool_decide_eq_true. Qed.

Lemma lookup_override_Some (ovs : list (str * Override)) (k : str)
    (cfg : Override) :
  lookup_override ovs k = Some cfg -> In (k, cfg) ovs.
Proof.
  unfold lookup_override.
  destruct (List.find _ ovs) as [[k' cfg'] |] eqn:E; [| discriminate].
  intros [= <-]. apply find_some in E as [Hin Heq].
  apply str_eqb_eq in Heq. cbn [fst] in Heq. now subst.
Qed.

Lemma lookup_override_None (ovs : list (str * Override)) (k : str) :
  lookup_override ovs k = None <-> forall e, In e ovs -> fst e <> k.
Proof.
  unfold lookup_override. split.
  - destruct (List.find _ ovs) eqn:E; [discriminate |]. intros _ e He Hk.
    pose proof (find_none _ _ E e He) as Hn. cbv beta in Hn.
    rewrite <- Hk in Hn. unfold str_eqb in Hn.
    now rewrite bool_decide_eq_true_2 in Hn.
  - intros Hall. destruct (List.find _ ovs) as [e |] eqn:E; [| reflexivity].
    apply find_some in E as [Hin Heq]. apply str_eqb_eq in Heq.
    exfalso. now apply (Hall e Hin).
Qed.

Lemma find_split (A : Type) (f : A -> bool) (l : list A) (x : A) :
  List.find f l = Some x ->
  exists pre post,
    l = pre ++ x :: post /\ f x = true
    /\ forall e, In e pre -> f e = false.
Proof.
  induction l as [| y l IH]; cbn [List.find]; [discriminate |].
  destruct (f y) eqn:Ey.
  - intros [= ->]. exists [], l. split; [reflexivity |].
    split; [exact Ey | intros e []].
  - intros Hfind. destruct (IH Hfind) as (pre & post & -> & Hx & Hpre).
    exists (y :: pre), post. split; [reflexivity |]. split; [exact Hx |].
    intros e [<- | He]; [exact Ey | now apply Hpre].
Qed.

(** The override found for a key is an entry of the map: the entry under
    the key itself when there is one (the first such entry of the list
    that stands for the map), else the first entry, in the order of the
    map, one of whose configured aliases is an alias of the key: no entry
    before it has such an alias; with neither, the empty override and no
    canonical name. *)
Theorem resolve_override_spec (per_key_overrides : list (str * Override))
    (k : str) :
  match _resolve_override_for_key per_key_overrides k with
  | (Some canon, cfg) =>
      In (canon, cfg) per_key_overrides
      /\ exists pre post,
           per_key_overrides = pre ++ (canon, cfg) :: post
           /\ ((canon = k /\ forall e, In e pre -> fst e <> k)
               \/ ((forall e, In e per_key_overrides -> fst e <> k)
                   /\ alias_hit (split_aliases k) (canon, cfg) = true
                   /\ forall e, In e pre ->
                        alias_hit (split_aliases k) e = false))
  | (None, cfg) =>
      cfg = no_override
      /\ forall e, In e per_key_overrides ->
           fst e <> k /\ alias_hit (split_aliases k) e = false
  end.
Proof.
  unfold _resolve_override_for_key.
  destruct (lookup_override per_key_overrides k) as [cfg |] eqn:El.
  - split; [now apply lookup_override_Some |].
    unfold lookup_override in El.
    destruct (List.find _ per_key_overrides) as [[k' cfg'] |] eqn:Ef;
      [| discriminate].
    cbn [fmap option_fmap option_map snd] in El. injection El as ->.
    destruct (find_split _ _ _ _ Ef) as (pre & post & Hl & Hk & Hpre).
    apply str_eqb_eq in Hk. cbn [fst] in Hk. subst k'.
    exists pre, post. split; [exact Hl |]. left. split; [reflexivity |].
    intros e He Heq. specialize (Hpre e He). cbv beta in Hpre.
    rewrite Heq in Hpre. unfold str_eqb in Hpre.
    now rewrite bool_decide_eq_true_2 in Hpre.
  - pose proof (proj1 (lookup_override_None per_key_overrides k) El) as Hkeys.
    destruct (List.find _ per_key_overrides) as [[canon cfg] |] eqn:Ef.
    + destruct (find_split _ _ _ _ Ef) as (pre & post & Hl & Hhit & Hpre).
      split; [rewrite Hl; apply in_elt |].
      exists pre, post. split; [exact Hl |]. right.
      split; [exact Hkeys |]. split; [exact Hhit | exact Hpre].
    + split; [reflexivity |]. intros e He. split; [now apply Hkeys |].
      exact (find_none _ _ Ef e He).
Qed.

Lemma find_first (A : Type) (f : A -> bool) (pre post : list A) (x : A) :
  (forall e, In e pre -> f e = false) -> f x = true ->
  List.find f (pre ++ x :: post) = Some x.
Proof.
  intros Hpre Hx. induction pre as [| e pre IH]; cbn [app List.find].
  - now rewrite Hx.
  - rewrite (Hpre e (or_introl eq_refl)). apply IH.
    intros e' He'. apply Hpre. now right.
Qed.

(** An input key that is not itself a configured key, one of whose aliases
    is configured for [canon], resolves to the entry of [canon], provided
    no earlier entry claims one of its aliases; the canonical name resolves
    to the same entry. *)
Theorem alias_resolves_to_canonical (pre post : list (str * Override))
    (canon key : str) (cfg : Override) :
  let per_key_overrides := pre ++ (canon, cfg) :: post in
  (forall e, In e per_key_overrides -> fst e <> key) ->
  alias_hit (split_aliases key) (canon, cfg) = true ->
  (forall e, In e pre -> alias_hit (split_aliases key) e = false) ->
  (forall e, In e pre -> fst e <> canon) ->
  _resolve_override_for_key per_key_overrides key = (Some canon, cfg)
  /\ _resolve_override_for_key per_key_overrides canon = (Some canon, cfg).
Proof.
  cbv zeta. intros Hkey Hhit Hpre Hcanon. unfold _resolve_override_for_key.
  split.
  - rewrite (proj2 (lookup_override_None _ key) Hkey).
    now rewrite (find_first _ _ pre post (canon, cfg) Hpre Hhit).
  - unfold lookup_override.
    rewrite (find_first _ (fun e => str_eqb canon (fst e)) pre post (canon, cfg));
      [reflexivity | | now apply str_eqb_eq].
    intros e He. apply not_true_iff_false. rewrite str_eqb_eq.
    intros Heq. now apply (Hcanon e He).
Qed.

Lemma alias_append_spec (aliases : list str) :
  forall cs : list str,
    NoDup cs ->
    let cs' := fold_left (fun cs a => if str_in a cs then cs else cs ++ [a])
                 aliases cs in
    NoDup cs'
    /\ (exists rest, cs' = cs ++ rest)
    /\ forall c, In c cs' <-> In c cs \/ In c aliases.
Proof.
  induction aliases as [| a aliases IH]; intros cs Hnd; cbn [fold_left].
  - split; [exact Hnd |]. split; [exists []; now rewrite app_nil_r |].
    intros c. split; [now left | now intros [H | []]].
  - destruct (str_in a cs) eqn:Ein.
    + apply str_in_In in Ein.
      destruct (IH cs Hnd) as (H1 & H2 & H3).
      split; [exact H1 |]. split; [exact H2 |]. intros c. rewrite H3.
      split; [intros [H | H]; [now left | right; now right] |].
      intros [H | [<- | H]]; [now left | now left | now right].
    + assert (Hnin : ~ In a cs).
      { intros H. apply str_in_In in H. congruence. }
      assert (Hnd' : NoDup (cs ++ [a])).
      { apply NoDup_app. split; [exact Hnd |]. split; [| apply NoDup_singleton].
        intros x Hx Hx'. apply list_elem_of_In in Hx.
        apply list_elem_of_In in Hx'. destruct Hx' as [<- | []]. now apply Hnin. }
      destruct (IH (cs ++ [a]) Hnd') as (H1 & [rest H2] & H3).
      split; [exact H1 |].
      split; [exists (a :: rest); rewrite H2; now rewrite <- app_assoc |].
      intros c. rewrite H3, in_app_iff. cbn [In].
      split; [intros [[H | [H | []]] | H]; auto | intros [H | [H | H]]; auto].
Qed.

(** The candidates searched for a key hold no keyword twice, start with the
    aliases spelled in the key itself, and besides these hold exactly the
    configured aliases and the non-empty canonical name. *)
Theorem candidates_of_spec (key : str) (canon_key : option str) (ov : Override) :
  let cs := candidates_of key canon_key ov in
  NoDup cs
  /\ (exists rest, cs = split_aliases key ++ rest)
  /\ forall c, In c cs <->
       In c (split_aliases key)
       \/ (exists aliases, ov_aliases ov = Some aliases /\ In c aliases)
       \/ (canon_key = Some c /\ c <> []).
Proof.
  cbv zeta. unfold candidates_of.
  set (c0 := split_aliases key).
  assert (H0 : NoDup c0) by apply split_aliases_NoDup.
  set (c1 := match ov_aliases ov with
             | Some al => fold_left _ al c0
             | None => c0
             end).
  assert (H1 : NoDup c1 /\ (exists rest, c1 = c0 ++ rest)
               /\ forall c, In c c1 <->
                    In c c0
                    \/ exists aliases, ov_aliases ov = Some aliases /\ In c aliases).
  { unfold c1. destruct (ov_aliases ov) as [al |].
    - destruct (alias_append_spec al c0 H0) as (Ha & Hb & Hc).
      split; [exact Ha |]. split; [exact Hb |]. intros c. rewrite Hc.
      split; [intros [H | H]; [now left | right; now exists al] |].
      intros [H | (al' & [= <-] & H)]; [now left | now right].
    - split; [exact H0 |]. split; [exists []; now rewrite app_nil_r |].
      intros c. split; [now left |]. intros [H | (al' & Hal & _)];
        [exact H | discriminate]. }
  destruct H1 as (Hnd1 & [rest1 Hrest1] & Hin1).
  destruct canon_key as [ck |].
  - destruct (is_empty ck) eqn:Ee; cbn [negb andb].
    + apply is_empty_true in Ee. subst ck.
      split; [exact Hnd1 |]. split; [now exists rest1 |].
      intros c. rewrite Hin1. split; [intros [H | H]; auto |].
      intros [H | [H | [[= <-] Hne]]]; auto. now contradiction Hne.
    + assert (Hck : ck <> []).
      { intros H. apply is_empty_true in H. congruence. }
      destruct (str_in ck c1) eqn:Ein; cbn [negb].
      * apply str_in_In in Ein.
        split; [exact Hnd1 |]. split; [now exists rest1 |].
        intros c. rewrite Hin1. split; [intros [H | H]; auto |].
        intros [H | [H | [[= <-] _]]]; auto. now apply Hin1.
      * assert (Hnin : ~ In ck c1).
        { intros H. apply str_in_In in H. congruence. }
        split.
        { apply NoDup_app. split; [exact Hnd1 |].
          split; [| apply NoDup_singleton].
          intros x Hx Hx'. apply list_elem_of_In in Hx.
          apply list_elem_of_In in Hx'. destruct Hx' as [<- | []].
          now apply Hnin. }
        split; [exists (rest1 ++ [ck]); rewrite Hrest1;
                now rewrite <- app_assoc |].
        intros c. rewrite in_app_iff, Hin1. cbn [In].
        split.
        -- intros [[H | H] | [<- | []]]; auto.
        -- intros [H | [H | [[= <-] _]]]; auto.
  - split; [exact Hnd1 |]. split; [now exists rest1 |].
    intros c. rewrite Hin1. split; [intros [H | H]; auto |].
    intros [H | [H | [H _]]]; auto. discriminate.
Qed.

End Overrides.

(** ** The plan of a fill *)

Section Planning.
Import PyStr Data Processor Text.

Variable ratio : str -> str -> Q.

Lemma find_keyword_coordinates_hit (pdf : list PdfPage) (keyword : str)
    (p : Z) (thr : Q) (hit : KeywordHit) :
  find_keyword_coordinates ratio pdf keyword p thr = Returned (Some hit) ->
  hit_at pdf p hit.
Proof.
  unfold find_keyword_coordinates.
  destruct ((p <? 0)%Z || (p >=? Z.of_nat (length pdf))%Z) eqn:E;
    [discriminate |].
  apply orb_false_iff in E as [E1 E2].
  apply Z.ltb_ge in E1. rewrite Z.geb_leb in E2. apply Z.leb_gt in E2.
  destruct (pdf !! Z.to_nat p) as [page |] eqn:Epage; [| discriminate].
  destruct (Matching.best_fuzzy_window ratio (pg_chars page) keyword thr)
    as [[s e] |]; [| discriminate].
  destruct (Matching.bbox_of_chars (pg_chars page) s e)
    as [[[[x0 top] x1] bottom] |] eqn:Ebox; [| discriminate].
  intros [= <-]. exists page, s, e, x0, top, x1, bottom.
  split; [split; lia |]. split; [exact Epage |]. split; [exact Ebox |].
  reflexivity.
Qed.

Lemma find_keyword_coordinates_off_page (pdf : list PdfPage) (keyword : str)
    (p : Z) (thr : Q) :
  ~ valid_page (Z.of_nat (length pdf)) p ->
  find_keyword_coordinates ratio pdf keyword p thr = Returned None.
Proof.
  intros Hp. unfold find_keyword_coordinates.
  destruct ((p <? 0)%Z || (p >=? Z.of_nat (length pdf))%Z) eqn:E;
    [reflexivity |].
  apply orb_false_iff in E as [E1 E2].
  apply Z.ltb_ge in E1. rewrite Z.geb_leb in E2. apply Z.leb_gt in E2.
  exfalso. apply Hp. split; lia.
Qed.

Lemma search_on_page_hit (pdf : list PdfPage) (thr : Q) (p : Z)
    (candidates : list str) (hit : KeywordHit) :
  search_on_page ratio pdf thr p candidates = Returned (Some hit) ->
  hit_at pdf p hit.
Proof.
  induction candidates as [| cand rest IH]; cbn [search_on_page];
    [discriminate |].
  destruct (find_keyword_coordinates ratio pdf cand p thr) as [[h |] |] eqn:E;
    [| exact IH | discriminate].
  intros [= <-]. now apply find_keyword_coordinates_hit in E.
Qed.

Lemma search_on_page_off_page (pdf : list PdfPage) (thr : Q) (p : Z)
    (candidates : list str) :
  ~ valid_page (Z.of_nat (length pdf)) p ->
  search_on_page ratio pdf thr p candidates = Returned None.
Proof.
  intros Hp. induction candidates as [| cand rest IH]; cbn [search_on_page];
    [reflexivity |].
  now rewrite find_keyword_coordinates_off_page.
Qed.

Lemma search_pages_hit (pdf : list PdfPage) (thr : Q) (pages : list Z)
    (candidates : list str) (p : Z) (hit : KeywordHit) :
  search_pages ratio pdf thr pages candidates = Returned (Some (p, hit)) ->
  In p pages /\ hit_at pdf p hit.
Proof.
  induction pages as [| q rest IH]; cbn [search_pages]; [discriminate |].
  destruct (search_on_page ratio pdf thr q candidates) as [[h |] |] eqn:E.
  - intros [= <- <-]. split; [now left | now apply search_on_page_hit in E].
  - intros H. destruct (IH H) as [Hin Hhit]. split; [now right | exact Hhit].
  - discriminate.
Qed.

(** What one iteration of the planning loop does for a key with a
    non-empty value: it returns, and the key either goes to the missing
    keys with the plan untouched, or one item is appended to the plan of an
    existing page. *)
Lemma fill_key_cases (pdf : list PdfPage)
    (per_key_overrides : list (str * Override))
    (selected_pages_global : option (list Z)) (thr : Q)
    (st : PlanState) (key value : str) :
  value <> [] ->
  let ov := snd (_resolve_override_for_key per_key_overrides key) in
  let offset_x := default STYLE_OFFSET_X_DEFAULT (ov_offset_x ov) in
  let offset_y := default STYLE_OFFSET_Y_DEFAULT (ov_offset_y ov) in
  exists st',
    fill_key ratio pdf per_key_overrides selected_pages_global thr st (key, value)
    = Returned st'
    /\ total_considered st' = S (total_considered st)
    /\ ((draw_plan st' = draw_plan st
         /\ matched_keys st' = matched_keys st
         /\ missing_keys st' = missing_keys st ++ [key])
        \/ exists p page s e x0 top x1 bottom item,
             valid_page (Z.of_nat (length pdf)) p
             /\ pdf !! Z.to_nat p = Some page
             /\ match ov_page ov with
                | Some q => p = q
                | None =>
                    In p (candidate_pages_of selected_pages_global
                            CONST_PAGE_INDEX_DEFAULT)
                end
             /\ Matching.bbox_of_chars (pg_chars page) s e
                = Some (x0, top, x1, bottom)
             /\ draw_plan st' = plan_append (draw_plan st) p item
             /\ dt_text item = value
             /\ dt_x item
                = (x1 + STYLE_OFFSET_X_DEFAULT
                   + (offset_x - STYLE_OFFSET_X_DEFAULT))%Q
             /\ dt_y item
                = (pg_height page - (bottom + STYLE_OFFSET_Y_DEFAULT)
                   + (offset_y - STYLE_OFFSET_Y_DEFAULT))%Q
             /\ dt_max_width item = ov_max_width ov
             /\ dt_line_spacing item = ov_line_spacing ov
             /\ matched_keys st' = matched_keys st ++ [key]
             /\ missing_keys st' = missing_keys st).
Proof.
  intros Hv. cbv zeta. unfold fill_key.
  destruct (is_empty value) eqn:Ee; [now apply is_empty_true in Ee |].
  destruct (_resolve_override_for_key per_key_overrides key) as [canon_key ov].
  cbn [snd].
  set (cands := candidates_of key canon_key ov).
  assert (Hitem : forall p hit,
             hit_at pdf p hit ->
             match ov_page ov with
             | Some q => p = q
             | None => In p (candidate_pages_of selected_pages_global
                               CONST_PAGE_INDEX_DEFAULT)
             end ->
             exists page s e x0 top x1 bottom item,
               valid_page (Z.of_nat (length pdf)) p
               /\ pdf !! Z.to_nat p = Some page
               /\ match ov_page ov with
                  | Some q => p = q
                  | None => In p (candidate_pages_of selected_pages_global
                                    CONST_PAGE_INDEX_DEFAULT)
                  end
               /\ Matching.bbox_of_chars (pg_chars page) s e
                  = Some (x0, top, x1, bottom)
               /\ (let '(x_final, y_final) :=
                     Coords.adjust_coords (fst (anchor_reportlab hit))
                       (snd (anchor_reportlab hit))
                       (default STYLE_OFFSET_X_DEFAULT (ov_offset_x ov)
                        - STYLE_OFFSET_X_DEFAULT)
                       (default STYLE_OFFSET_Y_DEFAULT (ov_offset_y ov)
                        - STYLE_OFFSET_Y_DEFAULT) in
                   mkDraw value x_final y_final (ov_max_width ov)
                     (ov_line_spacing ov)) = item
               /\ dt_text item = value
               /\ dt_x item
                  = (x1 + STYLE_OFFSET_X_DEFAULT
                     + (default STYLE_OFFSET_X_DEFAULT (ov_offset_x ov)
                        - STYLE_OFFSET_X_DEFAULT))%Q
               /\ dt_y item
                  = (pg_height page - (bottom + STYLE_OFFSET_Y_DEFAULT)
                     + (default STYLE_OFFSET_Y_DEFAULT (ov_offset_y ov)
                        - STYLE_OFFSET_Y_DEFAULT))%Q
               /\ dt_max_width item = ov_max_width ov
               /\ dt_line_spacing item = ov_line_spacing ov).
  { intros p hit (page & s & e & x0 & top & x1 & bottom & Hp & Hpage & Hbox & ->)
      Hwhere.
    exists page, s, e, x0, top, x1, bottom. eexists.
    split; [exact Hp |]. split; [exact Hpage |]. split; [exact Hwhere |].
    split; [exact Hbox |]. split; [reflexivity |].
    cbn [anchor_reportlab fst snd Coords.adjust_coords dt_text dt_x dt_y
         dt_max_width dt_line_spacing].
    repeat split. }
  destruct (ov_page ov) as [q |] eqn:Epage; cbn [default].
  - change (id q) with q.
    destruct (search_on_page ratio pdf thr q cands) as [[hit |] |] eqn:Es.
    + cbn [fmap option_fmap option_map].
      apply search_on_page_hit in Es.
      destruct (Hitem q hit Es eq_refl)
        as (page & s & e & x0 & top & x1 & bottom & item & Hp & Hpg & Hw
            & Hbox & Hmk & Ht & Hx & Hy & Hmw & Hls).
      destruct (Coords.adjust_coords _ _ _ _) as [xf yf] eqn:Eadj.
      eexists. split; [reflexivity |]. split; [reflexivity |]. right.
      exists q, page, s, e, x0, top, x1, bottom, item.
      cbn [draw_plan matched_keys missing_keys]. rewrite Hmk.
      repeat (split; [first [assumption | reflexivity] |]). reflexivity.
    + cbn [fmap option_fmap option_map].
      eexists. split; [reflexivity |]. split; [reflexivity |]. left.
      repeat split.
    + destruct (search_on_page_returns ratio pdf thr q cands) as [r Hr].
      congruence.
  - destruct (search_pages ratio pdf thr
                (candidate_pages_of selected_pages_global
                   CONST_PAGE_INDEX_DEFAULT) cands) as [[[p hit] |] |] eqn:Es.
    + apply search_pages_hit in Es as [Hin Hhit].
      destruct (Hitem p hit Hhit Hin)
        as (page & s & e & x0 & top & x1 & bottom & item & Hp & Hpg & Hw
            & Hbox & Hmk & Ht & Hx & Hy & Hmw & Hls).
      destruct (Coords.adjust_coords _ _ _ _) as [xf yf] eqn:Eadj.
      eexists. split; [reflexivity |]. split; [reflexivity |]. right.
      exists p, page, s, e, x0, top, x1, bottom, item.
      cbn [draw_plan matched_keys missing_keys]. rewrite Hmk.
      repeat (split; [first [assumption | reflexivity] |]). reflexivity.
    + eexists. split; [reflexivity |]. split; [reflexivity |]. left.
      repeat split.
    + destruct (search_pages_returns ratio pdf thr
                  (candidate_pages_of selected_pages_global
                     CONST_PAGE_INDEX_DEFAULT) cands) as [r Hr].
      congruence.
Qed.

(** A key whose override names a page is searched on that page alone,
    whatever pages the call selects; when the document has no such page the
    key is reported missing and nothing is drawn for it. *)
Theorem override_page_confines_search (pdf : list PdfPage)
    (per_key_overrides : list (str * Override)) (thr : Q)
    (st : PlanState) (key value : str) (q : Z) :
  ov_page (snd (_resolve_override_for_key per_key_overrides key)) = Some q ->
  (forall sel1 sel2,
      fill_key ratio pdf per_key_overrides sel1 thr st (key, value)
      = fill_key ratio pdf per_key_overrides sel2 thr st (key, value))
  /\ (value <> [] -> ~ valid_page (Z.of_nat (length pdf)) q ->
      forall sel,
        fill_key ratio pdf per_key_overrides sel thr st (key, value)
        = Returned (mkPlan (draw_plan st) (S (total_considered st))
                      (matched_keys st) (missing_keys st ++ [key]))).
Proof.
  intros Hq. unfold fill_key.
  destruct (_resolve_override_for_key per_key_overrides key) as [canon_key ov].
  cbn [snd] in Hq. rewrite Hq. cbn [default]. change (id q) with q. split.
  - reflexivity.
  - intros Hv Hoff sel.
    destruct (is_empty value) eqn:Ee; [now apply is_empty_true in Ee |].
    now rewrite search_on_page_off_page.
Qed.

(** One key with a non-empty value: the call returns and counts the key;
    the key is either missing, with the plan untouched, or matched, with
    one item appended on an existing page, the page of its override when
    it has one and else one of the pages searched; the item carries the
    value and the width and line spacing of the override, and sits where
    the code computes it from the box of a window of that page: at
    [(x1 + 50.0) + (offset_x - 50.0)] and
    [(page_height - (bottom + 0.0)) + (offset_y - 0.0)], the anchor at the
    default offsets moved by what the override adds to them. *)
Theorem fill_key_outcome (pdf : list PdfPage)
    (per_key_overrides : list (str * Override))
    (selected_pages_global : option (list Z)) (thr : Q)
    (st : PlanState) (key value : str) :
  value <> [] ->
  let ov := snd (_resolve_override_for_key per_key_overrides key) in
  let offset_x := default STYLE_OFFSET_X_DEFAULT (ov_offset_x ov) in
  let offset_y := default STYLE_OFFSET_Y_DEFAULT (ov_offset_y ov) in
  exists st',
    fill_key ratio pdf per_key_overrides selected_pages_global thr st (key, value)
    = Returned st'
    /\ total_considered st' = S (total_considered st)
    /\ ((draw_plan st' = draw_plan st
         /\ matched_keys st' = matched_keys st
         /\ missing_keys st' = missing_keys st ++ [key])
        \/ exists p page s e x0 top x1 bottom item,
             valid_page (Z.of_nat (length pdf)) p
             /\ pdf !! Z.to_nat p = Some page
             /\ match ov_page ov with
                | Some q => p = q
                | None =>
                    In p (candidate_pages_of selected_pages_global
                            CONST_PAGE_INDEX_DEFAULT)
                end
             /\ Matching.bbox_of_chars (pg_chars page) s e
                = Some (x0, top, x1, bottom)
             /\ draw_plan st' = plan_append (draw_plan st) p item
             /\ dt_text item = value
             /\ dt_x item
                = (x1 + STYLE_OFFSET_X_DEFAULT
                   + (offset_x - STYLE_OFFSET_X_DEFAULT))%Q
             /\ dt_y item
                = (pg_height page - (bottom + STYLE_OFFSET_Y_DEFAULT)
                   + (offset_y - STYLE_OFFSET_Y_DEFAULT))%Q
             /\ dt_max_width item = ov_max_width ov
             /\ dt_line_spacing item = ov_line_spacing ov
             /\ matched_keys st' = matched_keys st ++ [key]
             /\ missing_keys st' = missing_keys st).
Proof. apply fill_key_cases. Qed.

Lemma plan_append_lookup (m : gmap Z (list DrawText)) (p q : Z)
    (item : DrawText) (drawn : list DrawText) :
  plan_append m p item !! q = Some drawn ->
  (q = p /\ drawn = default [] (m !! p) ++ [item])
  \/ (q <> p /\ m !! q = Some drawn).
Proof.
  unfold plan_append. destruct (decide (q = p)) as [-> | Hne].
  - rewrite lookup_insert_eq. intros [= <-]. now left.
  - rewrite lookup_insert_ne by congruence. intros H. now right.
Qed.

Lemma plan_ok_weaken (pdf : list PdfPage) (items : list (str * str))
    (st st' : PlanState) :
  draw_plan st' = draw_plan st ->
  (forall k, In k (matched_keys st) -> In k (matched_keys st')) ->
  plan_ok pdf items st -> plan_ok pdf items st'.
Proof.
  intros Hplan Hm Hok p drawn Hp. rewrite Hplan in Hp.
  destruct (Hok p drawn Hp) as (H1 & H2 & H3).
  split; [exact H1 |]. split; [exact H2 |].
  intros item Hin. destruct (H3 item Hin) as (Ht & key & Hk & Hmk).
  split; [exact Ht |]. exists key. split; [exact Hk | now apply Hm].
Qed.

Lemma fill_key_plan_ok (pdf : list PdfPage)
    (per_key_overrides : list (str * Override))
    (selected_pages_global : option (list Z)) (thr : Q)
    (items : list (str * str)) (st : PlanState) (key value : str) :
  In (key, value) items ->
  plan_ok pdf items st ->
  exists st',
    fill_key ratio pdf per_key_overrides selected_pages_global thr st (key, value)
    = Returned st'
    /\ plan_ok pdf items st'.
Proof.
  intros Hin Hok. destruct value as [| c value'] eqn:Ev.
  - exists st. split; [reflexivity | exact Hok].
  - rewrite <- Ev in *.
    assert (Hv : value <> []) by (rewrite Ev; discriminate).
    destruct (fill_key_cases pdf per_key_overrides selected_pages_global thr
                st key value Hv) as (st' & Hret & _ & Hcase).
    exists st'. split; [exact Hret |].
    destruct Hcase as [(Hplan & Hm & _) | Hcase].
    + apply (plan_ok_weaken pdf items st st' Hplan); [| exact Hok].
      intros k. now rewrite Hm.
    + destruct Hcase as (p & page & s & e & x0 & top & x1 & bottom & item & Hp
                         & _ & _ & _ & Hplan & Ht & _ & _ & _ & _ & Hm & _).
      intros q drawn Hq. rewrite Hplan in Hq.
      apply plan_append_lookup in Hq as [[-> ->] | [Hne Hq]].
      * split; [exact Hp |]. split; [now destruct (default [] _) |].
        intros it Hit. apply in_app_iff in Hit as [Hit | [<- | []]].
        -- destruct (draw_plan st !! p) as [old |] eqn:Eold; [| destruct Hit].
           cbn [default] in Hit. change (id old) with old in Hit.
           destruct (Hok p old Eold) as (_ & _ & H3).
           destruct (H3 it Hit) as (Hne & k & Hk & Hmk).
           split; [exact Hne |]. exists k. split; [exact Hk |].
           rewrite Hm. apply in_app_iff. now left.
        -- rewrite Ht. split; [exact Hv |]. exists key. split; [exact Hin |].
           rewrite Hm. apply in_app_iff. right. now left.
      * destruct (Hok q drawn Hq) as (H1 & H2 & H3).
        split; [exact H1 |]. split; [exact H2 |].
        intros it Hit. destruct (H3 it Hit) as (Hne' & k & Hk & Hmk).
        split; [exact Hne' |]. exists k. split; [exact Hk |].
        rewrite Hm. apply in_app_iff. now left.
Qed.

Lemma fill_loop_plan_ok (pdf : list PdfPage)
    (per_key_overrides : list (str * Override))
    (selected_pages_global : option (list Z)) (thr : Q)
    (items todo : list (str * str)) :
  (forall kv, In kv todo -> In kv items) ->
  forall st : PlanState,
    plan_ok pdf items st ->
    exists st',
      fill_loop ratio pdf per_key_overrides selected_pages_global thr st todo
      = Returned st'
      /\ plan_ok pdf items st'.
Proof.
  induction todo as [| [key value] rest IH]; intros Hsub st Hok;
    cbn [fill_loop].
  - exists st. now split.
  - destruct (fill_key_plan_ok pdf per_key_overrides selected_pages_global thr
                items st key value) as (st1 & -> & Hok1);
      [apply Hsub; now left | exact Hok |].
    apply IH; [| exact Hok1]. intros kv Hkv. apply Hsub. now right.
Qed.

(** The keys matched and the keys missing come out in the order of the
    input. *)
Lemma fill_loop_order (pdf : list PdfPage)
    (per_key_overrides : list (str * Override))
    (selected_pages_global : option (list Z)) (thr : Q)
    (todo : list (str * str)) :
  forall st : PlanState,
    exists st' found lost,
      fill_loop ratio pdf per_key_overrides selected_pages_global thr st todo
      = Returned st'
      /\ matched_keys st' = matched_keys st ++ found
      /\ missing_keys st' = missing_keys st ++ lost
      /\ sublist found (map fst todo)
      /\ sublist lost (map fst todo).
Proof.
  induction todo as [| [key value] rest IH]; intros st; cbn [fill_loop].
  - exists st, [], []. rewrite !app_nil_r. repeat split; constructor.
  - destruct (fill_key_accounts ratio pdf per_key_overrides
                selected_pages_global thr st key value) as (st1 & -> & Hacc).
    destruct (IH st1) as (st' & found & lost & Hloop & Hm & Hx & Hsf & Hsl).
    cbn [map fst].
    destruct (is_empty value).
    + subst st1. exists st', found, lost.
      repeat split; try assumption; now apply sublist_cons.
    + destruct Hacc as [_ [(Hm1 & Hx1 & _) | (Hm1 & Hx1 & _)]].
      * exists st', (key :: found), lost. rewrite Hm, Hx, Hm1, Hx1.
        rewrite <- app_assoc. repeat split; try assumption;
          [now apply sublist_skip | now apply sublist_cons].
      * exists st', found, (key :: lost). rewrite Hm, Hx, Hm1, Hx1.
        rewrite <- app_assoc. repeat split; try assumption;
          [now apply sublist_cons | now apply sublist_skip].
Qed.

Section WithPageParsers.

Variable py_lower : str -> str.
Variable py_int : str -> option Z.

(** A fill returns a plan that draws only on pages of the document; no
    page of the plan has an empty item list, and every item carries the
    non-empty value of an input key reported as matched. *)
Theorem fill_by_keywords_plan_valid (pdf : list PdfPage)
    (keyword_to_value : list (str * str))
    (per_key_overrides : list (str * Override))
    (pages : option str) (fuzzy_threshold : option Q) :
  exists st,
    fill_by_keywords ratio py_lower py_int pdf keyword_to_value
      per_key_overrides pages fuzzy_threshold = Returned st
    /\ forall p drawn,
         draw_plan st !! p = Some drawn ->
         valid_page (Z.of_nat (length pdf)) p
         /\ drawn <> []
         /\ forall item, In item drawn ->
              dt_text item <> []
              /\ exists key, In (key, dt_text item) keyword_to_value
                             /\ In key (matched_keys st).
Proof.
  unfold fill_by_keywords.
  apply (fill_loop_plan_ok pdf per_key_overrides _ _ keyword_to_value
           keyword_to_value); [auto |].
  intros p drawn Hp. cbn [empty_plan draw_plan] in Hp.
  now rewrite lookup_empty in Hp.
Qed.

(** The matched keys and the missing keys of a fill are listed in the
    order in which the input gives them. *)
Theorem fill_by_keywords_keeps_order (pdf : list PdfPage)
    (keyword_to_value : list (str * str))
    (per_key_overrides : list (str * Override))
    (pages : option str) (fuzzy_threshold : option Q) :
  exists st,
    fill_by_keywords ratio py_lower py_int pdf keyword_to_value
      per_key_overrides pages fuzzy_threshold = Returned st
    /\ sublist (matched_keys st) (map fst keyword_to_value)
    /\ sublist (missing_keys st) (map fst keyword_to_value).
Proof.
  unfold fill_by_keywords.
  destruct (fill_loop_order pdf per_key_overrides
              (selected_pages py_lower py_int pages (Z.of_nat (length pdf)))
              (default CONST_FUZZY_MATCH_THRESHOLD fuzzy_threshold)
              keyword_to_value empty_plan)
    as (st & found & lost & Hret & Hm & Hx & Hsf & Hsl).
  exists st. split; [exact Hret |]. cbn [empty_plan matched_keys missing_keys app]
    in Hm, Hx. rewrite Hm, Hx. now split.
Qed.

End WithPageParsers.

End Planning.

(** ** The rendering engines *)

Section Rendering.
Import PyStr Data Engines.
Local Open Scope Q_scope.

Variable stringWidth : str -> str -> Q -> option Q.

(** The lines of one item, as both engines place them. *)
Lemma lines_placed_alike (page : nat) (w h size : Q) (use_clamp : bool)
    (margin : Q) (font : str) (item_x spacing : Q) (lines : list str) :
  forall (ops : list Reportlab.Op) (acts : list Action) (y : Q),
    exists draws : list (Q * Q * str),
      fst (fold_left
             (fun st line =>
                Reportlab.draw_line stringWidth w h size use_clamp margin font
                  item_x st spacing line) lines (ops, y))
      = ops ++ map as_draw draws
      /\ fst (fold_left
                (fun st line =>
                   place_line stringWidth page w h size use_clamp margin font
                     item_x st spacing line) lines (acts, y))
         = acts ++ map (as_insert page h font) draws
      /\ map snd draws = lines
      /\ (use_clamp = true ->
          Forall (fun d =>
                    let '(x, _, line) := d in
                    let line_w :=
                      Layout.trial_width stringWidth font size line in
                    margin <= x
                    /\ (margin <= w - margin - line_w ->
                        x <= w - margin - line_w))
            draws).
Proof.
  induction lines as [| line lines IH]; intros ops acts y; cbn [fold_left].
  - exists []. cbn [map]. rewrite !app_nil_r. repeat split. constructor.
  - unfold Reportlab.draw_line at 2, place_line at 2.
    destruct use_clamp.
    + destruct (Coords.clamp_baseline item_x y w h size margin) as [cx cy].
      set (lw := Layout.trial_width stringWidth font size line).
      set (fx := py_min (py_max margin cx) (py_max margin (w - margin - lw))).
      destruct (IH (ops ++ [Reportlab.OpDrawString fx cy line])
                  (acts ++ [ActInsertText page fx (h - cy) line font])
                  (y - spacing)) as (draws & Ho & Ha & Hl & Hb).
      exists ((fx, cy, line) :: draws). cbn [map as_draw as_insert snd].
      rewrite Ho, Ha, <- !app_assoc. cbn [app].
      split; [reflexivity |]. split; [reflexivity |].
      split; [now rewrite Hl |]. intros _. constructor; [| now apply Hb].
      fold lw.
      destruct (py_max_spec margin cx) as (A1 & A2 & _).
      destruct (py_max_spec margin (w - margin - lw)) as (B1 & B2 & B3).
      destruct (py_min_spec (py_max margin cx)
                  (py_max margin (w - margin - lw))) as (C1 & C2 & C3).
      fold fx in C1, C2, C3. split.
      * destruct C3 as [-> | ->]; assumption.
      * intros Hfit. destruct B3 as [B3 | B3]; rewrite B3 in C2; lra.
    + destruct (IH (ops ++ [Reportlab.OpDrawString item_x y line])
                  (acts ++ [ActInsertText page item_x (h - y) line font])
                  (y - spacing)) as (draws & Ho & Ha & Hl & Hb).
      exists ((item_x, y, line) :: draws). cbn [map as_draw as_insert snd].
      rewrite Ho, Ha, <- !app_assoc. cbn [app].
      split; [reflexivity |]. split; [reflexivity |].
      split; [now rewrite Hl |]. discriminate.
Qed.

Lemma item_placed_alike (page : nat) (w h size line_spacing : Q)
    (use_clamp : bool) (margin : Q) (font : str) (ops : list Reportlab.Op)
    (acts : list Action) (item : DrawText) :
  exists draws : list (Q * Q * str),
    Reportlab.draw_item stringWidth w h size line_spacing use_clamp margin
      font ops item
    = ops ++ Reportlab.OpSetFont font size :: map as_draw draws
    /\ place_item stringWidth page w h size line_spacing use_clamp margin
         font acts item
       = acts ++ map (as_insert page h font) draws
    /\ map snd draws
       = Layout.wrap_text_lines stringWidth font size (Some (dt_text item))
           (dt_max_width item).
Proof.
  unfold Reportlab.draw_item, place_item.
  destruct (lines_placed_alike page w h size use_clamp margin font (dt_x item)
              (default line_spacing (dt_line_spacing item))
              (Layout.wrap_text_lines stringWidth font size
                 (Some (dt_text item)) (dt_max_width item))
              (ops ++ [Reportlab.OpSetFont font size]) acts (dt_y item))
    as (draws & Ho & Ha & Hl & _).
  exists draws. rewrite Ho, Ha, <- app_assoc. now split.
Qed.

(** The overlay path and the direct path draw the same lines for an item,
    the wrapped lines of its text in order, at the same horizontal
    position; the overlay keeps the height bottom-up and the direct path
    mirrors it on the page height. *)
Theorem engines_place_same_lines (page : nat) (w h size line_spacing : Q)
    (use_clamp : bool) (margin : Q) (font : str) (ops : list Reportlab.Op)
    (acts : list Action) (item : DrawText) :
  exists draws : list (Q * Q * str),
    Reportlab.draw_item stringWidth w h size line_spacing use_clamp margin
      font ops item
    = ops ++ Reportlab.OpSetFont font size :: map as_draw draws
    /\ place_item stringWidth page w h size line_spacing use_clamp margin
         font acts item
       = acts ++ map (as_insert page h font) draws
    /\ map snd draws
       = Layout.wrap_text_lines stringWidth font size (Some (dt_text item))
           (dt_max_width item).
Proof. apply item_placed_alike. Qed.

(** With clamping on, both engines draw every line of an item at or right
    of the margin, and a line for which the page leaves room, in the
    code's own terms [margin <= page_width - margin - line_w], starts at
    [page_width - margin - line_w] at most. *)
Theorem clamped_lines_within_margins (page : nat) (w h size line_spacing : Q)
    (margin : Q) (font : str) (ops : list Reportlab.Op) (acts : list Action)
    (item : DrawText) :
  exists draws : list (Q * Q * str),
    Reportlab.draw_item stringWidth w h size line_spacing true margin font
      ops item
    = ops ++ Reportlab.OpSetFont font size :: map as_draw draws
    /\ place_item stringWidth page w h size line_spacing true margin font
         acts item
       = acts ++ map (as_insert page h font) draws
    /\ Forall (fun d =>
                 let '(x, _, line) := d in
                 let line_w :=
                   Layout.trial_width stringWidth font size line in
                 margin <= x
                 /\ (margin <= w - margin - line_w ->
                     x <= w - margin - line_w)) draws.
Proof.
  unfold Reportlab.draw_item, place_item.
  destruct (lines_placed_alike page w h size true margin font (dt_x item)
              (default line_spacing (dt_line_spacing item))
              (Layout.wrap_text_lines stringWidth font size
                 (Some (dt_text item)) (dt_max_width item))
              (ops ++ [Reportlab.OpSetFont font size]) acts (dt_y item))
    as (draws & Ho & Ha & _ & Hb).
  exists draws. rewrite Ho, Ha, <- app_assoc.
  split; [reflexivity |]. split; [reflexivity |]. now apply Hb.
Qed.

Lemma shown_pages_app (a b : list Reportlab.Op) :
  shown_pages (a ++ b) = (shown_pages a + shown_pages b)%nat.
Proof. unfold shown_pages. now rewrite List.filter_app, length_app. Qed.

Lemma drawn_lines_app (a b : list Reportlab.Op) :
  drawn_lines (a ++ b) = drawn_lines a ++ drawn_lines b.
Proof. unfold drawn_lines. apply omap_app. Qed.

Lemma inserted_lines_app (a b : list Action) :
  inserted_lines (a ++ b) = inserted_lines a ++ inserted_lines b.
Proof. unfold inserted_lines. apply omap_app. Qed.

Lemma as_draw_lines (draws : list (Q * Q * str)) :
  shown_pages (map as_draw draws) = 0%nat
  /\ drawn_lines (map as_draw draws) = map snd draws.
Proof.
  induction draws as [| [[x y] line] draws [IH1 IH2]]; [now split |].
  split; [exact IH1 |]. cbn [map as_draw snd].
  change (drawn_lines (Reportlab.OpDrawString x y line :: map as_draw draws))
    with (line :: drawn_lines (map as_draw draws)).
  now rewrite IH2.
Qed.

Lemma as_insert_lines (page : nat) (h : Q) (font : str)
    (draws : list (Q * Q * str)) :
  inserted_lines (map (as_insert page h font) draws)
  = map (pair page) (map snd draws).
Proof.
  induction draws as [| [[x y] line] draws IH]; [reflexivity |].
  cbn [map as_insert snd].
  change (inserted_lines
            (ActInsertText page x (h - y) line font
             :: map (as_insert page h font) draws))
    with ((page, line) :: inserted_lines (map (as_insert page h font) draws)).
  now rewrite IH.
Qed.

Lemma items_drawn (page : nat) (w h size line_spacing : Q) (use_clamp : bool)
    (margin : Q) (font : str) (items : list DrawText) :
  forall (ops : list Reportlab.Op) (acts : list Action),
    let lines :=
      concat (map (fun item =>
                     Layout.wrap_text_lines stringWidth font size
                       (Some (dt_text item)) (dt_max_width item)) items) in
    exists new_ops new_acts,
      fold_left (Reportlab.draw_item stringWidth w h size line_spacing
                   use_clamp margin font) items ops = ops ++ new_ops
      /\ fold_left (place_item stringWidth page w h size line_spacing
                      use_clamp margin font) items acts = acts ++ new_acts
      /\ shown_pages new_ops = 0%nat
      /\ ~ In Reportlab.OpSave new_ops
      /\ drawn_lines new_ops = lines
      /\ inserted_lines new_acts = map (pair page) lines
      /\ Forall (fun a => exists x y line,
                   a = ActInsertText page x y line font) new_acts.
Proof.
  induction items as [| item items IH]; intros ops acts; cbn [fold_left].
  - exists [], []. rewrite !app_nil_r. repeat split; auto; try constructor.
  - destruct (item_placed_alike page w h size line_spacing use_clamp margin
                font ops acts item) as (draws & Ho & Ha & Hl).
    rewrite Ho, Ha.
    destruct (IH (ops ++ Reportlab.OpSetFont font size :: map as_draw draws)
                (acts ++ map (as_insert page h font) draws))
      as (no & na & Hfo & Hfa & Hs & Hsave & Hd & Hi & Hall).
    exists (Reportlab.OpSetFont font size :: map as_draw draws ++ no),
      (map (as_insert page h font) draws ++ na).
    rewrite Hfo, Hfa, <- !app_assoc. cbn [app map concat].
    destruct (as_draw_lines draws) as [Hs0 Hd0].
    split; [reflexivity |]. split; [reflexivity |]. split.
    { change (shown_pages (Reportlab.OpSetFont font size
                           :: map as_draw draws ++ no))
        with (shown_pages (map as_draw draws ++ no)).
      rewrite shown_pages_app. lia. }
    split.
    { intros [Hin | Hin]; [discriminate |].
      apply in_app_iff in Hin as [Hin | Hin]; [| now apply Hsave].
      apply in_map_iff in Hin as ([[x y] l] & Heq & _). discriminate. }
    split.
    { change (drawn_lines (Reportlab.OpSetFont font size
                           :: map as_draw draws ++ no))
        with (drawn_lines (map as_draw draws ++ no)).
      now rewrite drawn_lines_app, Hd0, Hd, Hl. }
    split.
    { rewrite inserted_lines_app, as_insert_lines, Hi, Hl.
      now rewrite map_app. }
    apply Forall_app. split; [| exact Hall].
    apply List.Forall_map, List.Forall_forall. intros [[x y] l] _.
    now exists x, (h - y), l.
Qed.

Lemma pages_drawn (draw_plan : gmap Z (list DrawText))
    (size line_spacing : Q) (use_clamp : bool) (margin : Q) (font : str)
    (indexed : list (nat * (Q * Q))) :
  forall (ops : list Reportlab.Op) (acts : list Action),
    exists new_ops new_acts,
      fold_left (page_ops stringWidth draw_plan size line_spacing
                   use_clamp margin font) indexed ops = ops ++ new_ops
      /\ fold_left (place_page stringWidth draw_plan size line_spacing
                      use_clamp margin font) indexed acts = acts ++ new_acts
      /\ shown_pages new_ops = length indexed
      /\ ~ In Reportlab.OpSave new_ops
      /\ drawn_lines new_ops
         = concat (map (fun ix =>
                          planned_lines stringWidth font size draw_plan
                            (fst ix)) indexed)
      /\ inserted_lines new_acts
         = concat (map (fun ix =>
                          map (pair (fst ix))
                            (planned_lines stringWidth font size draw_plan
                               (fst ix))) indexed)
      /\ Forall (fun a => exists page x y line,
                   a = ActInsertText page x y line font
                   /\ In page (map fst indexed)) new_acts.
Proof.
  induction indexed as [| [page [w h]] indexed IH]; intros ops acts;
    cbn [fold_left].
  - exists [], []. rewrite !app_nil_r. repeat split; auto; try constructor.
  - unfold page_ops at 2, place_page at 2.
    destruct (items_drawn page w h size line_spacing use_clamp margin font
                (default [] (draw_plan !! Z.of_nat page))
                (ops ++ [Reportlab.OpSetPageSize w h]) acts)
      as (no1 & na1 & Ho1 & Ha1 & Hs1 & Hsave1 & Hd1 & Hi1 & Hall1).
    rewrite Ho1, Ha1.
    destruct (IH (((ops ++ [Reportlab.OpSetPageSize w h]) ++ no1)
                  ++ [Reportlab.OpShowPage]) (acts ++ na1))
      as (no & na & Hfo & Hfa & Hs & Hsave & Hd & Hi & Hall).
    exists (Reportlab.OpSetPageSize w h :: no1 ++ Reportlab.OpShowPage :: no),
      (na1 ++ na).
    rewrite Hfo, Hfa, <- !app_assoc. cbn [app map concat fst length].
    split; [reflexivity |]. split; [reflexivity |]. split.
    { change (shown_pages (Reportlab.OpSetPageSize w h
                           :: no1 ++ Reportlab.OpShowPage :: no))
        with (shown_pages (no1 ++ Reportlab.OpShowPage :: no)).
      rewrite shown_pages_app.
      change (shown_pages (Reportlab.OpShowPage :: no))
        with (S (shown_pages no)). lia. }
    split.
    { intros [Hin | Hin]; [discriminate |].
      apply in_app_iff in Hin as [Hin | [Hin | Hin]];
        [now apply Hsave1 | discriminate | now apply Hsave]. }
    split.
    { change (drawn_lines (Reportlab.OpSetPageSize w h
                           :: no1 ++ Reportlab.OpShowPage :: no))
        with (drawn_lines (no1 ++ Reportlab.OpShowPage :: no)).
      rewrite drawn_lines_app.
      change (drawn_lines (Reportlab.OpShowPage :: no)) with (drawn_lines no).
      now rewrite Hd1, Hd. }
    split.
    { now rewrite inserted_lines_app, Hi1, Hi. }
    apply Forall_app. split.
    + eapply List.Forall_impl; [| exact Hall1].
      intros a (x & y & l & ->). exists page, x, y, l. split; [reflexivity |].
      now left.
    + eapply List.Forall_impl; [| exact Hall].
      intros a (pg & x & y & l & -> & Hin). exists pg, x, y, l.
      split; [reflexivity | now right].
Qed.

Lemma map_fst_indexed (A : Type) (l : list A) :
  map fst (combine (seq 0 (length l)) l) = seq 0 (length l).
Proof.
  generalize 0%nat. induction l as [| a l IH]; intros n; [reflexivity |].
  cbn [length seq combine map fst]. now rewrite IH.
Qed.

Lemma indexed_In (A : Type) (l : list A) :
  forall (start i : nat),
    (i < length l)%nat ->
    exists x, In ((start + i)%nat, x) (combine (seq start (length l)) l).
Proof.
  induction l as [| a l IH]; intros start i Hi; cbn [length] in *; [lia |].
  cbn [seq combine]. destruct i as [| i].
  - exists a. left. f_equal. lia.
  - destruct (IH (S start) i) as [x Hx]; [lia |]. exists x. right.
    now replace (start + S i)%nat with (S start + i)%nat by lia.
Qed.

(** *** The overlay and its font *)

Section Overlay.

Variable font_registered : str -> bool.

Lemma set_font_fold_raised (w h size line_spacing : Q) (use_clamp : bool)
    (margin : Q) (font : str) (items : list DrawText) :
  fold_left (Reportlab.set_font_and_draw stringWidth font_registered w h size
               line_spacing use_clamp margin font) items Raised = Raised.
Proof. induction items as [| item items IH]; [reflexivity | exact IH]. Qed.

Lemma set_font_fold_registered (w h size line_spacing : Q) (use_clamp : bool)
    (margin : Q) (font : str) (items : list DrawText) :
  font_registered font = true ->
  forall ops,
    fold_left (Reportlab.set_font_and_draw stringWidth font_registered w h
                 size line_spacing use_clamp margin font) items (Returned ops)
    = Returned (fold_left (Reportlab.draw_item stringWidth w h size
                             line_spacing use_clamp margin font) items ops).
Proof.
  intros Hreg. induction items as [| item items IH]; intros ops;
    [reflexivity |].
  cbn [fold_left Reportlab.set_font_and_draw]. rewrite Hreg. apply IH.
Qed.

Lemma draw_page_completes (draw_plan : gmap Z (list DrawText))
    (size line_spacing : Q) (use_clamp : bool) (margin : Q) (font : str)
    (ops : list Reportlab.Op) (page : nat) (wh : Q * Q) :
  font_registered font = true
  \/ default [] (draw_plan !! Z.of_nat page) = [] ->
  Reportlab.draw_page stringWidth font_registered draw_plan size line_spacing
    use_clamp margin font (Returned ops) (page, wh)
  = Returned (page_ops stringWidth draw_plan size line_spacing use_clamp
                margin font ops (page, wh)).
Proof.
  destruct wh as [w h]. unfold Reportlab.draw_page, page_ops.
  intros [Hreg | Hnone].
  - now rewrite set_font_fold_registered.
  - rewrite Hnone. reflexivity.
Qed.

Lemma draw_page_raises (draw_plan : gmap Z (list DrawText))
    (size line_spacing : Q) (use_clamp : bool) (margin : Q) (font : str)
    (ops : list Reportlab.Op) (page : nat) (wh : Q * Q) :
  font_registered font = false ->
  default [] (draw_plan !! Z.of_nat page) <> [] ->
  Reportlab.draw_page stringWidth font_registered draw_plan size line_spacing
    use_clamp margin font (Returned ops) (page, wh) = Raised.
Proof.
  destruct wh as [w h]. unfold Reportlab.draw_page. intros Hreg Hsome.
  destruct (default [] (draw_plan !! Z.of_nat page)) as [| item items];
    [congruence |].
  cbn [fold_left Reportlab.set_font_and_draw]. rewrite Hreg.
  now rewrite set_font_fold_raised.
Qed.

Lemma draw_pages_raised (draw_plan : gmap Z (list DrawText))
    (size line_spacing : Q) (use_clamp : bool) (margin : Q) (font : str)
    (indexed : list (nat * (Q * Q))) :
  fold_left (Reportlab.draw_page stringWidth font_registered draw_plan size
               line_spacing use_clamp margin font) indexed Raised = Raised.
Proof. induction indexed as [| ix indexed IH]; [reflexivity | exact IH]. Qed.

Lemma draw_pages_complete (draw_plan : gmap Z (list DrawText))
    (size line_spacing : Q) (use_clamp : bool) (margin : Q) (font : str)
    (indexed : list (nat * (Q * Q))) :
  font_registered font = true
  \/ (forall ix, In ix indexed ->
        default [] (draw_plan !! Z.of_nat (fst ix)) = []) ->
  forall ops,
    fold_left (Reportlab.draw_page stringWidth font_registered draw_plan size
                 line_spacing use_clamp margin font) indexed (Returned ops)
    = Returned (fold_left (page_ops stringWidth draw_plan size line_spacing
                             use_clamp margin font) indexed ops).
Proof.
  induction indexed as [| [page wh] indexed IH]; intros Hok ops;
    [reflexivity |].
  cbn [fold_left]. rewrite draw_page_completes.
  - apply IH. destruct Hok as [Hreg | Hnone]; [now left | right].
    intros ix Hix. apply Hnone. now right.
  - destruct Hok as [Hreg | Hnone]; [now left | right].
    apply (Hnone (page, wh)). now left.
Qed.

Lemma draw_pages_raise (draw_plan : gmap Z (list DrawText))
    (size line_spacing : Q) (use_clamp : bool) (margin : Q) (font : str)
    (indexed : list (nat * (Q * Q))) :
  font_registered font = false ->
  (exists ix, In ix indexed
              /\ default [] (draw_plan !! Z.of_nat (fst ix)) <> []) ->
  forall ops,
    fold_left (Reportlab.draw_page stringWidth font_registered draw_plan size
                 line_spacing use_clamp margin font) indexed (Returned ops)
    = Raised.
Proof.
  intros Hreg. induction indexed as [| [page wh] indexed IH];
    intros (ix & Hin & Hsome) ops; [destruct Hin |].
  cbn [fold_left].
  destruct (default [] (draw_plan !! Z.of_nat page)) as [| item items] eqn:E.
  - rewrite draw_page_completes by (right; exact E). apply IH.
    destruct Hin as [<- | Hin]; [cbn [fst] in Hsome; congruence |].
    now exists ix.
  - rewrite draw_page_raises; [apply draw_pages_raised | exact Hreg |].
    rewrite E. discriminate.
Qed.

Variable overlay_writable : bool.

(** When [build_text_layer] completes and when it raises. *)
Lemma build_text_layer_outcome (page_sizes : list (Q * Q))
    (draw_plan : gmap Z (list DrawText)) (font_name : str)
    (style_text_color_rgb : Z * Z * Z) (size line_spacing : Q)
    (use_clamp : bool) (margin : Q) :
  let run :=
    Reportlab.build_text_layer stringWidth font_registered overlay_writable
      page_sizes draw_plan font_name style_text_color_rgb size line_spacing
      use_clamp margin in
  (overlay_writable = true ->
   (font_registered font_name = true
    \/ forall i, ~ page_has_items draw_plan (length page_sizes) i) ->
   exists body,
     run = Returned (body ++ [Reportlab.OpSave])
     /\ shown_pages body = length page_sizes
     /\ ~ In Reportlab.OpSave body
     /\ drawn_lines body
        = concat (map (planned_lines stringWidth font_name size draw_plan)
                    (seq 0 (length page_sizes))))
  /\ (font_registered font_name = false ->
      (exists i, page_has_items draw_plan (length page_sizes) i) ->
      run = Raised)
  /\ (overlay_writable = false -> run = Raised).
Proof.
  cbv zeta. unfold Reportlab.build_text_layer.
  destruct style_text_color_rgb as [[r g] b].
  set (first := Reportlab.OpSetFillColorRGB _ _ _).
  split; [| split].
  - intros -> Hok. rewrite draw_pages_complete.
    + destruct (pages_drawn draw_plan size line_spacing use_clamp margin
                  font_name (combine (seq 0 (length page_sizes)) page_sizes)
                  [first] [])
        as (no & na & Ho & _ & Hs & Hsave & Hd & _).
      rewrite Ho. exists ([first] ++ no). split; [reflexivity |]. split.
      { rewrite shown_pages_app, Hs.
        rewrite length_combine, length_seq, Nat.min_id.
        change (shown_pages [first]) with 0%nat. lia. }
      split.
      { intros Hin. apply in_app_iff in Hin as [[Hin | []] | Hin];
          [discriminate | now apply Hsave]. }
      rewrite drawn_lines_app, Hd.
      change (drawn_lines [first]) with (@nil str). cbn [app].
      rewrite <- (map_fst_indexed _ page_sizes) at 2. now rewrite map_map.
    + destruct Hok as [Hreg | Hnone]; [now left | right].
      intros [i x] Hix. cbn [fst].
      destruct (default [] (draw_plan !! Z.of_nat i)) as [| item items] eqn:E;
        [reflexivity |].
      exfalso. apply (Hnone i). split; [| rewrite E; discriminate].
      apply in_combine_l, in_seq in Hix. lia.
  - intros Hreg (i & Hi & Hsome).
    rewrite draw_pages_raise; [reflexivity | exact Hreg |].
    destruct (indexed_In _ page_sizes 0 i Hi) as [x Hx]. cbn [Nat.add] in Hx.
    now exists (i, x).
  - intros ->. now destruct (fold_left _ _ _).
Qed.

(** When the overlay file can be written and the font name is registered
    with ReportLab, or no item is planned for any page of the document,
    [build_text_layer] completes: the overlay has one page for every page
    size handed in, is saved once, at the end, and draws, page by page, the
    wrapped lines of the items planned for that page; items planned for a
    page the document does not have are not drawn.  When the font name is
    not registered and an item is planned for a page of the document, or
    when the overlay file cannot be written, [build_text_layer] raises and
    saves nothing. *)
Theorem build_text_layer_pages (page_sizes : list (Q * Q))
    (draw_plan : gmap Z (list DrawText)) (font_name : str)
    (style_text_color_rgb : Z * Z * Z) (size line_spacing : Q)
    (use_clamp : bool) (margin : Q) :
  let run :=
    Reportlab.build_text_layer stringWidth font_registered overlay_writable
      page_sizes draw_plan font_name style_text_color_rgb size line_spacing
      use_clamp margin in
  (overlay_writable = true ->
   (font_registered font_name = true
    \/ forall i, ~ page_has_items draw_plan (length page_sizes) i) ->
   exists ops,
     run = Returned ops
     /\ shown_pages ops = length page_sizes
     /\ (exists body, ops = body ++ [Reportlab.OpSave]
                      /\ ~ In Reportlab.OpSave body)
     /\ drawn_lines ops
        = concat (map (planned_lines stringWidth font_name size draw_plan)
                    (seq 0 (length page_sizes))))
  /\ (font_registered font_name = false ->
      (exists i, page_has_items draw_plan (length page_sizes) i) ->
      run = Raised)
  /\ (overlay_writable = false -> run = Raised).
Proof.
  cbv zeta.
  destruct (build_text_layer_outcome page_sizes draw_plan font_name
              style_text_color_rgb size line_spacing use_clamp margin)
    as (Hgood & Hbad & Hfile).
  split; [| split; [exact Hbad | exact Hfile]].
  intros Hw Hok. destruct (Hgood Hw Hok) as (body & Hrun & Hs & Hsave & Hd).
  exists (body ++ [Reportlab.OpSave]). split; [exact Hrun |]. split.
  { rewrite shown_pages_app, Hs.
    change (shown_pages [Reportlab.OpSave]) with 0%nat. lia. }
  split; [now exists body |].
  rewrite drawn_lines_app, Hd.
  change (drawn_lines [Reportlab.OpSave]) with (@nil str).
  now rewrite app_nil_r.
Qed.

End Overlay.

(** The engine the direct-embed call reports, when it returns: it reports
    the direct engine exactly when a font file that exists with a [.ttf]
    or [.otf] suffix was handed in and embedding it succeeded, and the
    overlay engine otherwise; the font reported is the font file when one
    was handed in, usable or not, and else the preferred font name. *)
Theorem fill_with_pymupdf_engine_reported (o : Oracle)
    (page_sizes : list (Q * Q)) (draw_plan : gmap Z (list DrawText))
    (rgb : Z * Z * Z) (size line_spacing : Q) (use_clamp : bool) (margin : Q)
    (font_file : option FontPath) (preferred : str) (engine info : str) :
  snd (fill_with_pymupdf stringWidth o page_sizes draw_plan rgb size
         line_spacing use_clamp margin font_file preferred)
  = Returned (engine, info) ->
  let embedded :=
    match font_file with
    | Some f => usable_font f && insert_font_ok o
    | None => false
    end in
  engine = (if embedded then lit "pymupdf" else lit "reportlab")
  /\ info = match font_file with
            | Some f => fp_name f
            | None => preferred
            end
  /\ fitz_open_ok o = true
  /\ (if embedded then draw_ok o else overlay_ok o) = true.
Proof.
  unfold fill_with_pymupdf.
  destruct (fitz_open_ok o); cbn [negb]; [| discriminate].
  destruct font_file as [f |].
  - destruct (usable_font f); cbn [andb].
    + destruct (insert_font_ok o).
      * destruct (draw_ok o); cbn [snd]; [| discriminate].
        intros [= <- <-]. now repeat split.
      * destruct (Reportlab.build_text_layer _ _ _ _ _ _ _ _ _ _ _);
          [| cbn [snd]; discriminate].
        destruct (overlay_ok o); cbn [snd]; [| discriminate].
        intros [= <- <-]. now repeat split.
    + destruct (Reportlab.build_text_layer _ _ _ _ _ _ _ _ _ _ _);
        [| cbn [snd]; discriminate].
      destruct (overlay_ok o); cbn [snd]; [| discriminate].
      intros [= <- <-]. now repeat split.
  - destruct (Reportlab.build_text_layer _ _ _ _ _ _ _ _ _ _ _);
      [| cbn [snd]; discriminate].
    destruct (overlay_ok o); cbn [snd]; [| discriminate].
    intros [= <- <-]. now repeat split.
Qed.

(** On the direct path (font embedded, every library call completing) the
    call embeds the font first, saves last, and in between inserts, page by
    page in document order, exactly the wrapped lines of the items planned
    for that page, all in the embedded font; it inserts nothing for a page
    the document does not have. *)
Theorem fill_with_pymupdf_direct_path (o : Oracle)
    (page_sizes : list (Q * Q)) (draw_plan : gmap Z (list DrawText))
    (rgb : Z * Z * Z) (size line_spacing : Q) (use_clamp : bool) (margin : Q)
    (f : FontPath) (preferred : str) :
  fitz_open_ok o = true -> usable_font f = true ->
  insert_font_ok o = true -> draw_ok o = true ->
  exists texts,
    fst (fill_with_pymupdf stringWidth o page_sizes draw_plan rgb size
           line_spacing use_clamp margin (Some f) preferred)
    = ActInsertFont preferred (fp_name f) :: texts ++ [ActSave]
    /\ Forall (fun a => exists page x y line,
                 a = ActInsertText page x y line preferred
                 /\ (page < length page_sizes)%nat) texts
    /\ inserted_lines texts
       = concat (map (fun page =>
                        map (pair page)
                          (planned_lines stringWidth preferred size draw_plan
                             page))
                   (seq 0 (length page_sizes))).
Proof.
  intros Hopen Hfont Hembed Hdraw. unfold fill_with_pymupdf.
  rewrite Hopen, Hfont, Hembed, Hdraw. cbn [negb fst].
  destruct (pages_drawn draw_plan size line_spacing use_clamp margin preferred
              (combine (seq 0 (length page_sizes)) page_sizes) []
              [ActInsertFont preferred (fp_name f)])
    as (no & na & _ & Ha & _ & _ & _ & Hi & Hall).
  rewrite Ha. exists na. split; [reflexivity |]. split.
  - eapply List.Forall_impl; [| exact Hall].
    intros a (pg & x & y & l & -> & Hin). exists pg, x, y, l.
    split; [reflexivity |]. rewrite map_fst_indexed in Hin.
    apply in_seq in Hin. lia.
  - rewrite Hi. rewrite <- (map_fst_indexed _ page_sizes) at 2.
    now rewrite map_map.
Qed.

End Rendering.

(** ** Fallback of the direct-embed engine *)

Section EngineFallback.
Import PyStr Data Engines Processor.

Variable stringWidth : str -> str -> Q -> option Q.

(** C7: with no usable font file the direct-embed engine takes the overlay
    path: it issues only the overlay and merge primitives, and whenever it
    returns it reports [reportlab], not [pymupdf].  It returns when the
    document opens, the files of the overlay path are written, and either
    the preferred font name is registered with ReportLab or nothing is
    planned for any page.  But the overlay is built under the preferred
    font name, which was only meant for measuring: when that name is not
    registered and an item is planned for a page of the document, the call
    raises, renders nothing and reports no engine. *)
Theorem pymupdf_without_font_raises (o : Oracle)
    (PATH_FONT_FILE : option FontPath)
    (CONST_CANDIDATE_CJK_FONT_PATHS : list FontPath)
    (page_sizes : list (Q * Q)) (plan : gmap Z (list DrawText))
    (use_clamp : bool) (clamp_margin : Q) (self : ProcessorState) :
  select_font_file PATH_FONT_FILE CONST_CANDIDATE_CJK_FONT_PATHS = None ->
  let run :=
    _fill_with_pymupdf stringWidth o PATH_FONT_FILE
      CONST_CANDIDATE_CJK_FONT_PATHS page_sizes plan use_clamp clamp_margin
      self in
  (fitz_open_ok o = true -> overlay_ok o = true ->
   font_registered o preferred_fontname = true
   \/ (forall i, ~ page_has_items plan (length page_sizes) i) ->
   run = ([ActBuildTextLayer preferred_fontname; ActMergePdfs],
          Returned (mkProc (Some (lit "reportlab")) (Some preferred_fontname))))
  /\ (forall self',
        snd run = Returned self' ->
        last_engine_used self' = Some (lit "reportlab")
        /\ last_engine_used self' <> Some (lit "pymupdf"))
  /\ (forall a,
        In a (fst run) ->
        a = ActBuildTextLayer preferred_fontname \/ a = ActMergePdfs)
  /\ (fitz_open_ok o = true ->
      font_registered o preferred_fontname = false ->
      (exists i, page_has_items plan (length page_sizes) i) ->
      run = ([ActBuildTextLayer preferred_fontname], Raised)).
Proof.
  intros Hfont run. subst run. unfold _fill_with_pymupdf, fill_with_pymupdf.
  rewrite Hfont.
  destruct (build_text_layer_outcome stringWidth (font_registered o)
              (overlay_ok o) page_sizes plan preferred_fontname
              STYLE_TEXT_COLOR_RGB STYLE_FONT_SIZE_DEFAULT STYLE_LINE_SPACING
              use_clamp clamp_margin) as (Hgood & Hbad & _).
  cbv zeta in Hgood, Hbad.
  split; [| split; [| split]].
  - intros -> Hover Hok. destruct (Hgood Hover Hok) as (body & -> & _).
    now rewrite Hover.
  - intros self'.
    destruct (fitz_open_ok o); cbn [negb snd]; [| discriminate].
    destruct (Reportlab.build_text_layer _ _ _ _ _ _ _ _ _ _ _);
      [| cbn [snd]; discriminate].
    destruct (overlay_ok o); cbn [snd]; [| discriminate].
    intros [= <-]. split; [reflexivity | discriminate].
  - intros a.
    destruct (fitz_open_ok o); cbn [negb fst In]; [| intros []].
    destruct (Reportlab.build_text_layer _ _ _ _ _ _ _ _ _ _ _);
      [destruct (overlay_ok o) |]; cbn [app fst In]; intros H;
      repeat (destruct H as [H | H]; [subst a; auto |]); destruct H.
  - intros -> Hreg Hitems. now rewrite (Hbad Hreg Hitems).
Qed.

End EngineFallback.

(** ** Merging the overlay *)

Section MergePages.

Variable PageObject : Type.
Variable merge_page : PageObject -> PageObject -> PageObject.

(** The merged document has the pages of the base, in order: each merged
    with the overlay page of the same index as far as the overlay reaches,
    the remaining ones untouched; overlay pages beyond the base are
    dropped. *)
Theorem merge_pdfs_pages (base overlay : list PageObject) :
  let out := Reportlab.merge_pdfs PageObject merge_page base overlay in
  length out = length base
  /\ out = zip_with merge_page (take (length overlay) base) overlay
           ++ drop (length overlay) base.
Proof.
  cbv zeta. unfold Reportlab.merge_pdfs. split; [apply length_imap |].
  revert overlay. induction base as [| page base IH]; intros overlay.
  - now destruct overlay.
  - rewrite imap_cons. destruct overlay as [| o overlay].
    + cbn [lookup length take drop zip_with app]. f_equal.
      specialize (IH []). cbn [length take drop zip_with app] in IH.
      rewrite drop_0 in IH. rewrite <- IH at 2. apply imap_ext.
      intros i x _. reflexivity.
    + cbn [length take drop zip_with app]. f_equal.
      rewrite <- IH. apply imap_ext. intros i x _. reflexivity.
Qed.

End MergePages.

(** ** The raster engine *)

Section RasterEngine.
Import PyStr Data Raster.

Variable stringWidth : str -> str -> Q -> option Q.

(** The font information the raster engine reports once a page has been
    rendered. *)
Local Abbreviation font_info_of o font_file :=
  (match font_file with
   | Some f =>
       if Engines.usable_font f && truetype_ok o then Some (fp_name f)
       else None
   | None => None
   end).

Lemma raster_page_font_info (o : Pillow) (draw_plan : gmap Z (list DrawText))
    (size line_spacing scale : Q) (use_clamp : bool) (margin : Q)
    (font_file : option FontPath) (acts : list Action)
    (font_info : option (option str)) (page_index : nat) (wh : Q * Q) :
  match default [] (draw_plan !! Z.of_nat page_index) with
  | [] =>
      raster_page stringWidth o draw_plan size line_spacing scale use_clamp
        margin font_file (acts, font_info) (page_index, wh)
      = (acts, font_info)
  | _ =>
      snd (raster_page stringWidth o draw_plan size line_spacing scale
             use_clamp margin font_file (acts, font_info) (page_index, wh))
      = Some (font_info_of o font_file)
  end.
Proof.
  unfold raster_page. destruct wh as [w h].
  destruct (default [] (draw_plan !! Z.of_nat page_index)) as [| item items];
    [reflexivity |].
  destruct font_file as [f |]; cbn [andb].
  - destruct (Engines.usable_font f); cbn [andb].
    + destruct (truetype_ok o).
      * destruct (getmetrics o _) as [[a d] |]; reflexivity.
      * destruct (getmetrics o _) as [[a d] |]; reflexivity.
    + destruct (getmetrics o _) as [[a d] |]; reflexivity.
  - destruct (getmetrics o _) as [[a d] |]; reflexivity.
Qed.

Lemma raster_pages_font_info (o : Pillow) (draw_plan : gmap Z (list DrawText))
    (size line_spacing scale : Q) (use_clamp : bool) (margin : Q)
    (font_file : option FontPath) (indexed : list (nat * (Q * Q))) :
  forall (acts : list Action) (font_info : option (option str)),
    exists acts' font_info',
      fold_left (raster_page stringWidth o draw_plan size line_spacing scale
                   use_clamp margin font_file) indexed (acts, font_info)
      = (acts', font_info')
      /\ (font_info' = font_info
          \/ font_info' = Some (font_info_of o font_file))
      /\ ((forall ix, In ix indexed ->
             default [] (draw_plan !! Z.of_nat (fst ix)) = []) ->
          acts' = acts /\ font_info' = font_info)
      /\ ((exists ix, In ix indexed
                      /\ default [] (draw_plan !! Z.of_nat (fst ix)) <> []) ->
          font_info' = Some (font_info_of o font_file)).
Proof.
  induction indexed as [| [page wh] indexed IH]; intros acts font_info;
    cbn [fold_left].
  - exists acts, font_info. split; [reflexivity |]. split; [now left |].
    split; [now split |]. intros (ix & [] & _).
  - pose proof (raster_page_font_info o draw_plan size line_spacing scale
                  use_clamp margin font_file acts font_info page wh) as Hpage.
    destruct (default [] (draw_plan !! Z.of_nat page)) as [| item items] eqn:E.
    + rewrite Hpage.
      destruct (IH acts font_info) as (acts' & fi' & Hf & Hor & Hnone & Hsome).
      exists acts', fi'. split; [exact Hf |]. split; [exact Hor |]. split.
      * intros Hall. apply Hnone. intros ix Hix. apply Hall. now right.
      * intros (ix & [<- | Hix] & Hne); [cbn [fst] in Hne; congruence |].
        apply Hsome. now exists ix.
    + destruct (raster_page stringWidth o draw_plan size line_spacing scale
                  use_clamp margin font_file (acts, font_info) (page, wh))
        as [acts1 fi1]. cbn [snd] in Hpage. subst fi1.
      destruct (IH acts1 (Some (font_info_of o font_file)))
        as (acts' & fi' & Hf & Hor & _ & _).
      assert (Hfi : fi' = Some (font_info_of o font_file))
        by (destruct Hor; assumption).
      exists acts', fi'. split; [exact Hf |]. split; [now right |]. split.
      * intros Hall. specialize (Hall (page, wh) (or_introl eq_refl)).
        cbn [fst] in Hall. congruence.
      * intros _. exact Hfi.
Qed.

Lemma raster_outcome (o : Pillow)
    (page_sizes : list (Q * Q)) (draw_plan : gmap Z (list DrawText))
    (size line_spacing : Q) (raster_scale : option Q) (use_clamp : bool)
    (margin : Q) (font_file : option FontPath) :
  import_ok o = true -> fitz_open_ok o = true -> save_ok o = true ->
  let run :=
    fill_with_raster stringWidth o page_sizes draw_plan size line_spacing
      raster_scale use_clamp margin font_file in
  ((exists i, page_has_items draw_plan (length page_sizes) i) ->
   snd run = Returned (lit "raster", font_info_of o font_file))
  /\ ((forall i, ~ page_has_items draw_plan (length page_sizes) i) ->
      run = ([ActSave], Raised)).
Proof.
  intros Himp Hopen Hsave. cbv zeta. unfold fill_with_raster.
  rewrite Himp, Hopen, Hsave. cbn [negb].
  set (scale := match raster_scale with Some _ => _ | None => _ end).
  destruct (raster_pages_font_info o draw_plan size line_spacing scale
              use_clamp margin font_file
              (combine (seq 0 (length page_sizes)) page_sizes) [] None)
    as (acts & fi & -> & _ & Hnone & Hsome).
  split.
  - intros (i & Hi & Hne).
    destruct (indexed_In _ page_sizes 0 i Hi) as [x Hx]. cbn [Nat.add] in Hx.
    rewrite (Hsome (ex_intro _ (i, x) (conj Hx Hne))). reflexivity.
  - intros Hno. destruct Hnone as [-> ->]; [| reflexivity].
    intros [i x] Hix. cbn [fst].
    destruct (default [] (draw_plan !! Z.of_nat i)) as [| item items] eqn:E;
      [reflexivity |].
    exfalso. apply (Hno i). split; [| rewrite E; discriminate].
    apply in_combine_l, in_seq in Hix. lia.
Qed.

(** With Pillow importing, the document opening and the save completing,
    the raster engine returns only when the plan holds an item for some
    page of the document; it then reports the font file when that file is
    usable and loads, and no font otherwise.  With no item on any page it
    saves the unchanged document and then raises, its result variable
    never having been assigned. *)
Theorem fill_with_raster_needs_an_item (o : Pillow)
    (page_sizes : list (Q * Q)) (draw_plan : gmap Z (list DrawText))
    (size line_spacing : Q) (raster_scale : option Q) (use_clamp : bool)
    (margin : Q) (font_file : option FontPath) :
  import_ok o = true -> fitz_open_ok o = true -> save_ok o = true ->
  let run :=
    fill_with_raster stringWidth o page_sizes draw_plan size line_spacing
      raster_scale use_clamp margin font_file in
  ((exists i, page_has_items draw_plan (length page_sizes) i) ->
   snd run = Returned (lit "raster", font_info_of o font_file))
  /\ ((forall i, ~ page_has_items draw_plan (length page_sizes) i) ->
      run = ([ActSave], Raised)).
Proof. apply raster_outcome. Qed.

End RasterEngine.

(** ** Retrying *)

Section Retrying.
Import Data Retry.

Context {A : Type}.
Variable func : nat -> attempt A.
Variable retries : Z.
Variables delay_s backoff : Q.

Lemma Qltb_nonneg (wait : Q) : (0 <= wait)%Q -> Qltb wait 0 = false.
Proof.
  intros H. unfold Qltb. apply Qle_bool_iff in H. now rewrite H.
Qed.

Lemma wrapper_loop_spec (fuel : nat) :
  (0 <= backoff)%Q ->
  forall (attempt_no : nat) (wait : Q) (slept : list Q),
    (0 <= wait)%Q ->
    (Z.to_nat retries < attempt_no + fuel)%nat ->
    (attempt_no <= Z.to_nat retries)%nat ->
    (forall k, (k < attempt_no)%nat -> func k = Retryable) ->
    (forall n, waits delay_s backoff (attempt_no + n)
               = slept ++ waits wait backoff n) ->
    exists r,
      wrapper_loop func retries backoff fuel attempt_no wait slept = Some r
      /\ (1 <= calls r <= S (Z.to_nat retries))%nat
      /\ sleeps r = waits delay_s backoff (calls r - 1)
      /\ (forall k, (k < calls r - 1)%nat -> func k = Retryable)
      /\ match func (calls r - 1) with
         | Success a => result r = Returned a
         | Fatal => result r = Raised
         | Retryable =>
             result r = Raised /\ calls r = S (Z.to_nat retries)
         end.
Proof.
  intros Hbackoff.
  induction fuel as [| fuel IH]; intros attempt_no wait slept Hwait Hfuel Hle
    Hpast Hwaits; [lia |].
  cbn [wrapper_loop].
  assert (Hslept : slept = waits delay_s backoff attempt_no).
  { specialize (Hwaits 0%nat). cbn [waits] in Hwaits.
    rewrite app_nil_r, Nat.add_0_r in Hwaits. now symmetry. }
  destruct (func attempt_no) as [a | |] eqn:Ecall.
  - eexists. split; [reflexivity |]. cbn [calls sleeps result].
    replace (S attempt_no - 1)%nat with attempt_no by lia.
    rewrite Ecall. repeat split; try lia; assumption.
  - destruct (Z.of_nat attempt_no >=? retries)%Z eqn:Eend.
    + eexists. split; [reflexivity |]. cbn [calls sleeps result].
      replace (S attempt_no - 1)%nat with attempt_no by lia.
      rewrite Ecall. rewrite Z.geb_leb in Eend. apply Z.leb_le in Eend.
      repeat split; try lia; assumption.
    + rewrite Z.geb_leb in Eend. apply Z.leb_gt in Eend.
      rewrite (Qltb_nonneg wait Hwait).
      apply IH; [now apply Qmult_le_0_compat | lia | lia | |].
      * intros k Hk. destruct (decide (k = attempt_no)) as [-> | Hne];
          [exact Ecall | apply Hpast; lia].
      * intros n. specialize (Hwaits (S n)). cbn [waits] in Hwaits.
        rewrite Nat.add_succ_r in Hwaits. cbn [Nat.add].
        rewrite Hwaits, <- app_assoc. reflexivity.
  - eexists. split; [reflexivity |]. cbn [calls sleeps result].
    replace (S attempt_no - 1)%nat with attempt_no by lia.
    rewrite Ecall. repeat split; try lia; assumption.
Qed.

(** With an initial delay and a back-off factor that are not negative (as
    [time.sleep] demands of every wait), the retry wrapper always finishes.
    It calls the wrapped function at least once and at most [retries + 1]
    times, every call but the last having raised a retryable exception; it
    sleeps once between two calls, for the initial delay first and
    [backoff] times longer each time after; its outcome is that of the last
    call: the value returned, or the exception raised, a retryable one only
    when the retries are used up. *)
Theorem retry_on_exception_spec :
  (0 <= delay_s)%Q -> (0 <= backoff)%Q ->
  exists r,
    retry_on_exception retries delay_s backoff func = Some r
    /\ (1 <= calls r <= S (Z.to_nat retries))%nat
    /\ sleeps r = waits delay_s backoff (calls r - 1)
    /\ (forall k, (k < calls r - 1)%nat -> func k = Retryable)
    /\ match func (calls r - 1) with
       | Success a => result r = Returned a
       | Fatal => result r = Raised
       | Retryable => result r = Raised /\ calls r = S (Z.to_nat retries)
       end.
Proof.
  intros Hdelay Hbackoff. unfold retry_on_exception.
  apply wrapper_loop_spec; [exact Hbackoff | exact Hdelay | lia | lia | |].
  - intros k Hk. lia.
  - intros n. reflexivity.
Qed.

End Retrying.

(** ** Input data and keyword configuration *)

Section InputData.
Import PyStr Data DataHandler.

Lemma dict_set_fresh (V : Type) (d : list (str * V)) (k : str) (v : V) :
  ~ In k (map fst d) -> dict_set d k v = d ++ [(k, v)].
Proof.
  induction d as [| [k' v'] d IH]; intros Hk; cbn [dict_set app];
    [reflexivity |].
  cbn [map fst In] in Hk.
  destruct (str_eqb k k') eqn:E.
  - apply str_eqb_eq in E. subst. exfalso. apply Hk. now left.
  - rewrite IH; [reflexivity |]. intros Hin. apply Hk. now right.
Qed.

Lemma NoDup_app_middle (k : str) (l1 l2 : list str) :
  NoDup (l1 ++ k :: l2) ->
  ~ In k l1 /\ NoDup (l1 ++ l2) /\ NoDup ((l1 ++ [k]) ++ l2).
Proof.
  intros Hnd. split; [| split].
  - apply NoDup_app in Hnd as (_ & Hdis & _). intros Hin.
    apply list_elem_of_In in Hin. apply (Hdis k Hin). now left.
  - apply NoDup_ListNoDup in Hnd. apply NoDup_ListNoDup.
    now apply List.NoDup_remove_1 in Hnd.
  - now rewrite <- app_assoc.
Qed.

Lemma sanitize_loop (raw : list (str * option str)) :
  forall cleaned : list (str * str),
    NoDup (map fst cleaned ++ map fst raw) ->
    fold_left
      (fun cleaned kv =>
         match snd kv with
         | None => cleaned
         | Some v =>
             let vs := strip v in
             if is_empty vs then cleaned else dict_set cleaned (fst kv) vs
         end)
      raw cleaned
    = cleaned ++ omap cleaned_value raw.
Proof.
  induction raw as [| [k v] raw IH]; intros cleaned Hnd; cbn [fold_left].
  - cbn. now rewrite app_nil_r.
  - cbn [map fst] in Hnd.
    destruct (NoDup_app_middle _ _ _ Hnd) as (Hfresh & Hnd1 & Hnd2).
    cbn [omap list_omap]. unfold cleaned_value at 1. cbn [snd fst].
    destruct v as [v |]; [| now apply IH].
    cbv zeta. destruct (is_empty (strip v)); [now apply IH |].
    rewrite dict_set_fresh by exact Hfresh.
    rewrite IH; [now rewrite <- app_assoc |].
    now rewrite map_app.
Qed.

Lemma cleaned_value_clean (kv : str * option str) (k v : str) :
  cleaned_value kv = Some (k, v) ->
  k = fst kv /\ v <> [] /\ strip v = v.
Proof.
  unfold cleaned_value. destruct (snd kv) as [v0 |]; [| discriminate].
  destruct (is_empty (strip v0)) eqn:E; [discriminate |].
  intros [= <- <-]. split; [reflexivity |]. split.
  - intros H. apply is_empty_true in H. congruence.
  - apply strip_idempotent.
Qed.

Lemma cleaned_keys_In (raw : list (str * option str)) (k : str) :
  In k (map fst (omap cleaned_value raw)) -> In k (map fst raw).
Proof.
  intros Hin. apply in_map_iff in Hin as ([k' v'] & Hk & Hin).
  cbn [fst] in Hk. subst k'.
  apply list_elem_of_In, list_elem_of_omap in Hin as (kv & Hkv & Heq).
  apply cleaned_value_clean in Heq as (Hfst & _). rewrite Hfst.
  apply in_map. now apply list_elem_of_In.
Qed.

Lemma cleaned_keys_NoDup (raw : list (str * option str)) :
  NoDup (map fst raw) -> NoDup (map fst (omap cleaned_value raw)).
Proof.
  induction raw as [| kv raw IH]; intros Hnd; [constructor |].
  cbn [map] in Hnd. apply NoDup_cons in Hnd as [Hk Hrest].
  cbn [omap list_omap].
  destruct (cleaned_value kv) as [[k' v'] |] eqn:E; [| now apply IH].
  apply cleaned_value_clean in E as (Hfst & _). cbn [fmap list_fmap map fst].
  apply NoDup_cons. split; [| now apply IH].
  intros Hin. apply Hk. apply list_elem_of_In in Hin. apply list_elem_of_In.
  rewrite <- Hfst. now apply cleaned_keys_In.
Qed.

(** Sanitising input with distinct keys keeps, in the order of the input,
    exactly the entries whose value is neither absent nor blank, each with
    its value stripped; every value kept is non-empty and already
    stripped, so a fill considers every key of the result, and sanitising
    the result again changes nothing. *)
Theorem sanitize_input_data_spec (raw : list (str * option str)) :
  NoDup (map fst raw) ->
  let cleaned := sanitize_input_data raw in
  cleaned = omap cleaned_value raw
  /\ Forall (fun kv => snd kv <> [] /\ strip (snd kv) = snd kv) cleaned
  /\ Spec.considered_keys cleaned = map fst cleaned
  /\ sanitize_input_data (map (fun kv => (fst kv, Some (snd kv))) cleaned)
     = cleaned.
Proof.
  intros Hnd. cbv zeta. unfold sanitize_input_data.
  rewrite sanitize_loop by exact Hnd. cbn [app].
  set (cleaned := omap cleaned_value raw).
  assert (Hclean : Forall (fun kv => snd kv <> [] /\ strip (snd kv) = snd kv)
                     cleaned).
  { apply List.Forall_forall. intros [k v] Hin.
    apply list_elem_of_In, list_elem_of_omap in Hin as (kv & _ & Hkv).
    apply cleaned_value_clean in Hkv as (_ & H1 & H2). now split. }
  assert (Hkeys : NoDup (map fst cleaned)).
  { unfold cleaned. now apply cleaned_keys_NoDup. }
  clearbody cleaned.
  split; [reflexivity |]. split; [exact Hclean |]. split.
  - unfold Spec.considered_keys. f_equal.
    clear Hkeys. induction Hclean as [| [k v] l [Hne _] _ IH]; [reflexivity |].
    cbn [snd] in Hne. cbn [List.filter snd].
    destruct v; [congruence |]. cbn [is_empty negb]. now rewrite IH.
  - rewrite sanitize_loop; cbn [app].
    + clear Hkeys. induction Hclean as [| [k v] l [Hne Hs] _ IH];
        [reflexivity |].
      cbn [snd] in Hne, Hs.
      cbn [map omap list_omap fst snd]. unfold cleaned_value at 1.
      cbn [snd fst]. rewrite Hs.
      destruct (is_empty v) eqn:E; [now apply is_empty_true in E |].
      now rewrite IH.
    + cbn [map app]. rewrite map_map. cbn [fst]. exact Hkeys.
Qed.

Lemma dict_set_cases (V : Type) (d : list (str * V)) (k : str) (v : V) :
  (In k (map fst d) /\ map fst (dict_set d k v) = map fst d)
  \/ (~ In k (map fst d) /\ dict_set d k v = d ++ [(k, v)]).
Proof.
  induction d as [| [k' v'] d IH]; cbn [dict_set map fst app In].
  - right. split; [tauto | reflexivity].
  - destruct (str_eqb k k') eqn:E.
    + apply str_eqb_eq in E. subst. left. split; [now left | reflexivity].
    + assert (Hne : k' <> k).
      { intros ->. unfold str_eqb in E.
        now rewrite bool_decide_eq_true_2 in E. }
      destruct IH as [[Hin Hkeys] | [Hnin Heq]].
      * left. split; [now right |]. cbn [map fst]. now rewrite Hkeys.
      * right. split; [tauto |]. now rewrite Heq.
Qed.

Lemma dict_set_NoDup (V : Type) (d : list (str * V)) (k : str) (v : V) :
  NoDup (map fst d) -> NoDup (map fst (dict_set d k v)).
Proof.
  intros Hnd. destruct (dict_set_cases V d k v) as [[_ ->] | [Hnin ->]];
    [exact Hnd |].
  rewrite map_app. cbn [map fst]. apply NoDup_app. split; [exact Hnd |].
  split; [| apply NoDup_singleton].
  intros x Hx Hx'. apply list_elem_of_In in Hx. apply list_elem_of_In in Hx'.
  destruct Hx' as [<- | []]. now apply Hnin.
Qed.

Lemma In_dict_set (V : Type) (d : list (str * V)) (k : str) (v : V)
    (e : str * V) :
  In e (dict_set d k v) -> e = (k, v) \/ In e d.
Proof.
  induction d as [| [k' v'] d IH]; cbn [dict_set In].
  - intros [<- | []]. now left.
  - destruct (str_eqb k k') eqn:E.
    + apply str_eqb_eq in E. subst. intros [<- | Hin]; [now left |].
      right. now right.
    + intros [<- | Hin]; [right; now left |].
      destruct (IH Hin) as [-> | Hd]; [now left | right; now right].
Qed.

Lemma dedupe_NoDup (aliases : list str) :
  forall alias_set seen : list str,
    NoDup aliases ->
    (forall a, In a aliases -> ~ In a seen) ->
    fold_left
      (fun st a =>
         let '(alias_set, seen) := st in
         if str_in a seen then (alias_set, seen)
         else (alias_set ++ [a], a :: seen))
      aliases (alias_set, seen)
    = (alias_set ++ aliases, rev aliases ++ seen).
Proof.
  induction aliases as [| a aliases IH]; intros alias_set seen Hnd Hnew;
    cbn [fold_left].
  - cbn. now rewrite app_nil_r.
  - apply NoDup_cons in Hnd as [Ha Hrest].
    destruct (str_in a seen) eqn:E.
    + apply str_in_In in E. exfalso. apply (Hnew a); [now left | exact E].
    + rewrite IH; [| exact Hrest |].
      * cbn [rev]. now rewrite <- !app_assoc.
      * intros b Hb [<- | Hin].
        -- apply Ha. now apply list_elem_of_In.
        -- apply (Hnew b); [now right | exact Hin].
Qed.

Lemma split_aliases_head (raw_key : str) :
  exists rest, Text.split_aliases raw_key = canonical_of raw_key :: rest.
Proof.
  unfold canonical_of.
  destruct (Text.split_aliases raw_key) as [| a rest] eqn:E; [| now exists rest].
  unfold Text.split_aliases in E. rewrite split_aliases_sep_steps in E.
  destruct (fold_left alias_step _ []); discriminate.
Qed.

(** The alias list stored for a raw key is the list of its aliases. *)
Lemma alias_set_of_eq (raw_key : str) :
  alias_set_of raw_key = Text.split_aliases raw_key.
Proof.
  unfold alias_set_of.
  rewrite dedupe_NoDup; [| apply split_aliases_NoDup | intros a _ []].
  cbn [app]. rewrite app_nil_r.
  destruct (split_aliases_head raw_key) as [rest Hrest].
  destruct (str_in (canonical_of raw_key) (rev (Text.split_aliases raw_key)))
    eqn:E; [reflexivity |].
  exfalso. apply not_true_iff_false in E. apply E, str_in_In.
  apply in_rev. rewrite rev_involutive, Hrest. now left.
Qed.

Lemma lookup_override_NoDup (ovs : list (str * Override)) (k : str)
    (cfg : Override) :
  NoDup (map fst ovs) -> In (k, cfg) ovs ->
  Processor.lookup_override ovs k = Some cfg.
Proof.
  unfold Processor.lookup_override.
  induction ovs as [| [k' cfg'] ovs IH]; intros Hnd Hin; [destruct Hin |].
  cbn [map fst] in Hnd. apply NoDup_cons in Hnd as [Hk Hrest].
  cbn [List.find fst]. destruct Hin as [[= -> ->] | Hin].
  - unfold str_eqb. now rewrite bool_decide_eq_true_2.
  - destruct (str_eqb k k') eqn:E; [| now apply IH].
    apply str_eqb_eq in E. subst k'. exfalso. apply Hk.
    apply list_elem_of_In. apply in_map_iff. now exists (k, cfg).
Qed.

(** The entries built from the raw items of a configuration. *)
Lemma config_fold_entries (P : str -> Prop)
    (raw_items : list (str * Override)) :
  (forall raw_key, In raw_key (map fst raw_items) -> P raw_key) ->
  forall result : list (str * Override),
    NoDup (map fst result) ->
    (forall canon cfg, In (canon, cfg) result ->
       exists raw_key, P raw_key /\ canon = canonical_of raw_key
                       /\ ov_aliases cfg = Some (alias_set_of raw_key)) ->
    let result' :=
      fold_left
        (fun result kv =>
           let '(raw_key, cfg) := kv in
           let merged :=
             mkOverride (ov_page cfg) (ov_offset_x cfg) (ov_offset_y cfg)
               (ov_max_width cfg) (ov_line_spacing cfg)
               (Some (alias_set_of raw_key)) in
           dict_set result (canonical_of raw_key) merged)
        raw_items result in
    NoDup (map fst result')
    /\ forall canon cfg, In (canon, cfg) result' ->
         exists raw_key,
           P raw_key /\ canon = canonical_of raw_key
           /\ ov_aliases cfg = Some (alias_set_of raw_key).
Proof.
  induction raw_items as [| [raw_key cfg0] raw_items IH];
    intros HP result Hnd Hinv; cbn [fold_left].
  - now split.
  - apply IH.
    + intros rk Hrk. apply HP. now right.
    + now apply dict_set_NoDup.
    + intros canon cfg Hin. apply In_dict_set in Hin as [[= -> ->] | Hin];
        [| now apply Hinv].
      exists raw_key. split; [apply HP; now left | now split].
Qed.

Lemma raw_items_keys (data : list (str * option Override)) :
  forall d : list (str * Override),
    (forall k, In k (map fst d) -> k <> DOC_KEY) ->
    forall k,
      In k (map fst
              (fold_left
                 (fun d kv =>
                    if str_eqb (fst kv) DOC_KEY then d
                    else dict_set d (fst kv) (default no_override (snd kv)))
                 data d)) ->
      k <> DOC_KEY /\ (In k (map fst d) \/ In k (map fst data)).
Proof.
  induction data as [| [k0 v0] data IH]; intros d Hd k Hk; cbn [fold_left] in Hk.
  - split; [now apply Hd | now left].
  - cbn [fst snd] in Hk. destruct (str_eqb k0 DOC_KEY) eqn:E.
    + destruct (IH d Hd k Hk) as [H1 [H2 | H2]];
        (split; [exact H1 |]); [now left | right; now right].
    + assert (Hk0 : k0 <> DOC_KEY).
      { intros H. apply str_eqb_eq in H. congruence. }
      destruct (IH (dict_set d k0 (default no_override v0))) with (k := k)
        as [H1 H2]; [| exact Hk |].
      * intros k' Hk'.
        destruct (dict_set_cases _ d k0 (default no_override v0))
          as [[_ Heq] | [_ Heq]]; rewrite Heq in Hk'; [now apply Hd |].
        rewrite map_app in Hk'. apply in_app_iff in Hk' as [Hk' | [<- | []]];
          [now apply Hd | exact Hk0].
      * split; [exact H1 |]. destruct H2 as [H2 | H2]; [| right; now right].
        destruct (dict_set_cases _ d k0 (default no_override v0))
          as [[_ Heq] | [_ Heq]]; rewrite Heq in H2; [now left |].
        rewrite map_app in H2. apply in_app_iff in H2 as [H2 | [<- | []]];
          [now left | right; now left].
Qed.

Lemma load_keywords_config_entries_aux (data : list (str * option Override)) :
  NoDup (map fst (load_keywords_config data))
  /\ forall canon cfg,
       In (canon, cfg) (load_keywords_config data) ->
       exists raw_key rest,
         Text.split_aliases raw_key = canon :: rest
         /\ ov_aliases cfg = Some (canon :: rest).
Proof.
  unfold load_keywords_config.
  set (raw_items := fold_left _ data []).
  destruct (config_fold_entries (fun _ => True) raw_items)
    with (result := @nil (str * Override))
    as [Hnd Hall]; [auto | constructor | intros ? ? [] |].
  cbv zeta in Hnd, Hall. split; [exact Hnd |].
  intros canon cfg Hin.
  destruct (Hall canon cfg Hin) as (rk & _ & Hc & Hal).
  destruct (split_aliases_head rk) as [rest Hrest].
  exists rk, rest. rewrite Hc. split; [exact Hrest |].
  now rewrite Hal, alias_set_of_eq, Hrest.
Qed.

(** The configuration loaded from a JSON object has one entry per
    canonical name.  Each entry comes from a key of the object other than
    the documentation key: its name is the first alias of that key, its
    alias list is the alias list of that key, which holds the name, and
    the name itself resolves to the entry. *)
Theorem load_keywords_config_entries (data : list (str * option Override)) :
  let result := load_keywords_config data in
  NoDup (map fst result)
  /\ forall canon cfg,
       In (canon, cfg) result ->
       exists raw_key rest,
         In raw_key (map fst data) /\ raw_key <> DOC_KEY
         /\ Text.split_aliases raw_key = canon :: rest
         /\ ov_aliases cfg = Some (canon :: rest)
         /\ Processor._resolve_override_for_key result canon
            = (Some canon, cfg).
Proof.
  cbv zeta. unfold load_keywords_config.
  set (raw_items := fold_left _ data []).
  destruct (config_fold_entries
              (fun rk => rk <> DOC_KEY /\ In rk (map fst data)) raw_items)
    with (result := @nil (str * Override))
    as [Hnd Hall]; [| constructor | intros ? ? [] |].
  { intros rk Hrk.
    destruct (raw_items_keys data []
                (fun k (H : In k []) => match H with end) rk Hrk)
      as [Hdoc [[] | Hdata]]. now split. }
  cbv zeta in Hnd, Hall. split; [exact Hnd |].
  intros canon cfg Hin.
  destruct (Hall canon cfg Hin) as (rk & [Hdoc Hdata] & Hc & Hal).
  destruct (split_aliases_head rk) as [rest Hrest].
  exists rk, rest. rewrite Hc. split; [exact Hdata |]. split; [exact Hdoc |].
  split; [exact Hrest |]. split; [now rewrite Hal, alias_set_of_eq, Hrest |].
  unfold Processor._resolve_override_for_key.
  rewrite <- Hc. now rewrite (lookup_override_NoDup _ canon cfg Hnd Hin).
Qed.

Lemma split_sep_free (sep : N) (s : str) :
  forall p, In p (split sep s) -> contains sep p = false.
Proof.
  induction s as [| c s IH]; intros p Hp; cbn [split] in Hp.
  - destruct Hp as [<- | []]. reflexivity.
  - destruct (c =? sep)%N eqn:E.
    + destruct Hp as [<- | Hp]; [reflexivity | now apply IH].
    + destruct (split sep s) as [| w ws] eqn:Es.
      * destruct Hp as [<- | []]. cbn. rewrite N.eqb_sym, E. reflexivity.
      * destruct Hp as [<- | Hp].
        -- cbn [contains existsb]. rewrite N.eqb_sym, E. cbn [orb].
           apply (IH w). now left.
        -- apply IH. now right.
Qed.

Lemma alias_parts_sep_free (keyword : str) (sep : N) (p : str) :
  In p (alias_parts keyword sep) -> contains sep p = false.
Proof.
  unfold alias_parts. destruct (contains sep keyword) eqn:E; cbn [negb].
  - apply split_sep_free.
  - intros [<- | []]. exact E.
Qed.

Lemma contains_strip (sep : N) (p : str) :
  contains sep p = false -> contains sep (strip p) = false.
Proof.
  unfold contains. intros H. apply not_true_iff_false. intros Hc.
  apply existsb_exists in Hc as (c & Hin & Hc).
  apply not_true_iff_false in H. apply H. apply existsb_exists.
  exists c. split; [now apply In_strip | exact Hc].
Qed.

Lemma split_aliases_part (keyword p : str) :
  In p (alias_parts keyword CONST_ALIAS_SEPARATOR) -> strip p <> [] ->
  In (strip p) (Text.split_aliases keyword).
Proof.
  intros Hp Hne. unfold Text.split_aliases. rewrite split_aliases_sep_steps.
  destruct (alias_fold_spec (alias_parts keyword CONST_ALIAS_SEPARATOR) [])
    as (_ & _ & Hin & _); [constructor | intros a [] |].
  cbv zeta in Hin.
  assert (H : In (strip p)
                (fold_left alias_step
                   (alias_parts keyword CONST_ALIAS_SEPARATOR) []))
    by (apply Hin; right; split; eauto).
  now destruct (fold_left alias_step _ []).
Qed.

(** A stripped keyword without separator is its own single alias. *)
Lemma split_aliases_single (a : str) :
  strip a = a -> contains CONST_ALIAS_SEPARATOR a = false ->
  Text.split_aliases a = [a].
Proof.
  intros Hs Hsep. unfold Text.split_aliases, Text.split_aliases_sep.
  rewrite Hsep. cbn [negb fold_left]. rewrite Hs.
  destruct a; reflexivity.
Qed.

Lemma raw_items_fresh (data : list (str * option Override)) :
  forall d : list (str * Override),
    NoDup (map fst d ++ map fst (config_items data)) ->
    fold_left
      (fun d kv =>
         if str_eqb (fst kv) DOC_KEY then d
         else dict_set d (fst kv) (default no_override (snd kv)))
      data d
    = d ++ map (fun kv => (fst kv, default no_override (snd kv)))
             (config_items data).
Proof.
  induction data as [| [k v] data IH]; intros d Hnd; cbn [fold_left].
  - cbn. now rewrite app_nil_r.
  - unfold config_items in *. cbn [List.filter fst snd] in *.
    destruct (str_eqb k DOC_KEY); cbn [negb] in *; [now apply IH |].
    cbn [map fst] in Hnd.
    destruct (NoDup_app_middle _ _ _ Hnd) as (Hfresh & _ & Hnd2).
    rewrite dict_set_fresh by exact Hfresh.
    rewrite IH; [cbn [map fst snd]; now rewrite <- app_assoc |].
    now rewrite map_app.
Qed.

Lemma config_fold_fresh (raw_items : list (str * Override)) :
  forall result : list (str * Override),
    NoDup (map fst result ++ map (fun kv => canonical_of (fst kv)) raw_items) ->
    fold_left
      (fun result kv =>
         let '(raw_key, cfg) := kv in
         let merged :=
           mkOverride (ov_page cfg) (ov_offset_x cfg) (ov_offset_y cfg)
             (ov_max_width cfg) (ov_line_spacing cfg)
             (Some (alias_set_of raw_key)) in
         dict_set result (canonical_of raw_key) merged)
      raw_items result
    = result
      ++ map (fun kv =>
                (canonical_of (fst kv),
                 mkOverride (ov_page (snd kv)) (ov_offset_x (snd kv))
                   (ov_offset_y (snd kv)) (ov_max_width (snd kv))
                   (ov_line_spacing (snd kv))
                   (Some (alias_set_of (fst kv))))) raw_items.
Proof.
  induction raw_items as [| [raw_key cfg] raw_items IH]; intros result Hnd;
    cbn [fold_left].
  - cbn. now rewrite app_nil_r.
  - cbn [map fst] in Hnd.
    destruct (NoDup_app_middle _ _ _ Hnd) as (Hfresh & _ & Hnd2).
    rewrite dict_set_fresh by exact Hfresh.
    rewrite IH; [cbn [map fst snd]; now rewrite <- app_assoc |].
    now rewrite map_app.
Qed.

Lemma NoDup_map_inv (X : Type) (f : X -> str) (l : list X) :
  NoDup (map f l) -> NoDup l.
Proof.
  induction l as [| x l IH]; intros Hnd; [constructor |].
  cbn [map] in Hnd. apply NoDup_cons in Hnd as [Hx Hrest].
  apply NoDup_cons. split; [| now apply IH].
  intros Hin. apply Hx. apply list_elem_of_In. apply in_map.
  now apply list_elem_of_In.
Qed.

(** When the keys of a configuration object have distinct canonical names,
    every non-blank part of a key is an alias that resolves, in the loaded
    configuration, to an entry listing it among its aliases. *)
Theorem configured_alias_resolves (data : list (str * option Override))
    (raw_key p : str) :
  NoDup (map (fun kv => canonical_of (fst kv)) (config_items data)) ->
  In raw_key (map fst (config_items data)) ->
  In p (alias_parts raw_key CONST_ALIAS_SEPARATOR) ->
  strip p <> [] ->
  exists canon cfg aliases,
    Processor._resolve_override_for_key (load_keywords_config data) (strip p)
    = (Some canon, cfg)
    /\ In (canon, cfg) (load_keywords_config data)
    /\ ov_aliases cfg = Some aliases
    /\ In (strip p) aliases.
Proof.
  intros Hcanon Hkey Hp Hne.
  set (a := strip p).
  assert (Hsingle : Text.split_aliases a = [a]).
  { apply split_aliases_single; [apply strip_idempotent |].
    apply contains_strip. now apply alias_parts_sep_free in Hp. }
  (* the loaded configuration, entry by entry *)
  set (norm := fun kv : str * Override =>
                 (canonical_of (fst kv),
                  mkOverride (ov_page (snd kv)) (ov_offset_x (snd kv))
                    (ov_offset_y (snd kv)) (ov_max_width (snd kv))
                    (ov_line_spacing (snd kv))
                    (Some (alias_set_of (fst kv))))).
  set (items := map (fun kv : str * option Override =>
                       (fst kv, default no_override (snd kv)))
                  (config_items data)).
  assert (Hload : load_keywords_config data = map norm items).
  { unfold load_keywords_config.
    rewrite raw_items_fresh.
    - cbn [app]. fold items. rewrite config_fold_fresh; [reflexivity |].
      cbn [map app]. unfold items. rewrite map_map. exact Hcanon.
    - cbn [map app]. rewrite <- (map_map fst canonical_of) in Hcanon.
      now apply NoDup_map_inv in Hcanon. }
  (* the entry of the raw key lists the alias *)
  assert (Hentry : exists e,
             In e (load_keywords_config data)
             /\ Processor.alias_hit [a] e = true).
  { apply in_map_iff in Hkey as ([k v] & Hk & Hin). cbn [fst] in Hk. subst k.
    exists (norm (raw_key, default no_override v)). split.
    - rewrite Hload. apply in_map. unfold items.
      apply in_map_iff. now exists (raw_key, v).
    - unfold Processor.alias_hit, norm. cbn [snd fst ov_aliases existsb].
      rewrite orb_false_r. apply str_in_In. rewrite alias_set_of_eq.
      now apply split_aliases_part. }
  pose proof (load_keywords_config_entries_aux data) as [Hnd Hall].
  unfold Processor._resolve_override_for_key.
  destruct (Processor.lookup_override (load_keywords_config data) a)
    as [cfg |] eqn:El.
  - apply lookup_override_Some in El.
    destruct (Hall a cfg El) as (rk & rest & Hsplit & Hal).
    exists a, cfg, (a :: rest). split; [reflexivity |].
    split; [exact El |]. split; [exact Hal | now left].
  - rewrite Hsingle.
    destruct (List.find (Processor.alias_hit [a]) (load_keywords_config data))
      as [[canon cfg] |] eqn:Ef.
    + apply find_some in Ef as [Hin Hhit].
      unfold Processor.alias_hit in Hhit. cbn [snd existsb] in Hhit.
      destruct (ov_aliases cfg) as [al |] eqn:Eal; [| discriminate].
      rewrite orb_false_r in Hhit. apply str_in_In in Hhit.
      exists canon, cfg, al. now repeat split.
    + destruct Hentry as (e & Hin & Hhit).
      pose proof (find_none _ _ Ef e Hin) as Hn. congruence.
Qed.

End InputData.

(** ** The call as a whole *)

Section WholeCall.
Import PyStr Data Fill.

Variable ratio : str -> str -> Q.
Variable py_lower : str -> str.
Variable py_int : str -> option Z.
Variable stringWidth : str -> str -> Q -> option Q.

Lemma plan_items_insert (m : gmap Z (list DrawText)) (p : Z)
    (drawn : list DrawText) :
  m !! p = None ->
  Processor.plan_items (<[p := drawn]> m)
  = (length drawn + Processor.plan_items m)%nat.
Proof.
  intros Hp. unfold Processor.plan_items.
  rewrite map_fold_insert_L; [reflexivity | intros; lia | exact Hp].
Qed.

Lemma plan_items_positive (m : gmap Z (list DrawText)) :
  Processor.plan_items m <> 0%nat ->
  exists p drawn, m !! p = Some drawn /\ drawn <> [].
Proof.
  induction m as [| p drawn m Hp _ IH] using map_first_key_ind.
  - intros H. exfalso. apply H. apply map_fold_empty.
  - rewrite plan_items_insert by exact Hp. intros Hpos.
    destruct drawn as [| item drawn].
    + destruct IH as (q & dq & Hq & Hne); [cbn in Hpos; lia |].
      exists q, dq. split; [| exact Hne].
      rewrite lookup_insert_ne; [exact Hq | congruence].
    + exists p, (item :: drawn). split; [apply lookup_insert_eq | discriminate].
Qed.

Lemma plan_items_zero (m : gmap Z (list DrawText)) :
  Processor.plan_items m = 0%nat ->
  forall p drawn, m !! p = Some drawn -> drawn = [].
Proof.
  induction m as [| p drawn m Hp _ IH] using map_first_key_ind.
  - intros _ q dq Hq. now rewrite lookup_empty in Hq.
  - rewrite plan_items_insert by exact Hp. intros Hzero q dq Hq.
    destruct (decide (q = p)) as [-> | Hne].
    + rewrite lookup_insert_eq in Hq. injection Hq as <-.
      destruct drawn; [reflexivity | cbn in Hzero; lia].
    + rewrite lookup_insert_ne in Hq by congruence.
      apply (IH ltac:(lia) q dq Hq).
Qed.

(** The plan of a fill, with the facts the engines rely on. *)
Lemma planning_facts (pdf : list PdfPage)
    (keyword_to_value : list (str * str))
    (per_key_overrides : list (str * Override))
    (pages : option str) (fuzzy_threshold : option Q) :
  exists st,
    Processor.fill_by_keywords ratio py_lower py_int pdf keyword_to_value
      per_key_overrides pages fuzzy_threshold = Returned st
    /\ plan_ok pdf keyword_to_value st
    /\ Processor.plan_items (Processor.draw_plan st)
       = length (Processor.matched_keys st)
    /\ Processor.total_considered st
       = (length (Processor.matched_keys st)
          + length (Processor.missing_keys st))%nat.
Proof.
  unfold Processor.fill_by_keywords.
  set (sel := Processor.selected_pages py_lower py_int pages _).
  set (thr := default CONST_FUZZY_MATCH_THRESHOLD fuzzy_threshold).
  destruct (fill_loop_plan_ok ratio pdf per_key_overrides sel thr
              keyword_to_value keyword_to_value (fun kv H => H)
              Processor.empty_plan) as (st & Hret & Hok).
  { intros p drawn Hp. cbn [Processor.empty_plan Processor.draw_plan] in Hp.
    now rewrite lookup_empty in Hp. }
  destruct (fill_loop_accounts ratio pdf per_key_overrides sel thr
              keyword_to_value Processor.empty_plan)
    as (st' & Hret' & Htot & Hitems & Hperm).
  rewrite Hret in Hret'. injection Hret' as <-.
  exists st. split; [exact Hret |]. split; [exact Hok |].
  cbn [Processor.empty_plan Processor.draw_plan Processor.matched_keys
       Processor.missing_keys Processor.total_considered app length] in *.
  rewrite plan_items_empty in Hitems.
  split; [lia |].
  apply Permutation_length in Hperm. rewrite length_app in Hperm. lia.
Qed.

(** Whatever the engine and whatever the libraries do, the call leaves the
    statistics of its search in [last_fill_stats]: the keys considered are
    those matched plus those missing, and the two counts are the lengths
    of the two lists. *)
Theorem fill_by_keywords_records_stats (libs : Libraries)
    (self : PDFProcessor) (pdf : list PdfPage)
    (keyword_to_value : list (str * str))
    (per_key_overrides : list (str * Override)) (pages : option str)
    (fuzzy_threshold : option Q) (engine : str) (enable_clamp : option bool)
    (clamp_margin raster_scale : option Q) :
  exists st stats,
    Processor.fill_by_keywords ratio py_lower py_int pdf keyword_to_value
      per_key_overrides pages fuzzy_threshold = Returned st
    /\ last_fill_stats
         (fst (Fill.fill_by_keywords ratio py_lower py_int stringWidth libs
                 self pdf keyword_to_value per_key_overrides pages
                 fuzzy_threshold engine enable_clamp clamp_margin
                 raster_scale)) = Some stats
    /\ fs_matched_keys stats = Processor.matched_keys st
    /\ fs_missing stats = Processor.missing_keys st
    /\ fs_matched stats = length (fs_matched_keys stats)
    /\ fs_missing_count stats = length (fs_missing stats)
    /\ fs_total stats = (fs_matched stats + fs_missing_count stats)%nat.
Proof.
  destruct (planning_facts pdf keyword_to_value per_key_overrides pages
              fuzzy_threshold) as (st & Hret & _ & _ & Htot).
  exists st. eexists. split; [exact Hret |].
  unfold Fill.fill_by_keywords. rewrite Hret.
  split.
  - destruct (str_eqb engine (lit "pymupdf")).
    + destruct (snd (Processor._fill_with_pymupdf _ _ _ _ _ _ _ _ _));
        reflexivity.
    + destruct (str_eqb engine (lit "raster")).
      * unfold _fill_with_raster.
        destruct (snd (Raster.fill_with_raster _ _ _ _ _ _ _ _ _ _))
          as [[e i] |]; reflexivity.
      * destruct (retried (build_text_layer_call libs)); [| reflexivity].
        destruct (retried (merge_pdfs_call libs)); reflexivity.
  - cbn [fs_matched_keys fs_missing fs_matched fs_missing_count fs_total].
    repeat split. exact Htot.
Qed.

(** With the raster engine and every library call completing, the call
    returns exactly when some key was matched; with no key matched, for
    instance on empty input, it raises after the search.  When it returns
    it reports the raster engine. *)
Theorem raster_fill_needs_a_match (libs : Libraries) (self : PDFProcessor)
    (pdf : list PdfPage) (keyword_to_value : list (str * str))
    (per_key_overrides : list (str * Override)) (pages : option str)
    (fuzzy_threshold : option Q) (enable_clamp : option bool)
    (clamp_margin raster_scale : option Q) :
  pillow_works (pillow libs) ->
  let run :=
    Fill.fill_by_keywords ratio py_lower py_int stringWidth libs self pdf
      keyword_to_value per_key_overrides pages fuzzy_threshold (lit "raster")
      enable_clamp clamp_margin raster_scale in
  exists st,
    Processor.fill_by_keywords ratio py_lower py_int pdf keyword_to_value
      per_key_overrides pages fuzzy_threshold = Returned st
    /\ (Processor.matched_keys st = [] -> snd run = Raised)
    /\ (Processor.matched_keys st <> [] ->
        snd run = Returned tt
        /\ last_engine_used (fst run) = Some (lit "raster")).
Proof.
  intros (Himp & Hopen & Hsave). cbv zeta.
  destruct (planning_facts pdf keyword_to_value per_key_overrides pages
              fuzzy_threshold) as (st & Hret & Hok & Hitems & _).
  exists st. split; [exact Hret |].
  unfold Fill.fill_by_keywords. rewrite Hret.
  change (str_eqb (lit "raster") (lit "pymupdf")) with false.
  change (str_eqb (lit "raster") (lit "raster")) with true.
  cbv iota. unfold _fill_with_raster.
  set (sizes := map (fun p => (pg_width p, pg_height p)) pdf).
  assert (Hlen : length sizes = length pdf) by apply length_map.
  destruct (raster_outcome stringWidth (pillow libs) sizes
              (Processor.draw_plan st) Processor.STYLE_FONT_SIZE_DEFAULT
              Processor.STYLE_LINE_SPACING
              (Some (default CONST_RASTER_SCALE raster_scale))
              (default CONST_ENABLE_CLAMP_DEFAULT enable_clamp)
              (default CONST_CLAMP_MARGIN_DEFAULT clamp_margin)
              (Processor.select_font_file (PATH_FONT_FILE libs)
                 (CONST_CANDIDATE_CJK_FONT_PATHS libs)) Himp Hopen Hsave)
    as [Hsome Hnone].
  split.
  - intros Hm. rewrite Hnone; [reflexivity |].
    intros i [Hi Hne]. apply Hne.
    destruct (Processor.draw_plan st !! Z.of_nat i) as [drawn |] eqn:E;
      [| reflexivity].
    cbn [default]. change (id drawn) with drawn.
    apply (plan_items_zero (Processor.draw_plan st)) with (p := Z.of_nat i);
      [| exact E].
    now rewrite Hitems, Hm.
  - intros Hm.
    destruct (plan_items_positive (Processor.draw_plan st))
      as (p & drawn & Hp & Hne).
    { rewrite Hitems. now destruct (Processor.matched_keys st). }
    destruct (Hok p drawn Hp) as ([Hp0 Hp1] & _ & _).
    rewrite Hsome.
    + cbn [last_font_info snd fst last_engine_used]. now split.
    + exists (Z.to_nat p). split; [rewrite Hlen; lia |].
      rewrite Z2Nat.id by lia. rewrite Hp. exact Hne.
Qed.

(** With any engine name other than the direct and the raster one, the
    call builds the overlay and merges it, each step tried up to three
    times; it returns exactly when both steps succeed within their three
    attempts, and then reports the overlay engine and the registered
    font. *)
Theorem default_engine_retries (libs : Libraries) (self : PDFProcessor)
    (pdf : list PdfPage) (keyword_to_value : list (str * str))
    (per_key_overrides : list (str * Override)) (pages : option str)
    (fuzzy_threshold : option Q) (engine : str) (enable_clamp : option bool)
    (clamp_margin raster_scale : option Q) :
  engine <> lit "pymupdf" -> engine <> lit "raster" ->
  let run :=
    Fill.fill_by_keywords ratio py_lower py_int stringWidth libs self pdf
      keyword_to_value per_key_overrides pages fuzzy_threshold engine
      enable_clamp clamp_margin raster_scale in
  (snd run = Returned tt <->
   succeeds_within 3 (build_text_layer_call libs)
   /\ succeeds_within 3 (merge_pdfs_call libs))
  /\ (snd run = Returned tt ->
      last_engine_used (fst run) = Some (lit "reportlab")
      /\ last_font_info (fst run) = font_registered_name self).
Proof.
  intros Hpy Hra. cbv zeta.
  destruct (planning_facts pdf keyword_to_value per_key_overrides pages
              fuzzy_threshold) as (st & Hret & _).
  unfold Fill.fill_by_keywords. rewrite Hret.
  destruct (str_eqb engine (lit "pymupdf")) eqn:E1;
    [now apply str_eqb_eq in E1 |].
  destruct (str_eqb engine (lit "raster")) eqn:E2;
    [now apply str_eqb_eq in E2 |].
  assert (Hretry : forall call,
             retried call = Returned tt <-> succeeds_within 3 call).
  { intros call. unfold retried, Retry.retry_on_exception.
    assert (Hbackoff : (0 <= 2)%Q) by (unfold Qle; cbn; lia).
    assert (Hdelay : (0 <= 2 # 10)%Q) by (unfold Qle; cbn; lia).
    destruct (wrapper_loop_spec call CONST_MAX_RETRY (2 # 10) 2
                (S (Z.to_nat CONST_MAX_RETRY)) Hbackoff 0 (2 # 10) [] Hdelay)
      as (r & -> & Hcalls & _ & Hpast & Hlast);
      [lia | lia | intros k Hk; lia | intros n; reflexivity |].
    change (Z.to_nat CONST_MAX_RETRY) with 2%nat in *.
    split.
    - intros Hres. exists (Retry.calls r - 1)%nat.
      split; [lia |]. split; [| exact Hpast].
      destruct (call (Retry.calls r - 1)%nat) as [[] | |];
        [reflexivity | destruct Hlast; congruence | congruence].
    - intros (i & Hi & Hsucc & Hbefore).
      destruct (lt_eq_lt_dec (Retry.calls r - 1) i) as [[Hlt | Heq] | Hgt].
      + rewrite (Hbefore _ Hlt) in Hlast. destruct Hlast as [_ Hc]. lia.
      + rewrite Heq, Hsucc in Hlast. exact Hlast.
      + rewrite (Hpast _ Hgt) in Hsucc. discriminate. }
  split.
  - rewrite <- !Hretry.
    destruct (retried (build_text_layer_call libs)) as [[] |];
      [| cbn [snd]; split; [discriminate | intros [H _]; discriminate]].
    destruct (retried (merge_pdfs_call libs)) as [[] |]; cbn [snd].
    + now split.
    + split; [discriminate | intros [_ H]; discriminate].
  - destruct (retried (build_text_layer_call libs)) as [[] |];
      [| discriminate].
    destruct (retried (merge_pdfs_call libs)) as [[] |]; [| discriminate].
    intros _. now split.
Qed.

End WholeCall.

(** ** Concrete runs *)

Section ConcreteRuns.
Import PyStr Data Matching Processor Examples.

Lemma best_fuzzy_window_optimal_witness :
  let K := normalize_text kw_company_short in
  let sc :=
    Invariants.score Difflib.ratio K
      (Spec.page_texts (pg_chars contract_page)) in
  ((6 # 10) <= sc 0%nat)%Q /\ (0 < sc 0%nat)%Q
  /\ (forall j, j + length K <= length (pg_chars contract_page) ->
        (sc j <= sc 0%nat)%Q)
  /\ (forall j, j < 0 -> (sc j < sc 0%nat)%Q).
Proof.
  apply (best_fuzzy_window_optimal Difflib.ratio (pg_chars contract_page)
           kw_company_short (6 # 10) 0 4).
  vm_compute. reflexivity.
Defined.

Lemma bbox_of_chars_encloses_witness :
  exists c,
    pg_chars contract_page !! 5%nat = Some c
    /\ (72 <= c_x0 c /\ 130 <= c_top c /\ c_x1 c <= 132
        /\ c_bottom c <= 142)%Q.
Proof.
  destruct (bbox_of_chars_encloses (pg_chars contract_page) 5 10 72 130 132
              142) as [H _].
  - vm_compute. reflexivity.
  - eexists. split; [vm_compute; reflexivity |].
    apply (H 5%nat); [lia | vm_compute; reflexivity].
Defined.

Lemma alias_resolves_to_canonical_witness :
  let cfg :=
    mkOverride (Some 1%Z) None None None None
      (Some [lit "Company"; lit "Firm"]) in
  _resolve_override_for_key [(lit "Company", cfg)] (lit "Firm")
  = (Some (lit "Company"), cfg)
  /\ _resolve_override_for_key [(lit "Company", cfg)] (lit "Company")
     = (Some (lit "Company"), cfg).
Proof.
  apply (alias_resolves_to_canonical [] [] (lit "Company") (lit "Firm")
           (mkOverride (Some 1%Z) None None None None
              (Some [lit "Company"; lit "Firm"]))).
  - intros e [<- | []] H. vm_compute in H. discriminate H.
  - vm_compute. reflexivity.
  - intros e [].
  - intros e [].
Defined.

Lemma override_page_confines_search_witness :
  let ovs := [(kw_company, mkOverride (Some 5%Z) None None None None None)] in
  (forall sel1 sel2,
      fill_key Difflib.ratio [contract_page] ovs sel1 (6 # 10) empty_plan
        (kw_company, lit "ACME")
      = fill_key Difflib.ratio [contract_page] ovs sel2 (6 # 10) empty_plan
          (kw_company, lit "ACME"))
  /\ forall sel,
       fill_key Difflib.ratio [contract_page] ovs sel (6 # 10) empty_plan
         (kw_company, lit "ACME")
       = Returned (mkPlan ∅ 1 [] [kw_company]).
Proof.
  destruct (override_page_confines_search Difflib.ratio [contract_page]
              [(kw_company, mkOverride (Some 5%Z) None None None None None)]
              (6 # 10) empty_plan kw_company (lit "ACME") 5) as [H1 H2].
  - vm_compute. reflexivity.
  - split; [exact H1 |]. apply H2.
    + intros H. vm_compute in H. discriminate H.
    + unfold valid_page. simpl. lia.
Defined.

Lemma fill_key_outcome_witness :
  let ovs :=
    [(kw_id_number,
      mkOverride None (Some (352 # 10)) (Some (-3)%Q) (Some 200%Q) None None)] in
  exists st',
    fill_key Difflib.ratio [contract_page] ovs None (6 # 10) empty_plan
      (kw_id_number, lit "123456") = Returned st'
    /\ total_considered st' = 1
    /\ draw_plan st'
       = {[ 0%Z := [mkDraw (lit "123456")
                      (132 + 50 + ((352 # 10) - 50))%Q
                      (842 - (142 + 0) + (-3 - 0))%Q (Some 200%Q) None] ]}
    /\ matched_keys st' = [kw_id_number]
    /\ missing_keys st' = [].
Proof.
  destruct (fill_key_outcome Difflib.ratio [contract_page]
              [(kw_id_number,
                mkOverride None (Some (352 # 10)) (Some (-3)%Q) (Some 200%Q) None
                  None)] None (6 # 10)
              empty_plan kw_id_number (lit "123456"))
    as (st' & Hret & Htotal & _).
  - intros H. vm_compute in H. discriminate H.
  - exists st'. split; [exact Hret |]. split; [exact Htotal |].
    vm_compute in Hret. injection Hret as <-.
    split; [vm_compute; reflexivity |]. split; reflexivity.
Defined.

Lemma fill_with_pymupdf_engine_reported_witness :
  let f := mkFontPath (lit "simhei.ttf") true (lit ".ttf") in
  let o := Engines.mkOracle true true true true true
             registered_without_font_file in
  lit "pymupdf"
  = (if Engines.usable_font f && Engines.insert_font_ok o
     then lit "pymupdf" else lit "reportlab")
  /\ lit "simhei.ttf" = fp_name f
  /\ Engines.fitz_open_ok o = true
  /\ (if Engines.usable_font f && Engines.insert_font_ok o
      then Engines.draw_ok o else Engines.overlay_ok o) = true.
Proof.
  apply (fill_with_pymupdf_engine_reported (fun _ _ _ => None)
           (Engines.mkOracle true true true true true
              registered_without_font_file) [(595, 842)%Q] ∅
           (0, 0, 0)%Z 12 14 true 2
           (Some (mkFontPath (lit "simhei.ttf") true (lit ".ttf")))
           (lit "SimHei") (lit "pymupdf") (lit "simhei.ttf")).
  vm_compute. reflexivity.
Defined.

Lemma fill_with_pymupdf_direct_path_witness :
  let f := mkFontPath (lit "simhei.ttf") true (lit ".ttf") in
  let o :=
    Engines.mkOracle true true true true true registered_without_font_file in
  exists texts,
    fst (Engines.fill_with_pymupdf (fun _ _ _ => None) o [(595, 842)%Q]
           one_item_plan (0, 0, 0)%Z 12 14 true 2 (Some f) (lit "SimHei"))
    = Engines.ActInsertFont (lit "SimHei") (fp_name f)
      :: texts ++ [Engines.ActSave]
    /\ Forall (fun a => exists page x y line,
                 a = Engines.ActInsertText page x y line (lit "SimHei")
                 /\ (page < length [(595, 842)%Q])%nat) texts
    /\ inserted_lines texts = [(0%nat, lit "123456789012345678")].
Proof.
  destruct (fill_with_pymupdf_direct_path (fun _ _ _ => None)
              (Engines.mkOracle true true true true true
                 registered_without_font_file) [(595, 842)%Q] one_item_plan
              (0, 0, 0)%Z 12 14 true 2
              (mkFontPath (lit "simhei.ttf") true (lit ".ttf"))
              (lit "SimHei")) as (texts & Hacts & Hall & Hlines).
  - reflexivity.
  - vm_compute. reflexivity.
  - reflexivity.
  - reflexivity.
  - exists texts. split; [exact Hacts |]. split; [exact Hall |].
    rewrite Hlines. vm_compute. reflexivity.
Defined.

Lemma build_text_layer_pages_witness :
  (exists ops,
      Reportlab.build_text_layer (fun _ _ _ => None)
        registered_without_font_file true [(595, 842)%Q] one_item_plan
        (lit "STSong-Light") (0, 0, 0)%Z 12 14 true 2 = Returned ops
      /\ shown_pages ops = 1%nat
      /\ drawn_lines ops = [lit "123456789012345678"])
  /\ Reportlab.build_text_layer (fun _ _ _ => None)
       registered_without_font_file true [(595, 842)%Q] one_item_plan
       (lit "SimSun") (0, 0, 0)%Z 12 14 true 2 = Raised.
Proof.
  split.
  - destruct (build_text_layer_pages (fun _ _ _ => None)
                registered_without_font_file true [(595, 842)%Q]
                one_item_plan (lit "STSong-Light") (0, 0, 0)%Z 12 14 true 2)
      as [Hgood _].
    destruct Hgood as (ops & Hrun & Hshown & _ & Hlines);
      [reflexivity | left; vm_compute; reflexivity |].
    exists ops. split; [exact Hrun |]. split; [exact Hshown |].
    rewrite Hlines. vm_compute. reflexivity.
  - destruct (build_text_layer_pages (fun _ _ _ => None)
                registered_without_font_file true [(595, 842)%Q]
                one_item_plan (lit "SimSun") (0, 0, 0)%Z 12 14 true 2)
      as (_ & Hbad & _).
    apply Hbad; [vm_compute; reflexivity |].
    exists 0%nat. split; [simpl; lia |].
    intros H. vm_compute in H. discriminate H.
Defined.

Lemma pymupdf_without_font_raises_witness :
  let o :=
    Engines.mkOracle true true true true true registered_without_font_file in
  _fill_with_pymupdf (fun _ _ _ => None) o
    (Some (mkFontPath (lit "simhei.ttf") false (lit ".ttf")))
    [mkFontPath (lit "msyh.ttc") true (lit ".ttc")] [(595, 842)%Q]
    one_item_plan true 2 (mkProc None None)
  = ([Engines.ActBuildTextLayer preferred_fontname], Raised).
Proof.
  destruct (pymupdf_without_font_raises (fun _ _ _ => None)
              (Engines.mkOracle true true true true true
                 registered_without_font_file)
              (Some (mkFontPath (lit "simhei.ttf") false (lit ".ttf")))
              [mkFontPath (lit "msyh.ttc") true (lit ".ttc")] [(595, 842)%Q]
              one_item_plan true 2 (mkProc None None))
    as (_ & _ & _ & Hbad).
  - vm_compute. reflexivity.
  - apply Hbad; [reflexivity | vm_compute; reflexivity |].
    exists 0%nat. split; [simpl; lia |].
    intros H. vm_compute in H. discriminate H.
Defined.

Lemma retry_on_exception_spec_witness :
  let func := fun n : nat => match n with
                             | O | 1%nat => Retry.Retryable
                             | _ => Retry.Success 7%Z
                             end in
  exists r,
    Retry.retry_on_exception Fill.CONST_MAX_RETRY (2 # 10) 2 func = Some r
    /\ Retry.calls r = 3%nat
    /\ Retry.sleeps r = [(2 # 10)%Q; ((2 # 10) * 2)%Q]
    /\ Retry.result r = Returned 7%Z.
Proof.
  destruct (retry_on_exception_spec
              (fun n : nat => match n with
                              | O | 1%nat => Retry.Retryable
                              | _ => Retry.Success 7%Z
                              end) Fill.CONST_MAX_RETRY (2 # 10) 2)
    as (r & Hrun & Hcalls & Hsleeps & Hpast & Hlast).
  - unfold Qle. cbn. lia.
  - unfold Qle. cbn. lia.
  - exists r. split; [exact Hrun |]. vm_compute in Hrun.
    injection Hrun as <-. repeat split; reflexivity.
Defined.

Lemma fill_with_raster_needs_an_item_witness :
  Raster.fill_with_raster (fun _ _ _ => None)
    (Raster.mkPillow true true true (fun _ => None) true) [(595, 842)%Q] ∅
    12 14 (Some 2%Q) true 2 None
  = ([Raster.ActSave], Raised).
Proof.
  destruct (fill_with_raster_needs_an_item (fun _ _ _ => None)
              (Raster.mkPillow true true true (fun _ => None) true)
              [(595, 842)%Q] ∅ 12 14 (Some 2%Q) true 2 None) as [_ H].
  - reflexivity.
  - reflexivity.
  - reflexivity.
  - apply H. intros i [_ Hne]. apply Hne. rewrite lookup_empty. reflexivity.
Defined.

Lemma sanitize_input_data_spec_witness :
  let raw :=
    [(lit "name", Some (lit " Bob ")); (lit "age", None);
     (lit "city", Some (lit "  "))] in
  let cleaned := DataHandler.sanitize_input_data raw in
  cleaned = omap cleaned_value raw
  /\ Forall (fun kv => snd kv <> [] /\ strip (snd kv) = snd kv) cleaned
  /\ Spec.considered_keys cleaned = map fst cleaned
  /\ DataHandler.sanitize_input_data
       (map (fun kv => (fst kv, Some (snd kv))) cleaned) = cleaned.
Proof.
  apply (sanitize_input_data_spec
           [(lit "name", Some (lit " Bob ")); (lit "age", None);
            (lit "city", Some (lit "  "))]).
  apply (bool_decide_unpack _). vm_compute. reflexivity.
Defined.

Lemma configured_alias_resolves_witness :
  let data := [(lit "Company|Firm", Some no_override)] in
  exists canon cfg aliases,
    _resolve_override_for_key (DataHandler.load_keywords_config data)
      (strip (lit "Firm")) = (Some canon, cfg)
    /\ In (canon, cfg) (DataHandler.load_keywords_config data)
    /\ ov_aliases cfg = Some aliases
    /\ In (strip (lit "Firm")) aliases.
Proof.
  apply (configured_alias_resolves [(lit "Company|Firm", Some no_override)]
           (lit "Company|Firm") (lit "Firm")).
  - apply (bool_decide_unpack _). vm_compute. reflexivity.
  - vm_compute. left. reflexivity.
  - vm_compute. right. left. reflexivity.
  - intros H. vm_compute in H. discriminate H.
Defined.

Lemma raster_fill_needs_a_match_witness :
  let libs :=
    Fill.mkLibraries None [] (Engines.mkOracle true true true true true
              registered_without_font_file)
      (Raster.mkPillow true true true (fun _ => None) true)
      (fun _ => Retry.Success tt) (fun _ => Retry.Success tt) in
  snd (Fill.fill_by_keywords Difflib.ratio ascii_lower ascii_int
         (fun _ _ _ => None) libs (Fill.mkSelf None None None None)
         [contract_page] [] [] None None (lit "raster") None None None)
  = Raised.
Proof.
  destruct (raster_fill_needs_a_match Difflib.ratio ascii_lower ascii_int
              (fun _ _ _ => None)
              (Fill.mkLibraries None []
                 (Engines.mkOracle true true true true true
              registered_without_font_file)
                 (Raster.mkPillow true true true (fun _ => None) true)
                 (fun _ => Retry.Success tt) (fun _ => Retry.Success tt))
              (Fill.mkSelf None None None None) [contract_page] [] [] None
              None None None None) as (st & Hret & Hnone & _).
  - split; [reflexivity | split; reflexivity].
  - apply Hnone. vm_compute in Hret. injection Hret as <-. reflexivity.
Defined.

Lemma default_engine_retries_witness :
  let libs :=
    Fill.mkLibraries None [] (Engines.mkOracle true true true true true
              registered_without_font_file)
      (Raster.mkPillow true true true (fun _ => None) true)
      (fun n => match n with
                | O => Retry.Retryable
                | _ => Retry.Success tt
                end)
      (fun _ => Retry.Success tt) in
  let run :=
    Fill.fill_by_keywords Difflib.ratio ascii_lower ascii_int
      (fun _ _ _ => None) libs (Fill.mkSelf (Some (lit "STSong-Light")) None
                                  None None)
      [contract_page] [(kw_id_number, lit "123456")] [] None None
      (lit "reportlab") None None None in
  (snd run = Returned tt <->
   succeeds_within 3 (Fill.build_text_layer_call libs)
   /\ succeeds_within 3 (Fill.merge_pdfs_call libs))
  /\ (snd run = Returned tt ->
      Fill.last_engine_used (fst run) = Some (lit "reportlab")
      /\ Fill.last_font_info (fst run) = Some (lit "STSong-Light")).
Proof.
  apply (default_engine_retries Difflib.ratio ascii_lower ascii_int
           (fun _ _ _ => None)
           (Fill.mkLibraries None []
              (Engines.mkOracle true true true true true
              registered_without_font_file)
              (Raster.mkPillow true true true (fun _ => None) true)
              (fun n => match n with
                        | O => Retry.Retryable
                        | _ => Retry.Success tt
                        end)
              (fun _ => Retry.Success tt))
           (Fill.mkSelf (Some (lit "STSong-Light")) None None None)
           [contract_page] [(kw_id_number, lit "123456")] [] None None
           (lit "reportlab") None None None).
  - intros H. vm_compute in H. discriminate H.
  - intros H. vm_compute in H. discriminate H.
Defined.

End ConcreteRuns.
